(** * YouTube-Anchor: the feed-to-Telegram pipeline of [action_main.py]

    A shallow embedding of [action_main.py] and the properties of its
    fallback selector, transcript cascade, response parser, delivery sink,
    dedup ledger and orchestrator.

    Python values are modelled as the interpreter has them: a [str] is a
    sequence of Unicode code points, exceptions are values threaded through
    an error-and-state monad, and every call that leaves the process (HTTP,
    files, the generative backend, the downloader) is answered by an
    environment that may answer differently each time it is asked. *)

From Stdlib Require Import String Ascii.
From Stdlib Require Import List NArith ZArith Bool Arith Lia Permutation.
Import ListNotations.

Set Implicit Arguments.

(* ================================================================== *)
(** * Part I. Python strings *)
(* ================================================================== *)

(** A Python [str]: a sequence of code points. *)
Definition str := list N.

(** An ASCII literal of the source, as a [str]. *)
Definition u (s : string) : str :=
  map (fun a => N_of_ascii a) (list_ascii_of_string s).
Arguments u s%_string.

(** [a == b] on strings. *)
Fixpoint str_eqb (a b : str) : bool :=
  match a, b with
  | [], [] => true
  | x :: a', y :: b' => N.eqb x y && str_eqb a' b'
  | _, _ => false
  end.

(** No string occurs twice in [l]. *)
Fixpoint distinct (l : list str) : bool :=
  match l with
  | [] => true
  | x :: r => negb (existsb (str_eqb x) r) && distinct r
  end.

(** [s.startswith(p)] *)
Fixpoint startswith (p s : str) : bool :=
  match p, s with
  | [], _ => true
  | _ :: _, [] => false
  | a :: p', b :: s' => N.eqb a b && startswith p' s'
  end.

(** [s.endswith(p)] *)
Definition endswith (p s : str) : bool := startswith (rev p) (rev s).

(** [needle in s] for two strings. *)
Fixpoint contains (needle s : str) : bool :=
  startswith needle s ||
  match s with
  | [] => false
  | _ :: s' => contains needle s'
  end.

(** [s.partition(sep)] when [sep] occurs: the text before the first
    occurrence and the text after it. *)
Fixpoint split_at (sep s : str) : option (str * str) :=
  if startswith sep s then Some ([], skipn (length sep) s)
  else match s with
       | [] => None
       | c :: r =>
           match split_at sep r with
           | Some (a, b) => Some (c :: a, b)
           | None => None
           end
       end.

(** [s.split(sep)] for a non-empty [sep]; [fuel] bounds the number of
    pieces and [S (length s)] always suffices. *)
Fixpoint split_fuel (fuel : nat) (sep s : str) : list str :=
  match fuel with
  | O => [s]
  | S k =>
      match split_at sep s with
      | None => [s]
      | Some (a, b) => a :: split_fuel k sep b
      end
  end.

Definition split (sep s : str) : list str := split_fuel (S (length s)) sep s.

(** [s.replace(old, new)]: occurrences are replaced left to right and do
    not overlap.  [skip] counts the characters of the current occurrence
    still to be dropped. *)
Fixpoint replace_from (old new : str) (skip : nat) (s : str) : str :=
  match s with
  | [] => []
  | c :: r =>
      match skip with
      | S k => replace_from old new k r
      | O =>
          if startswith old s
          then new ++ replace_from old new (length old - 1) r
          else c :: replace_from old new 0 r
      end
  end.

Definition replace (old new s : str) : str :=
  match old with
  | [] => new ++ flat_map (fun c => c :: new) s
  | _ :: _ => replace_from old new 0 s
  end.

(** [str.isspace] on one code point: the characters [str.strip()] removes. *)
Definition is_space (c : N) : bool :=
  ((9 <=? c) && (c <=? 13) || (28 <=? c) && (c <=? 32)
   || (c =? 133) || (c =? 160) || (c =? 5760)
   || (8192 <=? c) && (c <=? 8202)
   || (c =? 8232) || (c =? 8233) || (c =? 8239) || (c =? 8287)
   || (c =? 12288))%N.

Fixpoint lstrip (s : str) : str :=
  match s with
  | [] => []
  | c :: r => if is_space c then lstrip r else s
  end.

Definition rstrip (s : str) : str := rev (lstrip (rev s)).

(** [s.strip()] *)
Definition strip (s : str) : str := rstrip (lstrip s).

(** [str.lower()] on the ASCII letters; other code points are kept.  The
    program only searches lowered messages for the needles "429", "quota",
    "404", "not found", "503" and "overloaded", and the only ASCII letters
    that a character outside ASCII lowers to are "i" and "k", which occur in
    none of them: the searches come out as in the interpreter. *)
Definition lower_char (c : N) : N :=
  if ((65 <=? c) && (c <=? 90))%N then (c + 32)%N else c.

Definition lower (s : str) : str := map lower_char s.

(** [sep.join(l)] *)
Fixpoint join (sep : str) (l : list str) : str :=
  match l with
  | [] => []
  | [x] => x
  | x :: r => x ++ sep ++ join sep r
  end.

(** The line boundaries of [str.splitlines()]. *)
Definition is_linebreak (c : N) : bool :=
  ((10 <=? c) && (c <=? 13) || (28 <=? c) && (c <=? 30)
   || (c =? 133) || (c =? 8232) || (c =? 8233))%N.

(** [s.splitlines()]: [cur] is the line being read, newest character
    first; a carriage return followed by a line feed is one boundary. *)
Fixpoint splitlines_from (cur : str) (s : str) : list str :=
  match s with
  | [] => match cur with [] => [] | _ :: _ => [rev cur] end
  | c :: r =>
      if is_linebreak c then
        match c, r with
        | 13%N, 10%N :: r' => rev cur :: splitlines_from [] r'
        | _, _ => rev cur :: splitlines_from [] r
        end
      else splitlines_from (c :: cur) r
  end.

Definition splitlines (s : str) : list str := splitlines_from [] s.

(** The lazy span of the patterns [\*.*?\*], [\[.*?\]] and [\(.*?\)]: after
    the opening character, the number of characters before the first
    closing character, provided no line feed comes first ([.] does not
    match a line feed). *)
Fixpoint find_close (cl : N) (s : str) : option nat :=
  match s with
  | [] => None
  | c :: r =>
      if N.eqb c cl then Some O
      else if N.eqb c 10 then None
      else option_map S (find_close cl r)
  end.

(** [re.sub(pattern, '', s)] for the pattern "open, lazily anything, close":
    matches are removed left to right and do not overlap. *)
Fixpoint sub_span_from (op cl : N) (skip : nat) (s : str) : str :=
  match s with
  | [] => []
  | c :: r =>
      match skip with
      | S k => sub_span_from op cl k r
      | O =>
          if N.eqb c op then
            match find_close cl r with
            | Some n => sub_span_from op cl (S n) r
            | None => c :: sub_span_from op cl 0 r
            end
          else c :: sub_span_from op cl 0 r
      end
  end.

Definition sub_span (op cl : N) (s : str) : str := sub_span_from op cl 0 s.

(** [re.sub(r'\*.*?\*', '', s)] *)
Definition sub_stars (s : str) : str := sub_span 42 42 s.
(** [re.sub(r'\[.*?\]', '', s)] *)
Definition sub_brackets (s : str) : str := sub_span 91 93 s.
(** [re.sub(r'\(.*?\)', '', s)] *)
Definition sub_parens (s : str) : str := sub_span 40 41 s.

(** Truthiness of a string: [not s] holds of the empty string. *)
Definition str_truthy (s : str) : bool :=
  match s with [] => false | _ :: _ => true end.

(** How a decimal number is printed inside an f-string. *)
Fixpoint digits_fuel (fuel : nat) (n : N) (acc : str) : str :=
  match fuel with
  | O => acc
  | S k =>
      let acc' := (48 + n mod 10)%N :: acc in
      if (n <? 10)%N then acc' else digits_fuel k (n / 10)%N acc'
  end.

Definition str_of_nat (n : nat) : str :=
  digits_fuel (S n) (N.of_nat n) [].

(* ================================================================== *)
(** * Part II. Values, exceptions and the outside world *)
(* ================================================================== *)

(** What [json.load] builds.  Numbers are the integers; an object keeps its
    keys in the order of the file, each key once. *)
#[local] Set Warnings "-register-all".
Inductive json : Type :=
| JNull
| JBool (b : bool)
| JNum (n : Z)
| JStr (s : str)
| JArr (l : list json)
| JObj (kv : list (str * json)).

(** A raised [Exception], identified with its message [str(e)]. *)
Definition exn := str.

(** How a call ends: it returns, it raises, or it never comes back. *)
Inductive outcome (A : Type) : Type :=
| Ret (a : A)
| Raise (e : exn)
| Hang.
Arguments Raise {A} e.
Arguments Hang {A}.

(** A file of the working directory as the program finds it. *)
Inductive file : Type :=
| Missing                 (* no such file *)
| Garbled (e : exn)       (* reading or JSON-decoding it raises [e] *)
| Holds (j : json).       (* it decodes to [j] *)

(** A file of the generative backend's store. *)
Record remote_file := { rf_name : str; rf_state : str }.

(** The prompt payload handed to a model. *)
Inductive part := PText (s : str) | PFile (f : remote_file).
Inductive payload := Prompt (s : str) | Parts (l : list part).

(** A parsed feed: attributes may be absent. *)
Record entry := { yt_videoid : option str; title : option str; link : option str }.
Record feed := { entries : list entry; feed_title : option str }.

(** The two option sets handed to the downloader. *)
Inductive ydl_opts :=
| SubtitleOpts (outtmpl : str)   (* skip_download, writeautomaticsub, en *)
| AudioOpts (outtmpl : str).     (* bestaudio/best, mp3 at 64 *)

(** An HTTP response as far as the program looks at it. *)
Record response := { status_code : nat; reason : str }.

(** The calls that leave the process, indexed by what they return. *)
Inductive call : Type -> Type :=
| GenerateContent (model_name : str) (prompt_parts : payload) : call str
| UploadFile (path : str) : call remote_file
| GetFile (name : str) : call remote_file
| DeleteFile (name : str) : call unit
| GetTranscript (video_id : str) (cookies : option str) : call (list str)
| ImportYtDlp : call unit
| YdlDownload (opts : ydl_opts) (url : str) : call unit
| ListDir (path : str) : call (list str)
| ReadFile (path : str) : call str
| OsRemove (path : str) : call unit
| TtsSave (script voice rate pitch path : str) : call unit
| Post (url : str) (data : list (str * json)) (files : list (str * str)) : call response
| OpenRb (path : str) : call unit
| Unlink (path : str) : call unit
| WriteText (path : str) (content : json) : call unit
| FeedParse (url : str) : call feed.

Inductive level := INFO | WARNING | ERROR.

Inductive pause :=
| Seconds (n : nat)              (* time.sleep(n) *)
| UniformSeconds (lo hi : nat).  (* time.sleep(random.uniform(lo, hi)) *)

(** What the process does that can be seen from outside, in order. *)
Inductive event : Type :=
| Called (R : Type) (c : call R)
| Stat (path : str)
| Configure (api_key : option str)
| Log (lvl : level) (msg : str)
| Sleep (d : pause).

(** The outside world.  [respond t c] answers the call [c] made when [t]
    calls have been made before it; [path_exists] answers [os.path.exists]
    and [Path.exists]; [environ] is [os.environ.get]; [set_iter] is the
    order in which this interpreter iterates a set whose elements were
    added in the order given (hash-table order: for strings it depends on
    the per-process hash seed); [after_failed_write] is what a failed
    write leaves of the ledger file. *)
Record Env := {
  respond : forall R : Type, nat -> call R -> outcome R;
  path_exists : nat -> str -> bool;
  environ : str -> option str;
  set_iter : list json -> list json;
  after_failed_write : nat -> file
}.

(** The state the program threads: the number of calls made so far, the
    events so far, and the two files whose contents matter. *)
Record St := {
  clock : nat;
  trace : list event;
  history_file : file;
  feeds_file : file
}.

(** ** The monad of the program: state and exceptions *)

Definition M (A : Type) : Type := St -> outcome A * St.

Definition ret {A} (a : A) : M A := fun st => (Ret a, st).

Definition bind {A B} (m : M A) (k : A -> M B) : M B :=
  fun st =>
    match m st with
    | (Ret a, st') => k a st'
    | (Raise e, st') => (Raise e, st')
    | (Hang, st') => (Hang, st')
    end.

Definition raise {A} (e : exn) : M A := fun st => (Raise e, st).

(** [try: m except Exception as e: h e] *)
Definition try_except {A} (m : M A) (h : exn -> M A) : M A :=
  fun st =>
    match m st with
    | (Raise e, st') => h e st'
    | r => r
    end.

Declare Scope py_scope.
Delimit Scope py_scope with py.
Notation "x <- m ;; k" := (bind m (fun x => k))
  (at level 61, m at next level, right associativity) : py_scope.
Notation "m ;; k" := (bind m (fun _ => k))
  (at level 61, right associativity) : py_scope.
Open Scope py_scope.

Definition emit (ev : event) : M unit :=
  fun st => (Ret tt, {| clock := clock st; trace := trace st ++ [ev];
                        history_file := history_file st;
                        feeds_file := feeds_file st |}).

Definition tick (ev : event) (st : St) : St :=
  {| clock := S (clock st); trace := trace st ++ [ev];
     history_file := history_file st; feeds_file := feeds_file st |}.

(** An outside call: the environment answers, the call is recorded. *)
Definition ext (env : Env) {R} (c : call R) : M R :=
  fun st => (respond env (clock st) c, tick (Called c) st).

(** [os.path.exists(path)] and [Path(path).exists()] *)
Definition exists_ (env : Env) (path : str) : M bool :=
  fun st => (Ret (path_exists env (clock st) path), tick (Stat path) st).

Definition log (lvl : level) (msg : str) : M unit := emit (Log lvl msg).
Definition sleep (d : pause) : M unit := emit (Sleep d).

(** A pure computation that may raise, run inside the program. *)
Definition lift {A} (o : outcome A) : M A := fun st => (o, st).

(** How an f-string prints an optional string. *)
Definition fmt_opt (o : option str) : str :=
  match o with Some s => s | None => u "None" end.

(** The signs of the log messages. *)
Definition warning_sign : str := [9888; 65039]%N.
Definition cross_mark : str := [10060]%N.

(* ================================================================== *)
(** * Part III. The fallback generator *)
(* ================================================================== *)

Definition GEMINI_API_KEY (env : Env) : option str := environ env (u "GEMINI_API_KEY").
Definition TELEGRAM_TOKEN (env : Env) : option str := environ env (u "TELEGRAM_TOKEN").
Definition TELEGRAM_CHAT_ID (env : Env) : option str := environ env (u "TELEGRAM_CHAT_ID").

(** The master priority list as it is written: the string literals between
    two commas form one group, and Python joins the adjacent literals of a
    group into one string when it compiles the list. *)
Definition models_literals : list (list str) :=
  [ [u "gemini-2.5-flash"; u "gemini-2.0-flash-exp"];
    [u "gemini-1.5-pro"];
    [u "gemini-1.5-flash"];
    [u "gemini-2.5-flash-lite"];
    [u "gemini-flash-lite-latest"];
    [u "gemini-1.5-flash-8b"];
    [u "gemini-2.5-flash-preview-09-2025"];
    [u "gemini-2.5-flash-lite-preview-09-2025"];
    [u "gemma-3-27b-it"];
    [u "gemma-3-9b-it"];
    [u "gemma-3-4b-it"];
    [u "gemma-3-1b-it"] ].

(** The list the interpreter builds. *)
Definition models_to_try : list str := map (@concat N) models_literals.

(** The literals the author wrote, one intended entry each. *)
Definition models_authored : list str := concat models_literals.

(** The [except] block of one attempt: classify the message, log, pause. *)
Definition on_model_error (model_name : str) (e : exn) : M unit :=
  let error_msg := lower e in
  if contains (u "429") error_msg || contains (u "quota") error_msg then
    log WARNING (warning_sign ++ u " " ++ model_name
                 ++ u " is Busy/Rate Limited. Switching to next...") ;;
    sleep (Seconds 1)
  else if contains (u "404") error_msg || contains (u "not found") error_msg then
    ret tt
  else if contains (u "503") error_msg || contains (u "overloaded") error_msg then
    log WARNING (warning_sign ++ u " " ++ model_name ++ u " Overloaded. Switching...") ;;
    sleep (Seconds 2)
  else
    log WARNING (warning_sign ++ u " " ++ model_name ++ u " Error: " ++ e
                 ++ u ". Switching...").

(** The [for model_name in models_to_try] loop: [Some text] when an
    iteration returned, [None] when the list is used up. *)
Fixpoint try_models (env : Env) (models : list str) (prompt_parts : payload)
  : M (option str) :=
  match models with
  | [] => ret None
  | model_name :: rest =>
      r <- try_except
             (text <- ext env (GenerateContent model_name prompt_parts) ;;
              ret (Some text))
             (fun e => on_model_error model_name e ;; ret None) ;;
      match r with
      | Some text => ret (Some text)
      | None => try_models env rest prompt_parts
      end
  end.

Definition generate_with_fallback (env : Env) (prompt_parts : payload)
  : M (option str) :=
  emit (Configure (GEMINI_API_KEY env)) ;;
  r <- try_models env models_to_try prompt_parts ;;
  match r with
  | Some text => ret (Some text)
  | None =>
      log ERROR (cross_mark ++ u " ALL models failed. Your API key is likely completely exhausted for the day.") ;;
      ret None
  end.

(** The models asked, in order, as the events show them. *)
Fixpoint attempted (tr : list event) : list str :=
  match tr with
  | [] => []
  | Called (GenerateContent model_name _) :: r => model_name :: attempted r
  | _ :: r => attempted r
  end.

(* ================================================================== *)
(** * Part IV. JSON values as Python objects; the dedup ledger *)
(* ================================================================== *)

Definition type_name (j : json) : str :=
  match j with
  | JNull => u "NoneType" | JBool _ => u "bool" | JNum _ => u "int"
  | JStr _ => u "str" | JArr _ => u "list" | JObj _ => u "dict"
  end.

(** Truthiness: [if data] *)
Definition py_truthy (j : json) : bool :=
  match j with
  | JNull => false
  | JBool b => b
  | JNum n => negb (Z.eqb n 0)
  | JStr s => str_truthy s
  | JArr l => match l with [] => false | _ :: _ => true end
  | JObj kv => match kv with [] => false | _ :: _ => true end
  end.

(** [a == b] on the hashable values ([True == 1] holds in Python). *)
Definition key_eqb (a b : json) : bool :=
  match a, b with
  | JNull, JNull => true
  | JBool x, JBool y => Bool.eqb x y
  | JBool x, JNum n | JNum n, JBool x => Z.eqb n (if x then 1 else 0)
  | JNum n, JNum m => Z.eqb n m
  | JStr s, JStr t => str_eqb s t
  | _, _ => false
  end.

Fixpoint lookup (k : str) (kv : list (str * json)) : option json :=
  match kv with
  | [] => None
  | (k', v) :: r => if str_eqb k k' then Some v else lookup k r
  end.

(** [for x in j]: what iterating a value yields, or the [TypeError]. *)
Definition iterate (j : json) : outcome (list json) :=
  match j with
  | JArr l => Ret l
  | JStr s => Ret (map (fun c => JStr [c]) s)
  | JObj kv => Ret (map (fun p => JStr (fst p)) kv)
  | _ => Raise (u "'" ++ type_name j ++ u "' object is not iterable")
  end.

(** A Python [set] of hashable JSON values: its elements in the order they
    were added, each once.  The order of iteration is the interpreter's
    ([set_iter]), not this one. *)
Definition pyset := list json.

Definition set_mem (x : json) (s : pyset) : bool := existsb (key_eqb x) s.

(** [s.add(x)] *)
Definition set_add (x : json) (s : pyset) : pyset :=
  if set_mem x s then s else s ++ [x].

(** [set(l)]: lists and dicts are unhashable. *)
Fixpoint set_from (acc : pyset) (l : list json) : outcome pyset :=
  match l with
  | [] => Ret acc
  | x :: r =>
      match x with
      | JArr _ | JObj _ => Raise (u "unhashable type: '" ++ type_name x ++ u "'")
      | _ => set_from (set_add x acc) r
      end
  end.

Definition HISTORY_FILE : str := u "history.json".

(** [json.loads(HISTORY_FILE.read_text())] and
    [json.load(open("feeds.json"))] *)
Definition read_json (path : str) (f : file) : M json :=
  match f with
  | Missing => raise (u "[Errno 2] No such file or directory: '" ++ path ++ u "'")
  | Garbled e => raise e
  | Holds j => ret j
  end.

(** [data.get("videos", [])] *)
Definition get_videos (data : json) : outcome json :=
  match data with
  | JObj kv => Ret (match lookup (u "videos") kv with Some v => v | None => JArr [] end)
  | _ => Raise (u "'" ++ type_name data ++ u "' object has no attribute 'get'")
  end.

Definition load_history : M pyset :=
  fun st =>
    match history_file st with
    | Missing => (Ret [], st)                       (* HISTORY_FILE.exists() is False *)
    | f =>
        try_except
          (data <- read_json HISTORY_FILE f ;;
           videos <- lift (get_videos data) ;;
           items <- lift (iterate videos) ;;
           lift (set_from [] items))
          (fun e => log WARNING (u "Could not load history: " ++ e) ;; ret [])
          st
    end.

(** [l[-n:]] *)
Definition last_n (n : nat) (l : list json) : list json := skipn (length l - n) l.

(** [HISTORY_FILE.write_text(json.dumps(content, indent=2))] *)
Definition write_history (env : Env) (content : json) : M unit :=
  fun st =>
    let st' := tick (Called (WriteText HISTORY_FILE content)) st in
    match respond env (clock st) (WriteText HISTORY_FILE content) with
    | Ret _ =>
        (Ret tt, {| clock := clock st'; trace := trace st';
                    history_file := Holds content; feeds_file := feeds_file st' |})
    | Raise e =>
        (Raise e, {| clock := clock st'; trace := trace st';
                     history_file := after_failed_write env (clock st);
                     feeds_file := feeds_file st' |})
    | Hang => (Hang, st')
    end.

Definition save_history (env : Env) (history : pyset) : M unit :=
  try_except
    (let history_list := set_iter env history in
     let history_list :=
       if 500 <? length history_list then last_n 500 history_list else history_list in
     write_history env (JObj [(u "videos", JArr history_list)]))
    (fun e => log ERROR (u "Failed to save history: " ++ e)).

(** ** The feed list, loaded when the module is imported *)

(** [data[0]] *)
Definition getitem0 (data : json) : outcome json :=
  match data with
  | JArr (x :: _) => Ret x
  | JArr [] => Raise (u "list index out of range")
  | JStr (c :: _) => Ret (JStr [c])
  | JStr [] => Raise (u "string index out of range")
  | JObj _ => Raise (u "0")
  | _ => Raise (u "'" ++ type_name data ++ u "' object is not subscriptable")
  end.

Definition is_dict (j : json) : bool :=
  match j with JObj _ => true | _ => false end.

(** ["url" in item] *)
Definition has_url (item : json) : outcome bool :=
  match item with
  | JObj kv => Ret (match lookup (u "url") kv with Some _ => true | None => false end)
  | JStr s => Ret (contains (u "url") s)
  | JArr l => Ret (existsb (key_eqb (JStr (u "url"))) l)
  | _ => Raise (u "argument of type '" ++ type_name item ++ u "' is not iterable")
  end.

(** [item["url"]] *)
Definition getitem_url (item : json) : outcome json :=
  match item with
  | JObj kv =>
      match lookup (u "url") kv with
      | Some v => Ret v
      | None => Raise (u "'url'")
      end
  | JStr _ => Raise (u "string indices must be integers, not 'str'")
  | JArr _ => Raise (u "list indices must be integers or slices, not str")
  | _ => Raise (u "'" ++ type_name item ++ u "' object is not subscriptable")
  end.

(** [[item["url"] for item in data if "url" in item]] *)
Fixpoint collect_urls (items : list json) : outcome (list json) :=
  match items with
  | [] => Ret []
  | item :: r =>
      match has_url item with
      | Ret true =>
          match getitem_url item with
          | Ret v =>
              match collect_urls r with
              | Ret vs => Ret (v :: vs)
              | Raise e => Raise e
              | Hang => Hang
              end
          | Raise e => Raise e
          | Hang => Hang
          end
      | Ret false => collect_urls r
      | Raise e => Raise e
      | Hang => Hang
      end
  end.

(** The module-level block that defines [YOUTUBE_FEEDS]. *)
Definition load_feeds : M json :=
  fun st =>
    try_except
      (data <- read_json (u "feeds.json") (feeds_file st) ;;
       if py_truthy data then
         first <- lift (getitem0 data) ;;
         if is_dict first then
           items <- lift (iterate data) ;;
           urls <- lift (collect_urls items) ;;
           ret (JArr urls)
         else ret data
       else ret data)
      (fun e =>
         log WARNING (warning_sign ++ u " feeds.json error: " ++ e ++ u ". Using empty list.") ;;
         ret (JArr []))
      st.

(* ================================================================== *)
(** * Part V. The transcript cascade *)
(* ================================================================== *)

Definition hang {A} : M A := fun st => (Hang, st).

(** One line of a subtitle file, as the second method cleans it. *)
Definition clean_line (line : str) : str :=
  let clean_line := replace (u "&nbsp;") (u " ")
                      (replace (u "</c>") [] (replace (u "<c>") [] line)) in
  let clean_line := sub_brackets clean_line in
  sub_parens clean_line.

Definition keep_line (line : str) : bool :=
  negb (contains (u "-->") line) && negb (contains (u "WEBVTT") line)
  && str_truthy (strip line).

(** "Cleaning VTT junk": the text of a subtitle file. *)
Definition clean_vtt (content : str) : str :=
  join (u " ") (map clean_line (filter keep_line (splitlines content))).

(** Method 1, the body of its [try]: the caption API. *)
Definition method1 (env : Env) (video_id : str) : M str :=
  has_cookies <- exists_ env (u "cookies.txt") ;;
  transcript_list <-
    ext env (GetTranscript video_id
               (if has_cookies then Some (u "cookies.txt") else None)) ;;
  ret (join (u " ") transcript_list).

(** The [for file in os.listdir(".")] loop of method 2, which stops at the
    first caption file: [found_text]. *)
Fixpoint find_caption (env : Env) (video_id : str) (files : list str)
  : M (option str) :=
  match files with
  | [] => ret None
  | file :: rest =>
      if startswith (u "transcript_" ++ video_id) file && endswith (u ".vtt") file
      then
        content <- ext env (ReadFile file) ;;
        ext env (OsRemove file) ;;
        ret (Some (clean_vtt content))
      else find_caption env video_id rest
  end.

(** Method 2, the body of its [try]: [Some text] when it returned a text,
    [None] when it fell through. *)
Definition method2 (env : Env) (video_id : str) : M (option str) :=
  ext env ImportYtDlp ;;
  sleep (UniformSeconds 2 5) ;;
  let url := u "https://youtu.be/" ++ video_id in
  ext env (YdlDownload (SubtitleOpts (u "transcript_" ++ video_id)) url) ;;
  files <- ext env (ListDir (u ".")) ;;
  found_text <- find_caption env video_id files ;;
  match found_text with
  | Some text => if str_truthy text then ret (Some text) else ret None
  | None => ret None
  end.

(** [while uploaded_file.state.name == "PROCESSING"]: the loop has no bound
    in the source; [fuel] bounds the rounds the model follows. *)
Fixpoint wait_processing (env : Env) (fuel : nat) (uploaded_file : remote_file)
  : M remote_file :=
  if str_eqb (rf_state uploaded_file) (u "PROCESSING") then
    match fuel with
    | O => hang
    | S k =>
        sleep (Seconds 2) ;;
        uploaded_file <- ext env (GetFile (rf_name uploaded_file)) ;;
        wait_processing env k uploaded_file
    end
  else ret uploaded_file.

Definition transcribe_instruction : str :=
  u "Listen to this audio and generate a full transcript of what is being said. Do not summarize, just transcribe.".

(** Method 3, the body of its [try]: what it returns. *)
Definition method3 (env : Env) (fuel : nat) (video_id : str) : M (option str) :=
  ext env ImportYtDlp ;;
  log INFO ([9762; 65039]%N ++ u " Nuclear Option: Listening to audio...") ;;
  let filename := u "audio_" ++ video_id in
  ext env (YdlDownload (AudioOpts filename) (u "https://youtu.be/" ++ video_id)) ;;
  let final_audio_file := filename ++ u ".mp3" in
  found <- exists_ env final_audio_file ;;
  if found then
    emit (Configure (GEMINI_API_KEY env)) ;;
    uploaded_file <- ext env (UploadFile final_audio_file) ;;
    uploaded_file <- wait_processing env fuel uploaded_file ;;
    transcript_text <-
      generate_with_fallback env
        (Parts [PText transcribe_instruction; PFile uploaded_file]) ;;
    try_except
      (ext env (OsRemove final_audio_file) ;;
       ext env (DeleteFile (rf_name uploaded_file)))
      (fun _ => ret tt) ;;
    ret transcript_text
  else ret None.

Definition get_transcript (env : Env) (fuel : nat) (video_id : str)
  : M (option str) :=
  log INFO ([128373; 65039]%N ++ u " Fetching transcript for " ++ video_id ++ u "...") ;;
  r1 <- try_except
          (text <- method1 env video_id ;; ret (Some text))
          (fun e => log WARNING (warning_sign ++ u " API Method failed: " ++ e) ;;
                    ret None) ;;
  match r1 with
  | Some text => ret (Some text)
  | None =>
      r2 <- try_except
              (method2 env video_id)
              (fun e => log WARNING (warning_sign ++ u " Method 2 failed: " ++ e) ;;
                        ret None) ;;
      match r2 with
      | Some text => ret (Some text)
      | None =>
          try_except
            (method3 env fuel video_id)
            (fun e => log ERROR (cross_mark ++ u " Nuclear Option failed: " ++ e) ;;
                      ret None)
      end
  end.

(* ================================================================== *)
(** * Part VI. The content synthesizer *)
(* ================================================================== *)

Definition TELEGRAM_MARKER : str := u "---TELEGRAM---".
Definition PODCAST_MARKER : str := u "---PODCAST---".

(** The dict [analyze_video] returns. *)
Record content := { telegram : str; podcast : str }.

(** [transcript[:50000]] *)
Definition transcript_limit : nat := 50 * 1000.

Definition prompt (transcript channel_name video_title : str) : str :=
  join [10%N]
   [ [];
     u "    You are a high-energy, joyful Radio RJ who loves tech. You are talking to your listeners (friends).";
     u "    ";
     u "    VIDEO: " ++ [34%N] ++ video_title ++ [34%N] ++ u " by " ++ channel_name;
     u "    TRANSCRIPT: " ++ firstn transcript_limit transcript;
     [];
     u "    YOUR TASK:";
     u "    1. TELEGRAM POST (Short & Punchy):";
     u "       - 1 Hook Line (Make me curious).";
     u "       - 2 Short Bullet points on the " ++ [34%N] ++ u "Why" ++ [34%N] ++ u ".";
     u "       - No filler. Just value.";
     [];
     u "    2. PODCAST SCRIPT (The Radio Vibe):";
     u "       - ENERGY: High, Joyful, Excited. Like a morning radio show host.";
     u "       - LANGUAGE: Simple, Easy English. No big words.";
     u "       - OPENING: Start INSTANTLY with a high-energy hook. NO " ++ [34%N] ++ u "Asterisk" ++ [34%N] ++ u ", " ++ [34%N] ++ u "Music" ++ [34%N] ++ u ", or " ++ [34%N] ++ u "Sound of..." ++ [34%N] ++ u ". Just your voice.";
     u "       - CONTENT: Explain the tech simply. Use a fun analogy.";
     u "       - TONE: Use words like " ++ [34%N] ++ u "Whoa" ++ [34%N] ++ u ", " ++ [34%N] ++ u "Imagine this" ++ [34%N] ++ u ", " ++ [34%N] ++ u "Super cool" ++ [34%N] ++ u ".";
     u "       - ENDING: " ++ [34%N] ++ u "Check the link, it's wild!" ++ [34%N];
     u "       - LENGTH: STRICTLY under 45 seconds spoken.";
     u "    ";
     u "    OUTPUT FORMAT:";
     u "    ---TELEGRAM---";
     u "    [Your short text]";
     u "    ---PODCAST---";
     u "    [Your script]";
     u "    " ].

(** [parts[i]] *)
Definition getitem (parts : list str) (i : nat) : outcome str :=
  match nth_error parts i with
  | Some x => Ret x
  | None => Raise (u "list index out of range")
  end.

(** "FINAL CLEANUP" of the script. *)
Definition final_cleanup (podcast_txt : str) : str :=
  sub_parens (sub_brackets (sub_stars podcast_txt)).

(** What [analyze_video] does with the backend's answer [text]: the code
    after the call of the fallback generator. *)
Definition parse_response (text : option str) (video_url : str) : M (option content) :=
  match text with
  | None => ret None
  | Some [] => ret None
  | Some text =>
      try_except
        (if negb (contains TELEGRAM_MARKER text) || negb (contains PODCAST_MARKER text)
         then
           log WARNING (warning_sign ++ u " AI response missing markers") ;;
           ret None
         else
           let parts := split PODCAST_MARKER text in
           part0 <- lift (getitem parts 0) ;;
           let telegram_txt := strip (replace TELEGRAM_MARKER [] part0) in
           part1 <- lift (getitem parts 1) ;;
           let podcast_txt := strip part1 in
           let podcast_txt := final_cleanup podcast_txt in
           ret (Some {| telegram := telegram_txt ++ [10; 10; 128279; 32]%N ++ video_url;
                        podcast := podcast_txt |}))
        (fun e => log ERROR (u "Parsing error: " ++ e) ;; ret None)
  end.

Definition analyze_video (env : Env)
  (transcript channel_name video_title video_url : str) : M (option content) :=
  text <- generate_with_fallback env
            (Prompt (prompt transcript channel_name video_title)) ;;
  parse_response text video_url.

(* ================================================================== *)
(** * Part VII. Audio rendering and delivery *)
(* ================================================================== *)

Definition STORY_MP3 : str := u "story.mp3".

Definition generate_audio (env : Env) (script : str) : M bool :=
  try_except
    (let voice := u "en-US-GuyNeural" in
     ext env (TtsSave script voice (u "+10%") (u "+0Hz") STORY_MP3) ;;
     ret true)
    (fun e => log ERROR (cross_mark ++ u " TTS failed: " ++ e) ;; ret false).

Definition opt_json (o : option str) : json :=
  match o with Some s => JStr s | None => JNull end.

Definition api_url (env : Env) (method : str) : str :=
  u "https://api.telegram.org/bot" ++ fmt_opt (TELEGRAM_TOKEN env) ++ u "/" ++ method.

(** The form fields of the text message. *)
Definition message_data (env : Env) (telegram_msg : str) (parse_mode : json)
  : list (str * json) :=
  [ (u "chat_id", opt_json (TELEGRAM_CHAT_ID env));
    (u "text", JStr telegram_msg);
    (u "parse_mode", parse_mode);
    (u "disable_web_page_preview", JBool false) ].

(** [response.raise_for_status()]: an [HTTPError] for the codes 400 to 599. *)
Definition raise_for_status (url : str) (r : response) : M unit :=
  if (400 <=? status_code r) && (status_code r <? 500) then
    raise (str_of_nat (status_code r) ++ u " Client Error: " ++ reason r
           ++ u " for url: " ++ url)
  else if (500 <=? status_code r) && (status_code r <? 600) then
    raise (str_of_nat (status_code r) ++ u " Server Error: " ++ reason r
           ++ u " for url: " ++ url)
  else ret tt.

Definition send_to_telegram (env : Env) (telegram_msg : str)
  (audio_file : option str) : M bool :=
  try_except
    (let url := api_url env (u "sendMessage") in
     response <- ext env (Post url (message_data env telegram_msg (JStr (u "Markdown"))) []) ;;
     response <-
       (if status_code response =? 400 then
          log WARNING (warning_sign ++ u " Markdown failed. Resending as plain text...") ;;
          ext env (Post url (message_data env telegram_msg JNull) [])
        else ret response) ;;
     raise_for_status url response ;;
     match audio_file with
     | Some path =>
         if str_truthy path then
           found <- exists_ env path ;;
           if found then
             ext env (OpenRb path) ;;
             ext env (Post (api_url env (u "sendVoice"))
                        [(u "chat_id", opt_json (TELEGRAM_CHAT_ID env))]
                        [(u "voice", path)]) ;;
             ext env (Unlink path) ;;
             ret tt
           else ret tt
         else ret tt
     | None => ret tt
     end ;;
     ret true)
    (fun e => log ERROR (cross_mark ++ u " Telegram error: " ++ e) ;; ret false).

(* ================================================================== *)
(** * Part VIII. The orchestrator *)
(* ================================================================== *)

(** An entry of [new_videos]. *)
Record video := { v_id : str; v_title : str; v_url : str; v_channel : str }.

(** Reading an attribute that may be absent: [AttributeError]. *)
Definition attr {A} (name : str) (o : option A) : M A :=
  match o with
  | Some a => ret a
  | None => raise (u "object has no attribute '" ++ name ++ u "'")
  end.

(** [[f.strip() for f in YOUTUBE_FEEDS if f.strip()]] *)
Fixpoint strip_all (items : list json) : outcome (list str) :=
  match items with
  | [] => Ret []
  | JStr f :: r =>
      match strip_all r with
      | Ret fs => Ret (if str_truthy (strip f) then strip f :: fs else fs)
      | Raise e => Raise e
      | Hang => Hang
      end
  | x :: _ => Raise (u "'" ++ type_name x ++ u "' object has no attribute 'strip'")
  end.

Definition feed_urls_of (YOUTUBE_FEEDS : json) : outcome (list str) :=
  match iterate YOUTUBE_FEEDS with
  | Ret items => strip_all items
  | Raise e => Raise e
  | Hang => Hang
  end.

(** One round of the polling loop: the body of its [try]. *)
Definition poll_feed (env : Env) (history : pyset) (feed_url : str)
  (new_videos : list video) : M (list video) :=
  feed <- ext env (FeedParse feed_url) ;;
  match entries feed with
  | [] => ret new_videos
  | entry :: _ =>
      vid_id <- attr (u "yt_videoid") (yt_videoid entry) ;;
      if negb (set_mem (JStr vid_id) history) then
        t <- attr (u "title") (title entry) ;;
        l <- attr (u "link") (link entry) ;;
        c <- attr (u "title") (feed_title feed) ;;
        ret (new_videos ++ [{| v_id := vid_id; v_title := t; v_url := l; v_channel := c |}])
      else ret new_videos
  end.

Fixpoint poll_feeds (env : Env) (history : pyset) (feed_urls : list str)
  (new_videos : list video) : M (list video) :=
  match feed_urls with
  | [] => ret new_videos
  | feed_url :: rest =>
      new_videos <-
        try_except
          (poll_feed env history feed_url new_videos)
          (fun e =>
             log ERROR (cross_mark ++ u " Feed error for " ++ feed_url ++ u ": " ++ e) ;;
             ret new_videos) ;;
      poll_feeds env history rest new_videos
  end.

(** One round of [for video in new_videos]; the ledger is handed on. *)
Definition process_video (env : Env) (fuel : nat) (history : pyset) (video : video)
  : M pyset :=
  log INFO ([10; 127916]%N ++ u " Processing: " ++ v_title video) ;;
  transcript <- get_transcript env fuel (v_id video) ;;
  match transcript with
  | None | Some [] => ret history
  | Some transcript =>
      content <- analyze_video env transcript (v_channel video) (v_title video)
                   (v_url video) ;;
      match content with
      | None => ret history
      | Some content =>
          audio_ok <- generate_audio env (podcast content) ;;
          success <- send_to_telegram env (telegram content)
                       (if audio_ok then Some STORY_MP3 else None) ;;
          if success then
            let history := set_add (JStr (v_id video)) history in
            save_history env history ;;
            log INFO ([9989]%N ++ u " Delivered: " ++ v_title video) ;;
            sleep (Seconds 2) ;;
            ret history
          else ret history
      end
  end.

Fixpoint process_videos (env : Env) (fuel : nat) (history : pyset)
  (new_videos : list video) : M pyset :=
  match new_videos with
  | [] => ret history
  | video :: rest =>
      history <- process_video env fuel history video ;;
      process_videos env fuel history rest
  end.

Definition main (env : Env) (fuel : nat) (YOUTUBE_FEEDS : json) : M pyset :=
  log INFO ([128640]%N ++ u " Starting AI News Anchor...") ;;
  history <- load_history ;;
  feed_urls <- lift (feed_urls_of YOUTUBE_FEEDS) ;;
  new_videos <- poll_feeds env history feed_urls [] ;;
  log INFO ([128250]%N ++ u " Found " ++ str_of_nat (length new_videos) ++ u " new videos") ;;
  history <- process_videos env fuel history new_videos ;;
  log INFO ([10; 10024]%N ++ u " Processing complete!") ;;
  ret history.

(** The script from import to exit: the module-level block, then [main]. *)
Definition run_script (env : Env) (fuel : nat) : M pyset :=
  YOUTUBE_FEEDS <- load_feeds ;;
  main env fuel YOUTUBE_FEEDS.

(** ** Reading the events *)

(** A request to the messaging endpoint. *)
Definition is_delivery (ev : event) : bool :=
  match ev with
  | Called (Post _ _ _) => true
  | _ => false
  end.

(** A request that carries a file: the voice attachment. *)
Definition is_voice_upload (ev : event) : bool :=
  match ev with
  | Called (Post _ _ (_ :: _)) => true
  | _ => false
  end.

(** A write of the ledger file. *)
Definition is_ledger_write (ev : event) : bool :=
  match ev with
  | Called (WriteText _ _) => true
  | _ => false
  end.

(** A call of the second or third transcript method. *)
Definition is_later_method (ev : event) : bool :=
  match ev with
  | Called ImportYtDlp | Called (YdlDownload _ _) | Called (ListDir _)
  | Called (ReadFile _) | Called (OsRemove _) | Called (UploadFile _)
  | Called (GetFile _) | Called (DeleteFile _) | Called (GenerateContent _ _) => true
  | _ => false
  end.

(* ================================================================== *)
(** * Part IX. Concrete worlds *)
(* ================================================================== *)

(** The state at process start when neither file is there. *)
Definition st0 : St :=
  {| clock := 0; trace := []; history_file := Missing; feeds_file := Missing |}.

(** A world built around the answers [r]: no file exists, no variable is
    set, and sets are iterated in the order of insertion. *)
Definition world (r : forall R : Type, nat -> call R -> outcome R) : Env :=
  {| respond := r;
     path_exists := fun _ _ => false;
     environ := fun _ => None;
     set_iter := fun l => l;
     after_failed_write := fun _ => Missing |}.

(** Every call raises a quota error. *)
Definition env_quota : Env :=
  world (fun R _ _ => Raise (u "429 Resource exhausted: quota")).

(** The first two models of a list are not found, the third answers. *)
Definition env_third : Env :=
  world (fun R t c =>
           match c in call R return outcome R with
           | GenerateContent m _ =>
               if str_eqb m (u "gemini-1.5-flash") then Ret (u "hello")
               else Raise (u "404 model not found")
           | _ => Raise (u "unavailable")
           end).

(** Adding ids to the ledger one at a time, each followed by a persist
    (what the orchestrator does after each delivery). *)
Fixpoint add_each (env : Env) (ids : list str) (history : pyset) : M pyset :=
  match ids with
  | [] => ret history
  | vid :: rest =>
      let history := set_add (JStr vid) history in
      save_history env history ;;
      add_each env rest history
  end.

(** The ids [vid0], [vid1], ..., [vid(n-1)], oldest first. *)
Definition vids (n : nat) : list str :=
  map (fun i => u "vid" ++ str_of_nat i) (seq 0 n).

(** Every write succeeds; the interpreter iterates a set newest first. *)
Definition env_newest_first : Env :=
  {| respond := fun R _ c =>
       match c in call R return outcome R with
       | WriteText _ _ => Ret tt
       | _ => Raise (u "unavailable")
       end;
     path_exists := fun _ _ => false;
     environ := fun _ => None;
     set_iter := fun l => rev l;
     after_failed_write := fun _ => Missing |}.

(** The ids a ledger file holds. *)
Definition persisted (f : file) : list json :=
  match f with
  | Holds (JObj [(_, JArr l)]) => l
  | _ => []
  end.

(** The caption API is blocked; the downloader runs but leaves no caption
    file and no audio file. *)
Definition env_no_captions : Env :=
  world (fun R t c =>
           match c in call R return outcome R with
           | GetTranscript _ _ => Raise (u "Subtitles are disabled for this video")
           | ImportYtDlp => Ret tt
           | YdlDownload _ _ => Ret tt
           | ListDir _ => Ret [u "action_main.py"; u "feeds.json"]
           | _ => Raise (u "unavailable")
           end).

(** The caption API answers with two caption entries. *)
Definition env_captions : Env :=
  world (fun R t c =>
           match c in call R return outcome R with
           | GetTranscript _ _ => Ret [u "hello"; u "world"]
           | _ => Raise (u "unavailable")
           end).

(** A method of the cascade gave no text: it raised, or it fell through. *)
Definition no_text (r : outcome (option str)) : Prop :=
  r = Ret None \/ exists e, r = Raise e.

(** The state after the [except] block of a method, which logs [msg e] at
    level [lvl] when the method raised. *)
Definition after_except (lvl : level) (msg : exn -> str)
  (r : outcome (option str)) (st : St) : St :=
  match r with
  | Raise e => snd (log lvl (msg e) st)
  | _ => st
  end.

(** Every write of the ledger file succeeds. *)
Definition writes_succeed (env : Env) : Prop :=
  forall t path content, respond env t (WriteText path content) = Ret tt.

(** What [save_history] writes: the set as the interpreter iterates it,
    cut to its last 500 elements. *)
Definition saved (env : Env) (history : pyset) : json :=
  JObj [(u "videos",
         JArr (if 500 <? length (set_iter env history)
               then last_n 500 (set_iter env history)
               else set_iter env history))].

(** A computation from which no exception escapes. *)
Definition no_raise {A} (m : M A) : Prop :=
  forall st e st', m st <> (Raise e, st').

(** Neither a request to the messaging endpoint nor a ledger write. *)
Definition quiet_event (ev : event) : bool :=
  negb (is_delivery ev) && negb (is_ledger_write ev).

Definition not_voice (ev : event) : bool := negb (is_voice_upload ev).
Definition not_write (ev : event) : bool := negb (is_ledger_write ev).

(** From [st] to [st'] the program only added events that satisfy [ok];
    and the ledger file is as it was unless one of them is a ledger write. *)
Definition extends (ok : event -> bool) (st st' : St) : Prop :=
  exists new,
    trace st' = trace st ++ new /\
    forallb ok new = true /\
    (existsb is_ledger_write new = false -> history_file st' = history_file st).

Definition adds_only (ok : event -> bool) {A} (m : M A) : Prop :=
  forall st r st', m st = (r, st') -> extends ok st st'.

(** From [st] to [st'] nothing reached the messaging endpoint and the
    ledger was not written. *)
Definition untouched (st st' : St) : Prop :=
  exists new,
    trace st' = trace st ++ new /\
    existsb is_delivery new = false /\
    existsb is_ledger_write new = false /\
    history_file st' = history_file st.

(** A backend answer with both markers in order. *)
Definition two_part_answer : str :=
  u "---TELEGRAM---" ++ [10%N] ++ u "Chips that think." ++ [10%N]
  ++ u "---PODCAST---" ++ [10%N] ++ u "Whoa! Imagine this. Check the link, it's wild!".

Definition demo_video : video :=
  {| v_id := u "dQw4w9WgXcQ"; v_title := u "Tiny chips";
     v_url := u "https://youtu.be/dQw4w9WgXcQ"; v_channel := u "Tech Daily" |}.

(** Captions, synthesis, the messaging endpoint and the ledger file all
    work; speech synthesis raises. *)
Definition env_tts_down : Env :=
  world (fun R t c =>
           match c in call R return outcome R with
           | GetTranscript _ _ => Ret [u "hello"; u "world"]
           | GenerateContent _ _ => Ret two_part_answer
           | Post _ _ _ => Ret {| status_code := 200; reason := u "OK" |}
           | WriteText _ _ => Ret tt
           | _ => Raise (u "No audio was received")
           end).

(** The first request to the messaging endpoint: the text message. *)
Definition text_post (env : Env) (telegram_msg : str) : event :=
  Called (Post (api_url env (u "sendMessage"))
            (message_data env telegram_msg (JStr (u "Markdown"))) []).

(** Neither a voice upload nor a ledger write. *)
Definition plain_event (ev : event) : bool := not_voice ev && not_write ev.

(** Captions and synthesis work; the messaging endpoint answers every
    request with a server error; speech synthesis and the rest raise. *)
Definition env_endpoint_down : Env :=
  world (fun R t c =>
           match c in call R return outcome R with
           | GetTranscript _ _ => Ret [u "hello"; u "world"]
           | GenerateContent _ _ => Ret two_part_answer
           | Post _ _ _ => Ret {| status_code := 502; reason := u "Bad Gateway" |}
           | _ => Raise (u "unavailable")
           end).

(** The state in which the stages of a round on [demo_video] start. *)
Definition demo_start : St :=
  snd (log INFO ([10; 127916]%N ++ u " Processing: " ++ v_title demo_video) st0).

(** [raise_for_status] lets the status pass. *)
Definition ok_status (r : response) : Prop :=
  status_code r < 400 \/ 600 <= status_code r.

(** The text message of a delivery that starts in [st] is accepted: the
    Markdown post is answered; if its status is 400 the plain-text post is
    made and answered; the last answer has a status that
    [raise_for_status] lets pass.  [after] is the number of calls made once
    the text is posted. *)
Definition text_accepted (env : Env) (telegram_msg : str) (st : St) (after : nat)
  : Prop :=
  exists first,
    respond env (clock st)
      (Post (api_url env (u "sendMessage"))
         (message_data env telegram_msg (JStr (u "Markdown"))) []) = Ret first /\
    if status_code first =? 400 then
      exists final,
        respond env (S (clock st))
          (Post (api_url env (u "sendMessage"))
             (message_data env telegram_msg JNull) []) = Ret final /\
        ok_status final /\ after = S (S (clock st))
    else ok_status first /\ after = S (clock st).

(** The request that uploads the voice attachment. *)
Definition voice_call (env : Env) (path : str) : call response :=
  Post (api_url env (u "sendVoice"))
    [(u "chat_id", opt_json (TELEGRAM_CHAT_ID env))] [(u "voice", path)].



(** The second element of [s.split(sep)] when [b] is what follows the
    first occurrence of [sep]: [b] up to the next occurrence, if any. *)
Definition first_piece (sep b : str) : str :=
  match split_at sep b with
  | Some (a, _) => a
  | None => b
  end.

(** The line [analyze_video] appends to the short post. *)
Definition link_line (video_url : str) : str := [10; 10; 128279; 32]%N ++ video_url.

(** A backend answer with the two markers in the wrong order. *)
Definition swapped_answer : str :=
  u "---PODCAST---" ++ [10%N] ++ u "Whoa!" ++ [10%N]
  ++ u "---TELEGRAM---" ++ [10%N] ++ u "Chips that think.".

(** A feed whose newest entry is [first], followed by [older] entries. *)
Definition feed_of (first : entry) (older : list entry) (channel : str) : feed :=
  {| entries := first :: older; feed_title := Some channel |}.

(** An entry with every attribute. *)
Definition full_entry (vid t l : str) : entry :=
  {| yt_videoid := Some vid; title := Some t; link := Some l |}.

(** Every feed has the same newest video. *)
Definition env_same_video : Env :=
  world (fun R t c =>
           match c in call R return outcome R with
           | FeedParse _ =>
               Ret (feed_of (full_entry (u "dQw4w9WgXcQ") (u "Tiny chips")
                               (u "https://youtu.be/dQw4w9WgXcQ")) [] (u "Tech Daily"))
           | _ => Raise (u "unavailable")
           end).

(** The codes for which [raise_for_status] raises. *)
Definition rejectedb (r : response) : bool :=
  (400 <=? status_code r) && (status_code r <? 600).

(** The message of the [HTTPError] that [raise_for_status] raises. *)
Definition http_error (url : str) (r : response) : exn :=
  str_of_nat (status_code r)
  ++ (if status_code r <? 500 then u " Client Error: " else u " Server Error: ")
  ++ reason r ++ u " for url: " ++ url.

(** The plain-text retry of the text message. *)
Definition plain_post (env : Env) (telegram_msg : str) : event :=
  Called (Post (api_url env (u "sendMessage"))
            (message_data env telegram_msg JNull) []).

(** The removal of the audio file after the upload. *)
Definition is_unlink (ev : event) : bool :=
  match ev with
  | Called (Unlink _) => true
  | _ => false
  end.

(** The endpoint answers every request with 403. *)
Definition env_forbidden : Env :=
  world (fun R t c =>
           match c in call R return outcome R with
           | Post _ _ _ => Ret {| status_code := 403; reason := u "Forbidden" |}
           | _ => Raise (u "unavailable")
           end).

(** The endpoint answers 400 to a Markdown message and 200 to a plain one. *)
Definition env_markdown_refused : Env :=
  world (fun R t c =>
           match c in call R return outcome R with
           | Post _ data _ =>
               match lookup (u "parse_mode") data with
               | Some (JStr _) => Ret {| status_code := 400; reason := u "Bad Request" |}
               | _ => Ret {| status_code := 200; reason := u "OK" |}
               end
           | _ => Raise (u "unavailable")
           end).

(** The text message is accepted; the audio file is there and opens; the
    connection breaks during the upload. *)
Definition env_upload_breaks : Env :=
  {| respond := fun R t c =>
       match c in call R return outcome R with
       | Post _ _ [] => Ret {| status_code := 200; reason := u "OK" |}
       | Post _ _ (_ :: _) => Raise (u "Connection aborted.")
       | OpenRb _ => Ret tt
       | Unlink _ => Ret tt
       | _ => Raise (u "unavailable")
       end;
     path_exists := fun _ _ => true;
     environ := fun _ => None;
     set_iter := fun l => l;
     after_failed_write := fun _ => Missing |}.

(** What Python can hash: every JSON value but lists and dicts. *)
Definition hashable (j : json) : bool :=
  match j with
  | JArr _ | JObj _ => false
  | _ => true
  end.

(** A ledger file as [save_history] writes it. *)
Definition ledger_json (ids : list json) : json := JObj [(u "videos", JArr ids)].

(** Every write succeeds; sets are iterated in the order of insertion. *)
Definition env_disk : Env :=
  world (fun R t c =>
           match c in call R return outcome R with
           | WriteText _ _ => Ret tt
           | _ => Raise (u "unavailable")
           end).

(** A ledger of three ids. *)
Definition three_ids : pyset := [JStr (u "a1"); JStr (u "b2"); JStr (u "c3")].

(** The state at process start when the ledger file holds [j]. *)
Definition st_ledger (j : json) : St :=
  {| clock := 0; trace := []; history_file := Holds j; feeds_file := Missing |}.

(** The values under the key [url] of the objects of a list, in order;
    objects without the key give nothing. *)
Definition url_values (items : list json) : list json :=
  flat_map (fun item =>
              match item with
              | JObj kv => match lookup (u "url") kv with Some v => [v] | None => [] end
              | _ => []
              end) items.

(** The state at process start when the feed configuration holds [j]. *)
Definition st_feeds (j : json) : St :=
  {| clock := 0; trace := []; history_file := Missing; feeds_file := Holds j |}.

(** A feed configuration of three objects, the second without a URL. *)
Definition feeds_objects : list json :=
  [ JObj [(u "name", JStr (u "A")); (u "url", JStr (u "https://a.example/feed"))];
    JObj [(u "name", JStr (u "B"))];
    JObj [(u "url", JStr (u " https://c.example/feed "))] ].

(** In a sequence of events, every ledger write comes after a request to
    the messaging endpoint; [seen] tells whether one was made before. *)
Fixpoint writes_follow_delivery (seen : bool) (l : list event) : bool :=
  match l with
  | [] => true
  | ev :: r =>
      if is_ledger_write ev then seen && writes_follow_delivery seen r
      else writes_follow_delivery (seen || is_delivery ev) r
  end.

(** Everything works, the voice upload included. *)
Definition env_all_well : Env :=
  {| respond := fun R t c =>
       match c in call R return outcome R with
       | GetTranscript _ _ => Ret [u "hello"; u "world"]
       | GenerateContent _ _ => Ret two_part_answer
       | TtsSave _ _ _ _ _ => Ret tt
       | Post _ _ _ => Ret {| status_code := 200; reason := u "OK" |}
       | OpenRb _ => Ret tt
       | Unlink _ => Ret tt
       | WriteText _ _ => Ret tt
       | FeedParse _ =>
           Ret (feed_of (full_entry (u "dQw4w9WgXcQ") (u "Tiny chips")
                           (u "https://youtu.be/dQw4w9WgXcQ")) [] (u "Tech Daily"))
       | _ => Raise (u "unavailable")
       end;
     path_exists := fun _ path => str_eqb path STORY_MP3;
     environ := fun _ => None;
     set_iter := fun l => l;
     after_failed_write := fun _ => Missing |}.

(** The backend still reports the file as being processed. *)
Definition is_processing (f : remote_file) : bool :=
  str_eqb (rf_state f) (u "PROCESSING").

(** From call number [c] on, the status polls of the file [f] are answered
    by the files of [polls], one after the other. *)
Fixpoint answers (env : Env) (c : nat) (f : remote_file) (polls : list remote_file)
  : Prop :=
  match polls with
  | [] => True
  | g :: r => respond env c (GetFile (rf_name f)) = Ret g /\ answers env (S c) g r
  end.

(** The seconds of the fixed pauses among some events. *)
Fixpoint slept (l : list event) : nat :=
  match l with
  | [] => 0
  | Sleep (Seconds n) :: r => n + slept r
  | _ :: r => slept r
  end.

(** The test of the second method on a name of the directory listing. *)
Definition is_caption_file (video_id file : str) : bool :=
  startswith (u "transcript_" ++ video_id) file && endswith (u ".vtt") file.

(** A call that only the third method makes. *)
Definition is_method3_call (ev : event) : bool :=
  match ev with
  | Called (YdlDownload (AudioOpts _) _) | Called (UploadFile _)
  | Called (GetFile _) | Called (DeleteFile _) | Called (GenerateContent _ _) => true
  | _ => false
  end.

Definition not_method3 (ev : event) : bool := negb (is_method3_call ev).

Definition file_in (state : str) : remote_file :=
  {| rf_name := u "files/abc123"; rf_state := state |}.

(** The backend reports the file as processing for the polls made before
    call number 3, and as active from then on. *)
Definition env_slow_backend : Env :=
  world (fun R t c =>
           match c in call R return outcome R with
           | GetFile _ =>
               Ret (file_in (if t <? 2 then u "PROCESSING" else u "ACTIVE"))
           | _ => Raise (u "unavailable")
           end).

(** The audio is downloaded and uploaded; the backend is still processing
    the file when the upload returns and has it ready at the first poll;
    the first candidate model is not found and the second transcribes;
    removing the local file then raises. *)
Definition env_sticky_file : Env :=
  {| respond := fun R t c =>
       match c in call R return outcome R with
       | ImportYtDlp => Ret tt
       | YdlDownload _ _ => Ret tt
       | UploadFile _ => Ret (file_in (u "PROCESSING"))
       | GetFile _ => Ret (file_in (u "ACTIVE"))
       | GenerateContent m _ =>
           if str_eqb m (u "gemini-1.5-pro") then Ret (u "hello world")
           else Raise (u "404 models/" ++ m ++ u " is not found")
       | OsRemove _ => Raise (u "[Errno 13] Permission denied")
       | DeleteFile _ => Ret tt
       | _ => Raise (u "unavailable")
       end;
     path_exists := fun _ _ => true;
     environ := fun _ => None;
     set_iter := fun l => l;
     after_failed_write := fun _ => Missing |}.

(** The audio is downloaded; the upload raises. *)
Definition env_upload_refused : Env :=
  {| respond := fun R t c =>
       match c in call R return outcome R with
       | ImportYtDlp => Ret tt
       | YdlDownload _ _ => Ret tt
       | _ => Raise (u "503 Service Unavailable")
       end;
     path_exists := fun _ _ => true;
     environ := fun _ => None;
     set_iter := fun l => l;
     after_failed_write := fun _ => Missing |}.

(** The caption API is blocked; the downloader leaves a caption file. *)
Definition env_caption_file : Env :=
  world (fun R t c =>
           match c in call R return outcome R with
           | GetTranscript _ _ => Raise (u "Subtitles are disabled for this video")
           | ImportYtDlp => Ret tt
           | YdlDownload _ _ => Ret tt
           | ListDir _ =>
               Ret [u "action_main.py"; u "transcript_dQw4w9WgXcQ.en.vtt";
                    u "transcript_dQw4w9WgXcQ.de.vtt"]
           | ReadFile _ =>
               Ret (u "WEBVTT" ++ [10%N] ++ u "00:00:01.000 --> 00:00:02.000" ++ [10%N]
                    ++ u "<c>hello</c> [Music] world")
           | OsRemove _ => Ret tt
           | _ => Raise (u "unavailable")
           end).

(** The removal of the remote file. *)
Definition is_remote_delete (ev : event) : bool :=
  match ev with
  | Called (DeleteFile _) => true
  | _ => false
  end.

(** The removal of a local file. *)
Definition is_os_remove (ev : event) : bool :=
  match ev with
  | Called (OsRemove _) => true
  | _ => false
  end.

(** The payload of the transcription request. *)
Definition transcribe_payload (f : remote_file) : payload :=
  Parts [PText transcribe_instruction; PFile f].

(** The audio file the third method downloads for a video. *)
Definition audio_file_of (video_id : str) : str := (u "audio_" ++ video_id) ++ u ".mp3".

(** [re.search(pattern, s) is not None] for the pattern "open, lazily
    anything, close": somewhere in [s] an opening character is followed by
    a closing one, with no line feed in between. *)
Fixpoint has_span (op cl : N) (s : str) : bool :=
  match s with
  | [] => false
  | c :: r =>
      (N.eqb c op && match find_close cl r with Some _ => true | None => false end)
      || has_span op cl r
  end.

(** [t] is [s] with some characters other than line feeds taken out. *)
Inductive thins : str -> str -> Prop :=
| thins_nil : thins [] []
| thins_keep (c : N) (s t : str) : thins s t -> thins (c :: s) (c :: t)
| thins_drop (c : N) (s t : str) : c <> 10%N -> thins s t -> thins (c :: s) t.

(** A text of the model has none of the three kinds of span. *)
Definition speakable (s : str) : Prop :=
  has_span 42 42 s = false /\ has_span 91 93 s = false /\ has_span 40 41 s = false.

(** A JSON value that is neither a string nor a container. *)
Definition is_plain_scalar (j : json) : bool :=
  match j with
  | JNull | JBool _ | JNum _ => true
  | _ => false
  end.



(** The caption API answers, with no caption entry. *)
Definition env_empty_captions : Env :=
  world (fun R t c =>
           match c in call R return outcome R with
           | GetTranscript _ _ => Ret []
           | _ => Raise (u "unavailable")
           end).

(** The caption API is blocked and the downloader leaves no caption file;
    the audio is downloaded and uploaded; the first candidate model is not
    found and the second answers the request for a transcript with the
    empty text. *)
Definition env_silent_audio : Env :=
  {| respond := fun R t c =>
       match c in call R return outcome R with
       | GetTranscript _ _ => Raise (u "Subtitles are disabled for this video")
       | ImportYtDlp => Ret tt
       | YdlDownload _ _ => Ret tt
       | ListDir _ => Ret [u "action_main.py"; u "feeds.json"]
       | UploadFile _ => Ret (file_in (u "ACTIVE"))
       | GenerateContent m _ =>
           if str_eqb m (u "gemini-1.5-pro") then Ret []
           else Raise (u "404 models/" ++ m ++ u " is not found")
       | OsRemove _ => Ret tt
       | DeleteFile _ => Ret tt
       | _ => Raise (u "unavailable")
       end;
     path_exists := fun _ _ => true;
     environ := fun _ => None;
     set_iter := fun l => l;
     after_failed_write := fun _ => Missing |}.






(** [sep] occurs in [s] at position [i]. *)
Definition occurs_at (sep s : str) (i : nat) : bool := startswith sep (skipn i s).

(** The positions at which [sep] occurs in [s]. *)
Definition occurrences (sep s : str) : list nat :=
  filter (occurs_at sep s) (seq 0 (length s)).

(** [s] is [a], then the first occurrence of [sep], then [b]. *)
Definition first_at (sep s a b : str) : Prop :=
  s = a ++ sep ++ b /\ forall i, i < length a -> occurs_at sep s i = false.

(** [piece] is [b] up to its first occurrence of [sep], or all of [b] when
    [sep] does not occur in it. *)
Definition up_to (sep b piece : str) : Prop :=
  (contains sep b = false /\ piece = b) \/ exists rest, first_at sep b piece rest.

(** A backend answer with one TELEGRAM marker followed by one PODCAST
    marker, in which the text around the TELEGRAM marker and the text
    around a parenthesis spell the markers again. *)
Definition rejoined_answer : str :=
  u "---TELE---TELEGRAM---GRAM---" ++ [10%N] ++ u "Chips that think." ++ [10%N]
  ++ u "---PODCAST---" ++ [10%N] ++ u "---PODC(beat)AST--- Whoa!".

(** Not a removal of the remote file. *)
Definition not_delete (ev : event) : bool := negb (is_remote_delete ev).

(** The state in which the third method starts to wait for the uploaded
    file: the import, the log line, the download, the look for the audio
    file, the configuration and the upload are behind it. *)
Definition after_upload (env : Env) (video_id : str) (st : St) : St :=
  tick (Called (UploadFile (audio_file_of video_id)))
    (snd (emit (Configure (GEMINI_API_KEY env))
       (tick (Stat (audio_file_of video_id))
          (tick (Called (YdlDownload (AudioOpts (u "audio_" ++ video_id))
                           (u "https://youtu.be/" ++ video_id)))
             (snd (log INFO ([9762; 65039]%N ++ u " Nuclear Option: Listening to audio...")
                     (tick (Called ImportYtDlp) st))))))).

Unset Implicit Arguments.

(* ================================================================== *)
(** * Part X. Properties *)
(* ================================================================== *)

(** ** The master list *)

(** C6. The master priority list is built from thirteen string literals,
    but the first two stand next to each other without a comma: the list
    has twelve elements, one fewer than written, its first element is the
    two names run together, and neither intended name is an element. *)
Theorem models_to_try_joins_first_two :
  length models_authored = 13 /\
  length models_to_try = 12 /\
  S (length models_to_try) = length models_authored /\
  firstn 2 models_authored = [u "gemini-2.5-flash"; u "gemini-2.0-flash-exp"] /\
  hd_error models_to_try = Some (u "gemini-2.5-flashgemini-2.0-flash-exp") /\
  hd_error models_to_try = Some (u "gemini-2.5-flash" ++ u "gemini-2.0-flash-exp") /\
  existsb (str_eqb (u "gemini-2.5-flash")) models_to_try = false /\
  existsb (str_eqb (u "gemini-2.0-flash-exp")) models_to_try = false /\
  tl models_to_try = skipn 2 models_authored.
Proof.
  repeat split; vm_compute; reflexivity.
Qed.

(** ** The fallback generator *)

Lemma attempted_app (a b : list event) :
  attempted (a ++ b) = attempted a ++ attempted b.
Proof.
  induction a as [|ev a IH]; simpl; [reflexivity|].
  destruct ev as [R c| | | |]; try exact IH.
  destruct c; try exact IH.
  simpl. now rewrite IH.
Qed.

(** The handler of a failed attempt only logs and pauses: it returns, and
    leaves the clock and the attempts as they were. *)
Lemma on_model_error_returns (m : str) (e : exn) (st : St) :
  exists st',
    on_model_error m e st = (Ret tt, st') /\
    clock st' = clock st /\
    attempted (trace st') = attempted (trace st) /\
    history_file st' = history_file st.
Proof.
  unfold on_model_error.
  repeat match goal with
         | |- context [if ?b then _ else _] => destruct b
         end;
    cbv [bind log sleep emit ret]; simpl;
    eexists; (split; [reflexivity|]); simpl;
    rewrite ?attempted_app; simpl; rewrite ?app_nil_r; auto.
Qed.

(** One failed attempt: the loop goes on with the rest of the list. *)
Lemma try_models_raise (env : Env) (m : str) (rest : list str) (p : payload)
  (st : St) (e : exn) :
  respond env (clock st) (GenerateContent m p) = Raise e ->
  exists st1,
    try_models env (m :: rest) p st = try_models env rest p st1 /\
    clock st1 = S (clock st) /\
    attempted (trace st1) = attempted (trace st) ++ [m] /\
    history_file st1 = history_file st.
Proof.
  intros H.
  destruct (on_model_error_returns m e (tick (Called (GenerateContent m p)) st))
    as (st1 & H1 & Hc & Ha & Hh).
  exists st1. split.
  - simpl. unfold bind at 1. unfold try_except, bind at 1, ext. rewrite H.
    unfold bind at 1. rewrite H1. reflexivity.
  - rewrite Hc, Ha, Hh. simpl. rewrite attempted_app. auto.
Qed.

(** One successful attempt: the loop returns its text at once. *)
Lemma try_models_ret (env : Env) (m : str) (rest : list str) (p : payload)
  (st : St) (text : str) :
  respond env (clock st) (GenerateContent m p) = Ret text ->
  try_models env (m :: rest) p st
  = (Ret (Some text), tick (Called (GenerateContent m p)) st).
Proof.
  intros H. simpl. unfold bind at 1. unfold try_except, bind at 1, ext.
  rewrite H. reflexivity.
Qed.

Lemma no_raise_ret {A} (a : A) : no_raise (ret a).
Proof. intros st e st'. discriminate. Qed.

Lemma no_raise_emit (ev : event) : no_raise (emit ev).
Proof. intros st e st'. discriminate. Qed.

Lemma no_raise_bind {A B} (m : M A) (k : A -> M B) :
  no_raise m -> (forall a, no_raise (k a)) -> no_raise (bind m k).
Proof.
  intros Hm Hk st e st'. unfold bind.
  destruct (m st) as [[a|e1|] s1] eqn:E.
  - apply Hk.
  - exfalso. exact (Hm _ _ _ E).
  - discriminate.
Qed.

Lemma no_raise_try {A} (m : M A) (h : exn -> M A) :
  (forall e, no_raise (h e)) -> no_raise (try_except m h).
Proof.
  intros Hh st e st'. unfold try_except.
  destruct (m st) as [[a|e1|] s1] eqn:E; try discriminate.
  apply Hh.
Qed.

Lemma no_raise_handler {A} (lvl : level) (msg : str) (a : A) :
  no_raise (log lvl msg ;; ret a).
Proof. intros st e st'. discriminate. Qed.

Lemma try_models_no_raise (env : Env) (p : payload) (models : list str) :
  no_raise (try_models env models p).
Proof.
  induction models as [|m rest IH]; simpl; [apply no_raise_ret|].
  apply no_raise_bind.
  - apply no_raise_try. intros e. apply no_raise_bind; [|intros _; apply no_raise_ret].
    unfold on_model_error.
    repeat match goal with
           | |- context [if ?b then _ else _] => destruct b
           end;
      intros st e' st'; discriminate.
  - intros [text|]; [apply no_raise_ret | exact IH].
Qed.

Lemma generate_with_fallback_no_raise (env : Env) (p : payload) :
  no_raise (generate_with_fallback env p).
Proof.
  unfold generate_with_fallback.
  apply no_raise_bind; [apply no_raise_emit|]. intros _.
  apply no_raise_bind; [apply try_models_no_raise|].
  intros [text|]; [apply no_raise_ret | apply no_raise_handler].
Qed.

(** When every candidate raises, the loop uses up the list and ends
    without a text, having asked every candidate in order. *)
Lemma try_models_all_raise (env : Env) (p : payload) (models : list str) :
  forall st,
    (forall i, i < length models ->
       exists e, respond env (clock st + i) (GenerateContent (nth i models []) p) = Raise e) ->
    exists st',
      try_models env models p st = (Ret None, st') /\
      clock st' = clock st + length models /\
      attempted (trace st') = attempted (trace st) ++ models /\
      history_file st' = history_file st.
Proof.
  induction models as [|m rest IH]; intros st H.
  - exists st. simpl. rewrite Nat.add_0_r, app_nil_r. auto.
  - destruct (H 0) as (e & He); [simpl; lia|].
    rewrite Nat.add_0_r in He. simpl in He.
    destruct (try_models_raise env m rest p st e He) as (st1 & Hs & Hc & Ha & Hh).
    destruct (IH st1) as (st' & Hr & Hc' & Ha' & Hh').
    + intros i Hi. destruct (H (S i)) as (e' & He'); [simpl; lia|].
      exists e'. rewrite Hc. simpl in He'.
      replace (S (clock st) + i) with (clock st + S i) by lia. exact He'.
    + exists st'. rewrite Hs, Hr. repeat split.
      * rewrite Hc', Hc. simpl. lia.
      * rewrite Ha', Ha, <- app_assoc. reflexivity.
      * congruence.
Qed.

(** C4. Whatever the prompt payload, when every attempt on a candidate of
    the master list raises, the fallback generator returns [None]: the
    outcome is a return, not an exception, and every candidate was asked.
    Nor does an exception escape the fallback generator in any other
    world. *)
Theorem generate_with_fallback_all_fail (env : Env) (prompt_parts : payload) (st : St) :
  (forall i, i < length models_to_try ->
     exists e, respond env (clock st + i)
                 (GenerateContent (nth i models_to_try []) prompt_parts) = Raise e) ->
  (exists st',
     generate_with_fallback env prompt_parts st = (Ret None, st') /\
     attempted (trace st') = attempted (trace st) ++ models_to_try) /\
  no_raise (generate_with_fallback env prompt_parts).
Proof.
  intros H. split; [|apply generate_with_fallback_no_raise].
  set (st1 := {| clock := clock st;
                 trace := trace st ++ [Configure (GEMINI_API_KEY env)];
                 history_file := history_file st; feeds_file := feeds_file st |}).
  destruct (try_models_all_raise env prompt_parts models_to_try st1 H)
    as (st2 & Hr & _ & Ha & _).
  eexists. split.
  - unfold generate_with_fallback. unfold bind at 1. unfold emit. fold st1.
    unfold bind at 1. rewrite Hr. unfold bind, log, emit, ret. reflexivity.
  - simpl. rewrite attempted_app, Ha. subst st1. simpl.
    rewrite attempted_app. simpl. now rewrite !app_nil_r.
Qed.

Lemma generate_with_fallback_all_fail_witness :
  (exists st',
     generate_with_fallback env_quota (Prompt (u "Hi")) st0 = (Ret None, st') /\
     attempted (trace st') = attempted (trace st0) ++ models_to_try) /\
  no_raise (generate_with_fallback env_quota (Prompt (u "Hi"))).
Proof.
  apply (generate_with_fallback_all_fail env_quota (Prompt (u "Hi")) st0).
  intros i _. eexists. reflexivity.
Defined.

(** The loop on a list whose first [n] candidates raise and whose next one
    answers. *)
Lemma try_models_first_success (env : Env) (p : payload) (text : str) :
  forall (n : nat) (models : list str) (st : St),
    n < length models ->
    (forall i, i < n ->
       exists e, respond env (clock st + i) (GenerateContent (nth i models []) p) = Raise e) ->
    respond env (clock st + n) (GenerateContent (nth n models []) p) = Ret text ->
    exists st',
      try_models env models p st = (Ret (Some text), st') /\
      clock st' = clock st + S n /\
      attempted (trace st') = attempted (trace st) ++ firstn (S n) models.
Proof.
  induction n as [|n IH]; intros models st Hn Hfail Hok;
    destruct models as [|m rest]; simpl in Hn; try lia.
  - rewrite Nat.add_0_r in Hok. simpl in Hok.
    rewrite (try_models_ret env m rest p st text Hok).
    eexists. split; [reflexivity|]. simpl. rewrite attempted_app. simpl.
    split; [lia|reflexivity].
  - destruct (Hfail 0) as (e & He); [lia|].
    rewrite Nat.add_0_r in He. simpl in He.
    destruct (try_models_raise env m rest p st e He) as (st1 & Hs & Hc & Ha & _).
    destruct (IH rest st1) as (st' & Hr & Hc' & Ha').
    + lia.
    + intros i Hi. destruct (Hfail (S i)) as (e' & He'); [lia|].
      exists e'. rewrite Hc. simpl in He'.
      replace (S (clock st) + i) with (clock st + S i) by lia. exact He'.
    + rewrite Hc. replace (S (clock st) + n) with (clock st + S n) by lia. exact Hok.
    + exists st'. rewrite Hs, Hr. repeat split.
      * rewrite Hc', Hc. lia.
      * rewrite Ha', Ha, <- app_assoc. reflexivity.
Qed.

(** C5. For every candidate list and every prompt payload: when the
    candidates before position [n] each raise and the candidate at
    position [n] answers [text], the loop of the fallback generator
    returns [text]; the candidates asked are exactly the first [n + 1] of
    the list, in list order, so every failure led on to the next candidate
    and no candidate after the successful one was asked. *)
Theorem first_success_wins (env : Env) (models : list str) (prompt_parts : payload)
  (n : nat) (text : str) (st : St) :
  n < length models ->
  (forall i, i < n ->
     exists e, respond env (clock st + i)
                 (GenerateContent (nth i models []) prompt_parts) = Raise e) ->
  respond env (clock st + n) (GenerateContent (nth n models []) prompt_parts) = Ret text ->
  exists st',
    try_models env models prompt_parts st = (Ret (Some text), st') /\
    attempted (trace st') = attempted (trace st) ++ firstn (S n) models /\
    clock st' = clock st + S n.
Proof.
  intros Hn Hfail Hok.
  destruct (try_models_first_success env prompt_parts text n models st Hn Hfail Hok)
    as (st' & H1 & H2 & H3).
  exists st'. auto.
Qed.

Lemma first_success_wins_witness :
  exists st',
    try_models env_third
      [u "gemma-3-27b-it"; u "gemma-3-9b-it"; u "gemini-1.5-flash"; u "gemma-3-1b-it"]
      (Prompt (u "Hi")) st0
    = (Ret (Some (u "hello")), st') /\
    attempted (trace st') =
      attempted (trace st0)
      ++ firstn 3 [u "gemma-3-27b-it"; u "gemma-3-9b-it"; u "gemini-1.5-flash"; u "gemma-3-1b-it"] /\
    clock st' = clock st0 + 3.
Proof.
  apply (first_success_wins env_third
           [u "gemma-3-27b-it"; u "gemma-3-9b-it"; u "gemini-1.5-flash"; u "gemma-3-1b-it"]
           (Prompt (u "Hi")) 2 (u "hello") st0).
  - simpl. lia.
  - intros i Hi. exists (u "404 model not found").
    destruct i as [|[|i]]; [reflexivity | reflexivity | lia].
  - reflexivity.
Defined.

(** The same holds of [generate_with_fallback] on its own list: the text of
    the first candidate that answers is what it returns. *)
Lemma generate_with_fallback_first_success (env : Env) (prompt_parts : payload)
  (n : nat) (text : str) (st : St) :
  n < length models_to_try ->
  (forall i, i < n ->
     exists e, respond env (clock st + i)
                 (GenerateContent (nth i models_to_try []) prompt_parts) = Raise e) ->
  respond env (clock st + n) (GenerateContent (nth n models_to_try []) prompt_parts)
  = Ret text ->
  exists st',
    generate_with_fallback env prompt_parts st = (Ret (Some text), st') /\
    attempted (trace st') = attempted (trace st) ++ firstn (S n) models_to_try.
Proof.
  intros Hn Hfail Hok.
  set (st1 := {| clock := clock st;
                 trace := trace st ++ [Configure (GEMINI_API_KEY env)];
                 history_file := history_file st; feeds_file := feeds_file st |}).
  destruct (try_models_first_success env prompt_parts text n models_to_try st1 Hn Hfail Hok)
    as (st2 & Hr & _ & Ha).
  exists st2. split.
  - unfold generate_with_fallback. unfold bind at 1. unfold emit. fold st1.
    unfold bind at 1. rewrite Hr. reflexivity.
  - rewrite Ha. subst st1. simpl. rewrite attempted_app. simpl.
    now rewrite app_nil_r.
Qed.

(** ** The ledger and the configuration *)

Lemma set_from_not_hang (l : list json) :
  forall acc, set_from acc l <> Hang.
Proof.
  induction l as [|x r IH]; intros acc; simpl; [discriminate|].
  destruct x; try apply IH; discriminate.
Qed.

(** Loading the ledger never raises, whatever the file holds. *)
Lemma load_history_returns (st : St) :
  exists s st', load_history st = (Ret s, st').
Proof.
  unfold load_history. destruct (history_file st) as [|e|j].
  - eauto.
  - cbv [try_except bind read_json raise log emit ret]. eauto.
  - unfold try_except.
    destruct (bind (read_json HISTORY_FILE (Holds j)) _ st) as [[s|e|] st'] eqn:E.
    + eauto.
    + cbv [bind log emit ret]. eauto.
    + exfalso. revert E. cbv [bind read_json ret lift].
      destruct (get_videos j) eqn:G; try discriminate;
        [|destruct j; discriminate G].
      destruct (iterate a) eqn:I; try discriminate;
        [|destruct a; discriminate I].
      intros H. apply (set_from_not_hang a0 []). now inversion H.
Qed.



(** ** The cap of the persisted ledger *)

Lemma str_eqb_eq (a b : str) : str_eqb a b = true <-> a = b.
Proof.
  revert b. induction a as [|x a IH]; intros [|y b]; simpl; split;
    try congruence; intros H.
  - apply andb_true_iff in H. destruct H as [H1 H2].
    apply N.eqb_eq in H1. apply IH in H2. congruence.
  - injection H as -> ->. rewrite N.eqb_refl. simpl. now apply IH.
Qed.

Lemma str_eqb_refl (a : str) : str_eqb a a = true.
Proof. now apply str_eqb_eq. Qed.

Lemma set_mem_fresh (x : str) (l : list str) :
  ~ In x l -> set_mem (JStr x) (map JStr l) = false.
Proof.
  induction l as [|y l IH]; intros H; simpl; [reflexivity|].
  rewrite IH by (intros H'; apply H; now right).
  destruct (str_eqb x y) eqn:E; [|reflexivity].
  apply str_eqb_eq in E. exfalso. apply H. now left.
Qed.

Lemma distinct_NoDup (l : list str) : distinct l = true -> NoDup l.
Proof.
  induction l as [|x r IH]; simpl; intros H; constructor;
    apply andb_true_iff in H; destruct H as [H1 H2].
  - intros Hin. apply negb_true_iff in H1.
    assert (E : existsb (str_eqb x) r = true).
    { apply existsb_exists. exists x. split; [exact Hin | apply str_eqb_refl]. }
    congruence.
  - now apply IH.
Qed.

Lemma save_history_writes (env : Env) (history : pyset) (st : St) :
  writes_succeed env ->
  exists st',
    save_history env history st = (Ret tt, st') /\
    history_file st' = Holds (saved env history).
Proof.
  intros W. unfold save_history, try_except, write_history.
  rewrite W. eexists. split; reflexivity.
Qed.

Lemma add_each_persists (env : Env) :
  writes_succeed env ->
  forall (ids : list str) (old : list str) (st : St),
    ids <> [] ->
    NoDup (old ++ ids) ->
    exists st',
      add_each env ids (map JStr old) st = (Ret (map JStr (old ++ ids)), st') /\
      history_file st' = Holds (saved env (map JStr (old ++ ids))).
Proof.
  intros W. induction ids as [|vid rest IH]; intros old st Hne Hnd; [congruence|].
  assert (Hfresh : ~ In vid old).
  { apply NoDup_remove_2 in Hnd. intros H. apply Hnd. apply in_or_app. now left. }
  assert (Hadd : set_add (JStr vid) (map JStr old) = map JStr (old ++ [vid])).
  { unfold set_add. rewrite set_mem_fresh by assumption. now rewrite map_app. }
  simpl. rewrite Hadd.
  destruct (save_history_writes env (map JStr (old ++ [vid])) st W) as (st1 & Hs & Hf).
  unfold bind at 1. rewrite Hs.
  destruct rest as [|vid2 rest].
  - simpl. exists st1. split; [reflexivity | exact Hf].
  - destruct (IH (old ++ [vid]) st1) as (st' & Hr & Hf').
    + discriminate.
    + now rewrite <- app_assoc.
    + exists st'. rewrite <- app_assoc in Hr, Hf'. auto.
Qed.

(** Whatever the order in which the interpreter iterates a set, after 501
    distinct ids the file holds 500 of them: all but the one the
    interpreter iterates first. *)
Lemma ledger_drops_first_iterated (env : Env) (ids : list str) (st : St) :
  writes_succeed env ->
  (forall l, Permutation (set_iter env l) l) ->
  NoDup ids ->
  length ids = 501 ->
  exists st',
    add_each env ids [] st = (Ret (map JStr ids), st') /\
    persisted (history_file st') = tl (set_iter env (map JStr ids)) /\
    length (persisted (history_file st')) = 500 /\
    (forall x, In x (persisted (history_file st')) -> In x (map JStr ids)).
Proof.
  intros W P Hnd Hlen.
  destruct (add_each_persists env W ids [] st) as (st' & Hr & Hf).
  { intros ->. discriminate. }
  { exact Hnd. }
  simpl in Hr, Hf. exists st'. split; [exact Hr|].
  assert (L : length (set_iter env (map JStr ids)) = 501).
  { rewrite (Permutation_length (P _)), length_map. exact Hlen. }
  assert (E : persisted (history_file st') = tl (set_iter env (map JStr ids))).
  { rewrite Hf. unfold saved, persisted, last_n. rewrite L. simpl.
    destruct (set_iter env (map JStr ids)); reflexivity. }
  rewrite E. repeat split.
  - destruct (set_iter env (map JStr ids)); simpl in *; lia.
  - intros x Hx. apply (Permutation_in x (P (map JStr ids))).
    destruct (set_iter env (map JStr ids)); simpl in *; [contradiction|now right].
Qed.

Lemma NoDup_map_JStr (l : list str) : NoDup l -> NoDup (map JStr l).
Proof.
  induction 1 as [|x l Hx Hl IH]; simpl; constructor; [|exact IH].
  intros H. apply in_map_iff in H. destruct H as (y & E & Hy).
  injection E as ->. contradiction.
Qed.

(** So the oldest id is the one evicted exactly when the interpreter
    happens to iterate it first. *)
Lemma oldest_evicted_iff_iterated_first (env : Env) (oldest : str) (ids : list str)
  (st : St) :
  writes_succeed env ->
  (forall l, Permutation (set_iter env l) l) ->
  NoDup (oldest :: ids) ->
  length (oldest :: ids) = 501 ->
  let kept := persisted (history_file (snd (add_each env (oldest :: ids) [] st))) in
  ~ In (JStr oldest) kept <->
  hd_error (set_iter env (map JStr (oldest :: ids))) = Some (JStr oldest).
Proof.
  intros W P Hnd Hlen.
  destruct (ledger_drops_first_iterated env (oldest :: ids) st W P Hnd Hlen)
    as (st' & Hr & Hp & _).
  cbv zeta. rewrite Hr. cbn [snd]. rewrite Hp.
  assert (N : NoDup (set_iter env (map JStr (oldest :: ids)))).
  { apply (Permutation_NoDup (Permutation_sym (P _))).
    apply NoDup_map_JStr. exact Hnd. }
  assert (I : In (JStr oldest) (set_iter env (map JStr (oldest :: ids)))).
  { apply (Permutation_in _ (Permutation_sym (P _))). now left. }
  destruct (set_iter env (map JStr (oldest :: ids))) as [|x l]; [contradiction|].
  cbn [tl hd_error]. inversion N as [|? ? Hx Hl]; subst. split.
  - intros H. destruct I as [->|I]; [reflexivity | contradiction].
  - intros H. injection H as ->. exact Hx.
Qed.

(** Were sets iterated in the order of insertion, the 500 ids kept would
    be the 500 added last. *)
Lemma ledger_keeps_recent_if_ordered (env : Env) (ids : list str) (st : St) :
  writes_succeed env ->
  (forall l, set_iter env l = l) ->
  NoDup ids ->
  length ids = 501 ->
  exists st',
    add_each env ids [] st = (Ret (map JStr ids), st') /\
    persisted (history_file st') = map JStr (tl ids).
Proof.
  intros W O Hnd Hlen.
  destruct (ledger_drops_first_iterated env ids st W) as (st' & Hr & Hp & _); auto.
  { intros l. now rewrite O. }
  exists st'. split; [exact Hr|]. rewrite Hp, O. now destruct ids.
Qed.

(** C2, evaluated.  The ids [vid0] ... [vid500] are added in this order,
    each followed by a persist, under an interpreter that iterates the set
    newest first.  The file then holds exactly 500 ids, and they are not
    the 500 added last: the newest id, [vid500], is the one dropped, and
    the oldest, [vid0], is kept. *)
Theorem ledger_cap_follows_set_order :
  let run := add_each env_newest_first (vids 501) [] st0 in
  let kept := persisted (history_file (snd run)) in
  NoDup (vids 501) /\
  fst run = Ret (map JStr (vids 501)) /\
  length kept = 500 /\
  kept <> map JStr (tl (vids 501)) /\
  set_mem (JStr (u "vid500")) kept = false /\
  set_mem (JStr (u "vid0")) kept = true /\
  kept = map JStr (rev (removelast (vids 501))).
Proof.
  assert (Hnd : NoDup (vids 501)).
  { apply distinct_NoDup. vm_compute. reflexivity. }
  destruct (ledger_drops_first_iterated env_newest_first (vids 501) st0)
    as (st' & Hr & Hp & Hl & _).
  { intros t path content. reflexivity. }
  { intros l. symmetry. apply Permutation_rev. }
  { exact Hnd. }
  { reflexivity. }
  cbv zeta. rewrite Hr. simpl fst. simpl snd. rewrite Hp.
  change (set_iter env_newest_first (map JStr (vids 501)))
    with (rev (map JStr (vids 501))).
  split; [exact Hnd|]. split; [reflexivity|].
  split; [vm_compute; reflexivity|].
  split.
  { intros H. apply (f_equal (@hd_error json)) in H. vm_compute in H. discriminate H. }
  split; [vm_compute; reflexivity|].
  split; vm_compute; reflexivity.
Qed.


(** ** The transcript cascade *)

(** C7. For every video id: when the caption API answers with caption
    entries, [get_transcript] returns their texts joined by spaces, and the
    only events of the call are its log line, the look for the cookie file
    and the request to the caption API: no call of the second or third
    method is made. *)
Theorem tier1_text_ends_cascade (env : Env) (fuel : nat) (video_id : str) (st : St)
  (transcript_list : list str) :
  let cookies :=
    if path_exists env (clock st) (u "cookies.txt") then Some (u "cookies.txt") else None in
  let new :=
    [ Log INFO ([128373; 65039]%N ++ u " Fetching transcript for " ++ video_id ++ u "...");
      Stat (u "cookies.txt");
      Called (GetTranscript video_id cookies) ] in
  respond env (S (clock st)) (GetTranscript video_id cookies) = Ret transcript_list ->
  exists st',
    get_transcript env fuel video_id st = (Ret (Some (join (u " ") transcript_list)), st') /\
    trace st' = trace st ++ new /\
    existsb is_later_method new = false.
Proof.
  cbv zeta. intros H.
  eexists. split; [|split].
  - unfold get_transcript. unfold bind at 1. unfold log, emit.
    unfold bind at 1. unfold try_except. unfold bind at 1.
    unfold method1. unfold bind at 1. unfold exists_. cbn [clock tick].
    unfold bind at 1. unfold ext. cbn [clock tick]. rewrite H.
    cbv [ret]. reflexivity.
  - cbn [trace tick]. rewrite <- !app_assoc. reflexivity.
  - reflexivity.
Qed.

Lemma tier1_text_ends_cascade_witness :
  exists st',
    get_transcript env_captions 0 (u "dQw4w9WgXcQ") st0
    = (Ret (Some (join (u " ") [u "hello"; u "world"])), st') /\
    trace st' = trace st0 ++
      [ Log INFO ([128373; 65039]%N ++ u " Fetching transcript for " ++ u "dQw4w9WgXcQ" ++ u "...");
        Stat (u "cookies.txt");
        Called (GetTranscript (u "dQw4w9WgXcQ") None) ] /\
    existsb is_later_method
      [ Log INFO ([128373; 65039]%N ++ u " Fetching transcript for " ++ u "dQw4w9WgXcQ" ++ u "...");
        Stat (u "cookies.txt");
        Called (GetTranscript (u "dQw4w9WgXcQ") None) ] = false.
Proof.
  apply (tier1_text_ends_cascade env_captions 0 (u "dQw4w9WgXcQ") st0 [u "hello"; u "world"]).
  reflexivity.
Defined.

(** No exception escapes [get_transcript]. *)
Lemma get_transcript_no_raise (env : Env) (fuel : nat) (video_id : str) :
  no_raise (get_transcript env fuel video_id).
Proof.
  unfold get_transcript.
  apply no_raise_bind; [apply no_raise_emit|]. intros _.
  apply no_raise_bind.
  { apply no_raise_try. intros e. apply no_raise_handler. }
  intros [text|]; [apply no_raise_ret|].
  apply no_raise_bind.
  { apply no_raise_try. intros e. apply no_raise_handler. }
  intros [text|]; [apply no_raise_ret|].
  apply no_raise_try. intros e. apply no_raise_handler.
Qed.

(** No exception escapes a round of the orchestrator: every stage catches
    its own, so a stage can only fail by what it returns. *)
Lemma process_video_no_raise (env : Env) (fuel : nat) (history : pyset) (video : video) :
  no_raise (process_video env fuel history video).
Proof.
  unfold process_video.
  apply no_raise_bind; [apply no_raise_emit|]. intros _.
  apply no_raise_bind; [apply get_transcript_no_raise|].
  intros [[|x t]|]; try apply no_raise_ret.
  apply no_raise_bind.
  { unfold analyze_video.
    apply no_raise_bind; [apply generate_with_fallback_no_raise|].
    intros [[|y text]|]; try apply no_raise_ret.
    apply no_raise_try. intros e. apply no_raise_handler. }
  intros [c|]; [|apply no_raise_ret].
  apply no_raise_bind.
  { apply no_raise_try. intros e. apply no_raise_handler. }
  intros audio_ok.
  apply no_raise_bind.
  { apply no_raise_try. intros e. apply no_raise_handler. }
  intros [|]; [|apply no_raise_ret].
  apply no_raise_bind.
  { apply no_raise_try. intros e. apply no_raise_emit. }
  intros _ st e st'. discriminate.
Qed.

(** C8, as the code has it.  For every video id:
    - when the first method raises, the second raises or falls through
      without a caption text, and the third raises or returns [None] (no
      audio file, or no model gave a transcript), [get_transcript] returns
      [None], having run the three methods in turn; when the third method
      returns the empty text instead, so does [get_transcript];
    - when the first method returns the empty text, [get_transcript]
      returns the empty text, not [None], and neither the second nor the
      third method is run;
    - the second method never returns the empty text;
    - no exception escapes [get_transcript] in any world. *)
Theorem failed_tiers_give_none_or_empty (env : Env) (fuel : nat) (video_id : str)
  (st : St) :
  let start :=
    snd (log INFO ([128373; 65039]%N ++ u " Fetching transcript for " ++ video_id ++ u "...") st) in
  (forall (e1 : exn) (s1 : St) (r2 : outcome (option str)) (s2 : St)
          (r3 : outcome (option str)) (s3 : St),
      let after1 := snd (log WARNING (warning_sign ++ u " API Method failed: " ++ e1) s1) in
      let after2 :=
        after_except WARNING (fun e => warning_sign ++ u " Method 2 failed: " ++ e) r2 s2 in
      let after3 :=
        after_except ERROR (fun e => cross_mark ++ u " Nuclear Option failed: " ++ e) r3 s3 in
      method1 env video_id start = (Raise e1, s1) ->
      method2 env video_id after1 = (r2, s2) -> no_text r2 ->
      method3 env fuel video_id after2 = (r3, s3) ->
      (no_text r3 -> get_transcript env fuel video_id st = (Ret None, after3)) /\
      (r3 = Ret (Some []) -> get_transcript env fuel video_id st = (Ret (Some []), s3))) /\
  (forall s1 : St,
      method1 env video_id start = (Ret [], s1) ->
      get_transcript env fuel video_id st = (Ret (Some []), s1) /\
      exists new, trace s1 = trace st ++ new /\ existsb is_later_method new = false) /\
  (forall (s : St) (text : str) (s' : St),
      method2 env video_id s = (Ret (Some text), s') -> text <> []) /\
  no_raise (get_transcript env fuel video_id).
Proof.
  cbv zeta. split; [|split; [|split]].
  - intros e1 s1 r2 s2 r3 s3 H1 H2 N2 H3.
    assert (G : get_transcript env fuel video_id st =
                match r3 with
                | Raise e =>
                    (Ret None,
                     snd (log ERROR (cross_mark ++ u " Nuclear Option failed: " ++ e) s3))
                | _ => (r3, s3)
                end).
    { unfold get_transcript. unfold bind at 1.
      change (log INFO ([128373; 65039]%N ++ u " Fetching transcript for " ++ video_id ++ u "...") st)
        with (Ret tt, snd (log INFO ([128373; 65039]%N ++ u " Fetching transcript for "
                                     ++ video_id ++ u "...") st)).
      unfold bind at 1. unfold try_except at 1. unfold bind at 1. rewrite H1.
      unfold bind at 1.
      change (log WARNING (warning_sign ++ u " API Method failed: " ++ e1) s1)
        with (Ret tt, snd (log WARNING (warning_sign ++ u " API Method failed: " ++ e1) s1)).
      cbv [ret]. unfold bind at 1. unfold try_except at 1. rewrite H2.
      destruct N2 as [-> | (e2 & ->)]; cbn [after_except] in *.
      - unfold try_except. rewrite H3. destruct r3; reflexivity.
      - unfold bind at 1.
        change (log WARNING (warning_sign ++ u " Method 2 failed: " ++ e2) s2)
          with (Ret tt, snd (log WARNING (warning_sign ++ u " Method 2 failed: " ++ e2) s2)).
        unfold try_except. rewrite H3. destruct r3; reflexivity. }
    split; [intros [-> | (e3 & ->)] | intros ->]; rewrite G; reflexivity.
  - intros s1 H1. split.
    + unfold get_transcript. unfold bind at 1.
      change (log INFO ([128373; 65039]%N ++ u " Fetching transcript for " ++ video_id ++ u "...") st)
        with (Ret tt, snd (log INFO ([128373; 65039]%N ++ u " Fetching transcript for "
                                     ++ video_id ++ u "...") st)).
      unfold bind at 1. unfold try_except at 1. unfold bind at 1. rewrite H1. reflexivity.
    + revert H1. unfold method1. cbv [bind exists_ ext ret log emit snd].
      cbn [clock tick].
      match goal with |- context [respond env ?t ?c] => destruct (respond env t c) end;
        try discriminate.
      intros H. injection H as _ <-. eexists. split.
      * cbn [trace tick]. rewrite <- !app_assoc. reflexivity.
      * reflexivity.
  - intros s text s' H ->. revert H. unfold method2. cbv [bind sleep emit ret].
    destruct (ext env ImportYtDlp _) as [[[]|?|] ?]; try discriminate.
    destruct (ext env (YdlDownload _ _) _) as [[[]|?|] ?]; try discriminate.
    destruct (ext env (ListDir _) _) as [[files|?|] ?]; try discriminate.
    destruct (find_caption env video_id files _) as [[[[|? ?]|]|?|] ?]; discriminate.
  - apply get_transcript_no_raise.
Qed.

Lemma failed_tiers_give_none_or_empty_witness :
  (exists st', get_transcript env_no_captions 3 (u "dQw4w9WgXcQ") st0 = (Ret None, st')) /\
  (exists st', get_transcript env_silent_audio 3 (u "dQw4w9WgXcQ") st0
               = (Ret (Some []), st')) /\
  (exists s1,
     get_transcript env_empty_captions 3 (u "dQw4w9WgXcQ") st0 = (Ret (Some []), s1) /\
     exists new, trace s1 = trace st0 ++ new /\ existsb is_later_method new = false) /\
  u "hello  world" <> [].
Proof.
  split; [|split; [|split]].
  - edestruct (proj1 (failed_tiers_give_none_or_empty env_no_captions 3
                        (u "dQw4w9WgXcQ") st0)) as [A _].
    + cbv. reflexivity.
    + cbv. reflexivity.
    + left. reflexivity.
    + cbv. reflexivity.
    + eexists. apply A. left. reflexivity.
  - edestruct (proj1 (failed_tiers_give_none_or_empty env_silent_audio 3
                        (u "dQw4w9WgXcQ") st0)) as [_ B].
    + cbv. reflexivity.
    + cbv. reflexivity.
    + left. reflexivity.
    + cbv. reflexivity.
    + eexists. apply B. reflexivity.
  - eexists.
    eapply (proj1 (proj2 (failed_tiers_give_none_or_empty env_empty_captions 3
                            (u "dQw4w9WgXcQ") st0))).
    cbv. reflexivity.
  - eapply (proj1 (proj2 (proj2 (failed_tiers_give_none_or_empty env_caption_file 3
                                   (u "dQw4w9WgXcQ") st0)))
              (snd (log WARNING (warning_sign ++ u " API Method failed: "
                                 ++ u "Subtitles are disabled for this video") st0))).
    cbv. reflexivity.
Defined.

(** C8 as it is written fails on the code: a method that produces no text
    by returning the empty text does not make [get_transcript] return
    [None].  With an empty caption list the first method returns the empty
    text and [get_transcript] returns it without running the other two
    methods; and when the first method raises, the second finds no caption
    file and the model of the third answers with the empty text, all three
    methods have run and given no text, and [get_transcript] returns the
    empty text. *)
Lemma empty_text_is_not_none :
  let vid := u "dQw4w9WgXcQ" in
  let run1 := get_transcript env_empty_captions 3 vid st0 in
  let start :=
    snd (log INFO ([128373; 65039]%N ++ u " Fetching transcript for " ++ vid ++ u "...") st0) in
  let m1 := method1 env_silent_audio vid start in
  let m2 := method2 env_silent_audio vid
              (snd (log WARNING (warning_sign ++ u " API Method failed: "
                                 ++ u "Subtitles are disabled for this video") (snd m1))) in
  let m3 := method3 env_silent_audio 3 vid (snd m2) in
  let run3 := get_transcript env_silent_audio 3 vid st0 in
  fst (method1 env_empty_captions vid start) = Ret [] /\
  fst run1 = Ret (Some []) /\
  fst run1 <> Ret None /\
  existsb is_later_method (trace (snd run1)) = false /\
  fst m1 = Raise (u "Subtitles are disabled for this video") /\
  fst m2 = Ret None /\
  fst m3 = Ret (Some []) /\
  run3 = (Ret (Some []), snd m3) /\
  fst run3 <> Ret None.
Proof.
  cbv zeta. repeat (apply conj); try (vm_compute; reflexivity); vm_compute; discriminate.
Qed.


(** ** What a stage adds to the events *)

Lemma extends_refl (ok : event -> bool) (st : St) : extends ok st st.
Proof. exists []. rewrite app_nil_r. auto. Qed.

Lemma extends_trans (ok : event -> bool) (a b c : St) :
  extends ok a b -> extends ok b c -> extends ok a c.
Proof.
  intros (n1 & T1 & O1 & F1) (n2 & T2 & O2 & F2).
  exists (n1 ++ n2). rewrite T2, T1, <- app_assoc. split; [reflexivity|].
  rewrite forallb_app, O1, O2. split; [reflexivity|].
  rewrite existsb_app. intros H. apply orb_false_iff in H. destruct H as [H1 H2].
  rewrite F2, F1; auto.
Qed.

Lemma extends_weaken (ok ok' : event -> bool) (a b : St) :
  (forall ev, ok ev = true -> ok' ev = true) -> extends ok a b -> extends ok' a b.
Proof.
  intros W (n & T & O & F). exists n. split; [exact T|]. split; [|exact F].
  rewrite forallb_forall in *. auto.
Qed.

Lemma extends_tick (ok : event -> bool) (ev : event) (st : St) :
  ok ev = true -> extends ok st (tick ev st).
Proof. intros H. exists [ev]. simpl. rewrite H. auto. Qed.

Lemma adds_only_ret (ok : event -> bool) {A} (a : A) : adds_only ok (ret a).
Proof. intros st r st' H. injection H as _ <-. apply extends_refl. Qed.

Lemma adds_only_raise (ok : event -> bool) {A} (e : exn) : adds_only ok (@raise A e).
Proof. intros st r st' H. injection H as _ <-. apply extends_refl. Qed.

Lemma adds_only_hang (ok : event -> bool) {A} : adds_only ok (@hang A).
Proof. intros st r st' H. injection H as _ <-. apply extends_refl. Qed.

Lemma adds_only_lift (ok : event -> bool) {A} (o : outcome A) : adds_only ok (lift o).
Proof. intros st r st' H. injection H as _ <-. apply extends_refl. Qed.

Lemma adds_only_emit (ok : event -> bool) (ev : event) :
  ok ev = true -> adds_only ok (emit ev).
Proof.
  intros O st r st' H. injection H as _ <-. exists [ev]. simpl. rewrite O. auto.
Qed.

Lemma adds_only_ext (ok : event -> bool) (env : Env) {R} (c : call R) :
  ok (Called c) = true -> adds_only ok (ext env c).
Proof. intros O st r st' H. injection H as _ <-. now apply extends_tick. Qed.

Lemma adds_only_exists (ok : event -> bool) (env : Env) (path : str) :
  ok (Stat path) = true -> adds_only ok (exists_ env path).
Proof. intros O st r st' H. injection H as _ <-. now apply extends_tick. Qed.

Lemma adds_only_bind (ok : event -> bool) {A B} (m : M A) (k : A -> M B) :
  adds_only ok m -> (forall a, adds_only ok (k a)) -> adds_only ok (bind m k).
Proof.
  intros Hm Hk st r st'. unfold bind.
  destruct (m st) as [[a|e|] s1] eqn:E; intros H.
  - eapply extends_trans; [exact (Hm _ _ _ E) | exact (Hk _ _ _ _ H)].
  - injection H as _ <-. exact (Hm _ _ _ E).
  - injection H as _ <-. exact (Hm _ _ _ E).
Qed.

Lemma adds_only_try (ok : event -> bool) {A} (m : M A) (h : exn -> M A) :
  adds_only ok m -> (forall e, adds_only ok (h e)) -> adds_only ok (try_except m h).
Proof.
  intros Hm Hh st r st'. unfold try_except.
  destruct (m st) as [[a|e|] s1] eqn:E; intros H.
  - injection H as _ <-. exact (Hm _ _ _ E).
  - eapply extends_trans; [exact (Hm _ _ _ E) | exact (Hh _ _ _ _ H)].
  - injection H as _ <-. exact (Hm _ _ _ E).
Qed.

Lemma adds_only_write_history (ok : event -> bool) (env : Env) (content : json) :
  ok (Called (WriteText HISTORY_FILE content)) = true ->
  adds_only ok (write_history env content).
Proof.
  intros O st r st'. unfold write_history.
  destruct (respond env (clock st) (WriteText HISTORY_FILE content));
    intros H; injection H as _ <-;
    exists [Called (WriteText HISTORY_FILE content)]; simpl; rewrite O;
    (split; [reflexivity | split; [reflexivity | discriminate]]).
Qed.

(** Breaks a monadic term into its steps; what is left are the recursive
    calls and the named stages. *)
Ltac steps :=
  repeat first
    [ simple apply adds_only_ret
    | simple apply adds_only_raise
    | simple apply adds_only_hang
    | simple apply adds_only_lift
    | simple apply adds_only_emit; reflexivity
    | simple apply adds_only_ext; reflexivity
    | simple apply adds_only_exists; reflexivity
    | simple apply adds_only_bind; [|intros ?]
    | simple apply adds_only_try; [|intros ?]
    | match goal with
      | |- adds_only _ (if ?b then _ else _) => destruct b
      | |- adds_only _ (match ?x with _ => _ end) => destruct x
      end ].

Lemma try_models_quiet (env : Env) (p : payload) (models : list str) :
  adds_only quiet_event (try_models env models p).
Proof.
  induction models as [|m rest IH]; simpl; [apply adds_only_ret|].
  unfold on_model_error, log, sleep. steps; exact IH.
Qed.

Lemma generate_with_fallback_quiet (env : Env) (p : payload) :
  adds_only quiet_event (generate_with_fallback env p).
Proof.
  unfold generate_with_fallback, log.
  apply adds_only_bind; [apply adds_only_emit; reflexivity|]. intros _.
  apply adds_only_bind; [apply try_models_quiet|]. intros r. steps.
Qed.

Lemma find_caption_quiet (env : Env) (video_id : str) (files : list str) :
  adds_only quiet_event (find_caption env video_id files).
Proof.
  induction files as [|f rest IH]; simpl; [apply adds_only_ret|].
  steps. exact IH.
Qed.

Lemma wait_processing_quiet (env : Env) (fuel : nat) :
  forall f, adds_only quiet_event (wait_processing env fuel f).
Proof.
  induction fuel as [|k IH]; intros f; simpl; unfold sleep; steps. apply IH.
Qed.

Lemma get_transcript_quiet (env : Env) (fuel : nat) (video_id : str) :
  adds_only quiet_event (get_transcript env fuel video_id).
Proof.
  unfold get_transcript, method1, method2, method3, log, sleep.
  steps;
    first [ apply find_caption_quiet
          | apply wait_processing_quiet
          | apply generate_with_fallback_quiet ].
Qed.

Lemma analyze_video_quiet (env : Env) (transcript channel_name video_title video_url : str) :
  adds_only quiet_event
    (analyze_video env transcript channel_name video_title video_url).
Proof.
  unfold analyze_video.
  apply adds_only_bind; [apply generate_with_fallback_quiet|]. intros text.
  unfold parse_response, log. steps.
Qed.

Lemma generate_audio_quiet (env : Env) (script : str) :
  adds_only quiet_event (generate_audio env script).
Proof. unfold generate_audio, log. steps. Qed.

Lemma send_to_telegram_no_write (env : Env) (telegram_msg : str) (audio_file : option str) :
  adds_only not_write (send_to_telegram env telegram_msg audio_file).
Proof. unfold send_to_telegram, raise_for_status, log. steps. Qed.

Lemma send_text_only_no_voice (env : Env) (telegram_msg : str) :
  adds_only not_voice (send_to_telegram env telegram_msg None).
Proof. unfold send_to_telegram, raise_for_status, log. steps. Qed.

Lemma save_history_no_voice (env : Env) (history : pyset) :
  adds_only not_voice (save_history env history).
Proof.
  unfold save_history, log.
  apply adds_only_try; [|intros e; apply adds_only_emit; reflexivity].
  cbv zeta. apply adds_only_write_history. reflexivity.
Qed.

Lemma extends_quiet_untouched (st st' : St) :
  extends quiet_event st st' -> untouched st st'.
Proof.
  intros (new & T & O & F). exists new. split; [exact T|].
  assert (D : existsb is_delivery new = false /\ existsb is_ledger_write new = false).
  { clear T F. induction new as [|ev new IH]; simpl in *; [auto|].
    apply andb_true_iff in O. destruct O as [O1 O2].
    unfold quiet_event in O1. apply andb_true_iff in O1. destruct O1 as [A B].
    apply negb_true_iff in A, B. rewrite A, B. simpl. auto. }
  destruct D as [D1 D2]. auto.
Qed.

Lemma quiet_not_voice (ev : event) : quiet_event ev = true -> not_voice ev = true.
Proof.
  unfold quiet_event, not_voice. intros H. apply andb_true_iff in H. destruct H as [H _].
  destruct ev as [R c| | | |]; try reflexivity.
  destruct c; try reflexivity. discriminate H.
Qed.

Lemma quiet_not_write (ev : event) : quiet_event ev = true -> not_write ev = true.
Proof.
  unfold quiet_event, not_write. intros H. apply andb_true_iff in H. now destruct H.
Qed.


(** ** The orchestrator: what a failed stage leads to *)

Lemma first_call_recorded (ok : event -> bool) (env : Env) {R A} (c : call R)
  (k : R -> M A) (h : exn -> M A) (st st' : St) (r : outcome A) :
  (forall a, adds_only ok (k a)) ->
  (forall e, adds_only ok (h e)) ->
  try_except (bind (ext env c) k) h st = (r, st') ->
  exists rest, trace st' = trace st ++ Called c :: rest /\ forallb ok rest = true.
Proof.
  intros Hk Hh. unfold try_except, bind, ext.
  destruct (respond env (clock st) c) as [a|e|].
  - destruct (k a (tick (Called c) st)) as [[b|e|] s1] eqn:E; intros H.
    + injection H as _ <-. destruct (Hk _ _ _ _ E) as (n & T & O & _).
      exists n. rewrite T. simpl. now rewrite <- app_assoc.
    + destruct (Hk _ _ _ _ E) as (n & T & O & _).
      destruct (Hh _ _ _ _ H) as (n' & T' & O' & _).
      exists (n ++ n'). rewrite T', T. simpl. rewrite <- !app_assoc.
      split; [reflexivity|]. now rewrite forallb_app, O, O'.
    + injection H as _ <-. destruct (Hk _ _ _ _ E) as (n & T & O & _).
      exists n. rewrite T. simpl. now rewrite <- app_assoc.
  - intros H. destruct (Hh _ _ _ _ H) as (n & T & O & _).
    exists n. rewrite T. simpl. now rewrite <- app_assoc.
  - intros H. injection H as _ <-. exists []. simpl. auto.
Qed.

Lemma send_text_only_plain (env : Env) (telegram_msg : str) :
  adds_only plain_event (send_to_telegram env telegram_msg None).
Proof. unfold send_to_telegram, raise_for_status, log. steps. Qed.

(** Every delivery begins with the request that posts the text. *)
Lemma send_to_telegram_posts_text (env : Env) (telegram_msg : str)
  (audio_file : option str) (st st' : St) (r : outcome bool) :
  send_to_telegram env telegram_msg audio_file st = (r, st') ->
  exists rest, trace st' = trace st ++ text_post env telegram_msg :: rest.
Proof.
  unfold send_to_telegram. cbv zeta. intros H.
  apply (first_call_recorded (fun _ => true)) in H.
  - destruct H as (rest & T & _). now exists rest.
  - intros a. unfold raise_for_status, log. steps.
  - intros e. unfold log. steps.
Qed.

Lemma no_voice_in (l : list event) :
  forallb not_voice l = true -> existsb is_voice_upload l = false.
Proof.
  induction l as [|ev l IH]; simpl; [reflexivity|]. intros H.
  apply andb_true_iff in H. destruct H as [H1 H2].
  unfold not_voice in H1. apply negb_true_iff in H1. rewrite H1. now apply IH.
Qed.

Lemma no_write_in (l : list event) :
  forallb not_write l = true -> existsb is_ledger_write l = false.
Proof.
  induction l as [|ev l IH]; simpl; [reflexivity|]. intros H.
  apply andb_true_iff in H. destruct H as [H1 H2].
  unfold not_write in H1. apply negb_true_iff in H1. rewrite H1. now apply IH.
Qed.

(** The state in which the first stage of a round starts. *)
Lemma process_video_start (env : Env) (fuel : nat) (history : pyset) (video : video) (st : St) :
  let s0 := snd (log INFO ([10; 127916]%N ++ u " Processing: " ++ v_title video) st) in
  extends quiet_event st s0 /\
  process_video env fuel history video st =
    bind (get_transcript env fuel (v_id video))
      (fun transcript =>
         match transcript with
         | None | Some [] => ret history
         | Some transcript =>
             content <- analyze_video env transcript (v_channel video) (v_title video)
                          (v_url video) ;;
             match content with
             | None => ret history
             | Some content =>
                 audio_ok <- generate_audio env (podcast content) ;;
                 success <- send_to_telegram env (telegram content)
                              (if audio_ok then Some STORY_MP3 else None) ;;
                 if success then
                   let history := set_add (JStr (v_id video)) history in
                   save_history env history ;;
                   log INFO ([9989]%N ++ u " Delivered: " ++ v_title video) ;;
                   sleep (Seconds 2) ;;
                   ret history
                 else ret history
             end
         end) s0.
Proof.
  cbv zeta. split; [|reflexivity].
  apply (adds_only_emit quiet_event
           (Log INFO ([10; 127916]%N ++ u " Processing: " ++ v_title video)) eq_refl
           st (Ret tt)).
  reflexivity.
Qed.


Lemma plain_split (l : list event) :
  forallb plain_event l = true ->
  existsb is_voice_upload l = false /\ existsb is_ledger_write l = false.
Proof.
  induction l as [|ev l IH]; simpl; [auto|]. intros H.
  apply andb_true_iff in H. destruct H as [H1 H2].
  unfold plain_event, not_voice, not_write in H1.
  apply andb_true_iff in H1. destruct H1 as [A B].
  apply negb_true_iff in A, B. rewrite A, B. now apply IH.
Qed.

Lemma quiet_plain (ev : event) : quiet_event ev = true -> plain_event ev = true.
Proof.
  intros H. unfold plain_event.
  now rewrite (quiet_not_voice ev H), (quiet_not_write ev H).
Qed.

(** [save_history] asks for one write, of the capped list, and ends
    without raising. *)
Lemma save_history_event (env : Env) (history : pyset) (st st' : St)
  (r : outcome unit) :
  save_history env history st = (r, st') ->
  (r = Ret tt \/ r = Hang) /\
  exists rest,
    trace st' = trace st ++ Called (WriteText HISTORY_FILE (saved env history)) :: rest /\
    forallb not_voice rest = true.
Proof.
  unfold save_history, try_except, write_history, saved. cbv zeta.
  destruct (respond env (clock st) _) as [[]|e|]; intros H.
  - injection H as <- <-. split; [now left|]. exists []. auto.
  - revert H. cbv [log emit]. intros H. injection H as <- <-.
    split; [now left|]. eexists. cbn [trace tick]. rewrite <- app_assoc.
    split; reflexivity.
  - injection H as <- <-. split; [now right|]. exists []. auto.
Qed.

(** ** What a delivery records *)

Lemma existsb_perm {A} (f : A -> bool) (l l' : list A) :
  Permutation l l' -> existsb f l = existsb f l'.
Proof.
  induction 1; simpl; try congruence.
  - destruct (f x), (f y); reflexivity.
Qed.

Lemma forallb_perm {A} (f : A -> bool) (l l' : list A) :
  Permutation l l' -> forallb f l = forallb f l'.
Proof.
  induction 1; simpl; try congruence.
  - destruct (f x), (f y); reflexivity.
Qed.

(** [history.add(x)] puts [x] in the ledger. *)
Lemma set_add_holds (x : str) (s : pyset) :
  set_mem (JStr x) (set_add (JStr x) s) = true.
Proof.
  unfold set_add. destruct (set_mem (JStr x) s) eqn:E; [exact E|].
  unfold set_mem. rewrite existsb_app. simpl. rewrite str_eqb_refl.
  apply orb_true_r.
Qed.

(** A ledger of at most 500 ids is written whole: the list written holds
    what the ledger holds. *)
Lemma saved_holds (env : Env) (history : pyset) (x : json) :
  Permutation (set_iter env history) history -> length history <= 500 ->
  set_mem x (persisted (Holds (saved env history))) = set_mem x history.
Proof.
  intros P L. pose proof (Permutation_length P) as PL.
  unfold saved. cbn [persisted].
  replace (500 <? length (set_iter env history)) with false
    by (symmetry; apply Nat.ltb_ge; lia).
  unfold set_mem. now apply existsb_perm.
Qed.

(** A write that the environment accepts puts the capped list in the file. *)
Lemma save_history_at (env : Env) (history : pyset) (st : St) :
  respond env (clock st) (WriteText HISTORY_FILE (saved env history)) = Ret tt ->
  exists st',
    save_history env history st = (Ret tt, st') /\
    history_file st' = Holds (saved env history).
Proof.
  intros W. unfold save_history, try_except, write_history. cbv zeta.
  unfold saved in W. rewrite W. eexists. split; reflexivity.
Qed.

(** C1, as the code has it.  For every item of a poll cycle:
    - when transcript acquisition returns nothing ([None] or the empty
      text), the round ends with the ledger as it was, no request to the
      messaging endpoint and no ledger write;
    - when synthesis returns [None], likewise;
    - when audio rendering fails, the round goes on: the text message is
      posted, without a voice upload; if that delivery succeeds, the id of
      the item is added to the ledger handed on and the ledger file is
      written: an accepted write leaves in the file the ids of the ledger,
      cut to the last 500 in the order the set is iterated, and the id of
      the item is among them whenever the ledger then has at most 500 ids;
      if that delivery fails, the ledger is as it was and is not written;
    - when delivery fails, after a rendered audio or not, the round ends
      with the ledger as it was and no ledger write. *)
Theorem failed_stage_outcomes (env : Env) (fuel : nat) (history : pyset)
  (video : video) (st : St) :
  let s0 := snd (log INFO ([10; 127916]%N ++ u " Processing: " ++ v_title video) st) in
  let analyze t := analyze_video env t (v_channel video) (v_title video) (v_url video) in
  let history' := set_add (JStr (v_id video)) history in
  (forall r s1,
      get_transcript env fuel (v_id video) s0 = (Ret r, s1) ->
      r = None \/ r = Some [] ->
      process_video env fuel history video st = (Ret history, s1) /\
      untouched st s1) /\
  (forall t s1 s2,
      get_transcript env fuel (v_id video) s0 = (Ret (Some t), s1) -> t <> [] ->
      analyze t s1 = (Ret None, s2) ->
      process_video env fuel history video st = (Ret history, s2) /\
      untouched st s2) /\
  (forall t s1 c s2 s3 ok s4,
      get_transcript env fuel (v_id video) s0 = (Ret (Some t), s1) -> t <> [] ->
      analyze t s1 = (Ret (Some c), s2) ->
      generate_audio env (podcast c) s2 = (Ret false, s3) ->
      send_to_telegram env (telegram c) None s3 = (Ret ok, s4) ->
      exists r s5 new,
        process_video env fuel history video st = (r, s5) /\
        trace s5 = trace st ++ new /\
        In (text_post env (telegram c)) new /\
        existsb is_voice_upload new = false /\
        if ok then
          In (Called (WriteText HISTORY_FILE (saved env history'))) new /\
          (r = Ret history' \/ r = Hang) /\
          set_mem (JStr (v_id video)) history' = true /\
          (respond env (clock s4) (WriteText HISTORY_FILE (saved env history')) = Ret tt ->
           r = Ret history' /\ history_file s5 = Holds (saved env history')) /\
          (Permutation (set_iter env history') history' -> length history' <= 500 ->
           set_mem (JStr (v_id video)) (persisted (Holds (saved env history'))) = true)
        else
          r = Ret history /\ existsb is_ledger_write new = false /\
          history_file s5 = history_file st) /\
  (forall t s1 c s2 audio_ok s3 s4,
      get_transcript env fuel (v_id video) s0 = (Ret (Some t), s1) -> t <> [] ->
      analyze t s1 = (Ret (Some c), s2) ->
      generate_audio env (podcast c) s2 = (Ret audio_ok, s3) ->
      send_to_telegram env (telegram c) (if audio_ok then Some STORY_MP3 else None) s3
      = (Ret false, s4) ->
      exists new,
        process_video env fuel history video st = (Ret history, s4) /\
        trace s4 = trace st ++ new /\
        existsb is_ledger_write new = false /\
        history_file s4 = history_file st).
Proof.
  cbv zeta.
  destruct (process_video_start env fuel history video st) as [E0 P]. cbv zeta in E0, P.
  set (s0 := snd (log INFO ([10; 127916]%N ++ u " Processing: " ++ v_title video) st)) in *.
  split; [|split; [|split]].
  - intros r s1 H1 Hr. split.
    + rewrite P. unfold bind. rewrite H1. destruct Hr as [-> | ->]; reflexivity.
    + apply extends_quiet_untouched.
      eapply extends_trans; [exact E0 | exact (get_transcript_quiet _ _ _ _ _ _ H1)].
  - intros t s1 s2 H1 Ht H2. split.
    + rewrite P. unfold bind at 1. rewrite H1.
      destruct t as [|x t]; [congruence|]. unfold bind. rewrite H2. reflexivity.
    + apply extends_quiet_untouched.
      eapply extends_trans; [exact E0|].
      eapply extends_trans; [exact (get_transcript_quiet _ _ _ _ _ _ H1)|].
      exact (analyze_video_quiet _ _ _ _ _ _ _ _ H2).
  - intros t s1 c s2 s3 ok s4 H1 Ht H2 H3 H4.
    assert (E3 : extends plain_event st s3).
    { apply (extends_weaken quiet_event); [exact quiet_plain|].
      eapply extends_trans; [exact E0|].
      eapply extends_trans; [exact (get_transcript_quiet _ _ _ _ _ _ H1)|].
      eapply extends_trans; [exact (analyze_video_quiet _ _ _ _ _ _ _ _ H2)|].
      exact (generate_audio_quiet _ _ _ _ _ H3). }
    destruct E3 as (n3 & T3 & O3 & F3).
    destruct (send_text_only_plain _ _ _ _ _ H4) as (n4 & T4 & O4 & F4).
    destruct (send_to_telegram_posts_text _ _ _ _ _ _ H4) as (rest & T4').
    assert (En : n4 = text_post env (telegram c) :: rest).
    { rewrite T4 in T4'. now apply app_inv_head in T4'. }
    destruct (plain_split n3 O3) as [V3 W3].
    destruct (plain_split n4 O4) as [V4 W4].
    assert (Hrun : process_video env fuel history video st
                   = (if ok then
                        save_history env (set_add (JStr (v_id video)) history) ;;
                        log INFO ([9989]%N ++ u " Delivered: " ++ v_title video) ;;
                        sleep (Seconds 2) ;;
                        ret (set_add (JStr (v_id video)) history)
                      else ret history) s4).
    { rewrite P. unfold bind at 1. rewrite H1.
      destruct t as [|x t]; [congruence|].
      unfold bind at 1. rewrite H2. unfold bind at 1. rewrite H3.
      unfold bind at 1. rewrite H4. reflexivity. }
    destruct ok.
    + destruct (save_history env (set_add (JStr (v_id video)) history) s4)
        as [r5 s5] eqn:H5.
      pose proof (set_add_holds (v_id video) history) as Hm.
      assert (Hs : Permutation (set_iter env (set_add (JStr (v_id video)) history))
                     (set_add (JStr (v_id video)) history) ->
                   length (set_add (JStr (v_id video)) history) <= 500 ->
                   set_mem (JStr (v_id video))
                     (persisted (Holds (saved env (set_add (JStr (v_id video)) history))))
                   = true).
      { intros Pm Lm. now rewrite saved_holds. }
      destruct (save_history_event _ _ _ _ _ H5) as ([R5|R5] & rest5 & T5 & O5); subst r5.
      * eexists. eexists.
        exists (n3 ++ n4
                ++ (Called (WriteText HISTORY_FILE
                              (saved env (set_add (JStr (v_id video)) history))) :: rest5)
                ++ [Log INFO ([9989]%N ++ u " Delivered: " ++ v_title video);
                    Sleep (Seconds 2)]).
        split; [|split; [|split; [|split; [|split; [|split; [|split; [|split]]]]]]].
        -- rewrite Hrun. unfold bind at 1. rewrite H5.
           cbv [bind log sleep emit ret]. reflexivity.
        -- cbn [trace]. rewrite T5, T4, T3, <- !app_assoc. reflexivity.
        -- apply in_or_app. right. apply in_or_app. left. rewrite En. now left.
        -- rewrite !existsb_app, V3, V4. simpl. rewrite (no_voice_in rest5 O5).
           reflexivity.
        -- apply in_or_app. right. apply in_or_app. right.
           apply in_or_app. left. now left.
        -- now left.
        -- exact Hm.
        -- intros W. split; [reflexivity|]. cbn [history_file].
           destruct (save_history_at env _ s4 W) as (s5' & H5' & F5).
           rewrite H5 in H5'. injection H5' as <-. exact F5.
        -- exact Hs.
      * exists Hang, s5.
        exists (n3 ++ n4
                ++ (Called (WriteText HISTORY_FILE
                              (saved env (set_add (JStr (v_id video)) history))) :: rest5)).
        split; [|split; [|split; [|split; [|split; [|split; [|split; [|split]]]]]]].
        -- rewrite Hrun. unfold bind at 1. rewrite H5. reflexivity.
        -- rewrite T5, T4, T3, <- !app_assoc. reflexivity.
        -- apply in_or_app. right. apply in_or_app. left. rewrite En. now left.
        -- rewrite !existsb_app, V3, V4. simpl. rewrite (no_voice_in rest5 O5).
           reflexivity.
        -- apply in_or_app. right. apply in_or_app. right. now left.
        -- now right.
        -- exact Hm.
        -- intros W. exfalso.
           destruct (save_history_at env _ s4 W) as (s5' & H5' & _).
           rewrite H5 in H5'. discriminate H5'.
        -- exact Hs.
    + exists (Ret history), s4, (n3 ++ n4).
      split; [|split; [|split; [|split; [|split; [|split]]]]].
      * rewrite Hrun. reflexivity.
      * rewrite T4, T3, <- app_assoc. reflexivity.
      * apply in_or_app. right. rewrite En. now left.
      * now rewrite existsb_app, V3, V4.
      * reflexivity.
      * now rewrite existsb_app, W3, W4.
      * rewrite F4, F3; auto.
  - intros t s1 c s2 audio_ok s3 s4 H1 Ht H2 H3 H4.
    assert (E4 : extends not_write st s4).
    { eapply extends_trans.
      - apply (extends_weaken quiet_event); [exact quiet_not_write|].
        eapply extends_trans; [exact E0|].
        eapply extends_trans; [exact (get_transcript_quiet _ _ _ _ _ _ H1)|].
        eapply extends_trans; [exact (analyze_video_quiet _ _ _ _ _ _ _ _ H2)|].
        exact (generate_audio_quiet _ _ _ _ _ H3).
      - exact (send_to_telegram_no_write _ _ _ _ _ _ H4). }
    destruct E4 as (n & T & O & F). exists n.
    split; [|split; [exact T | split; [now apply no_write_in | apply F; now apply no_write_in]]].
    rewrite P. unfold bind at 1. rewrite H1.
    destruct t as [|x t]; [congruence|].
    unfold bind at 1. rewrite H2. unfold bind at 1. rewrite H3.
    unfold bind at 1. rewrite H4. reflexivity.
Qed.


Lemma failed_stage_outcomes_witness :
  (exists s1,
     process_video env_no_captions 3 [] demo_video st0 = (Ret [], s1) /\
     untouched st0 s1) /\
  (exists s2,
     process_video env_captions 3 [] demo_video st0 = (Ret [], s2) /\
     untouched st0 s2) /\
  (exists c r s5 new,
     process_video env_tts_down 3 [] demo_video st0 = (r, s5) /\
     trace s5 = trace st0 ++ new /\
     In (text_post env_tts_down (telegram c)) new /\
     existsb is_voice_upload new = false /\
     In (Called (WriteText HISTORY_FILE
                   (saved env_tts_down (set_add (JStr (v_id demo_video)) [])))) new /\
     (r = Ret (set_add (JStr (v_id demo_video)) []) \/ r = Hang) /\
     set_mem (JStr (v_id demo_video)) (set_add (JStr (v_id demo_video)) []) = true /\
     (respond env_tts_down 5
        (WriteText HISTORY_FILE
           (saved env_tts_down (set_add (JStr (v_id demo_video)) []))) = Ret tt ->
      r = Ret (set_add (JStr (v_id demo_video)) []) /\
      history_file s5
      = Holds (saved env_tts_down (set_add (JStr (v_id demo_video)) []))) /\
     (Permutation (set_iter env_tts_down (set_add (JStr (v_id demo_video)) []))
        (set_add (JStr (v_id demo_video)) []) ->
      length (set_add (JStr (v_id demo_video)) []) <= 500 ->
      set_mem (JStr (v_id demo_video))
        (persisted (Holds (saved env_tts_down (set_add (JStr (v_id demo_video)) []))))
      = true)) /\
  (exists s4 new,
     process_video env_endpoint_down 3 [] demo_video st0 = (Ret [], s4) /\
     trace s4 = trace st0 ++ new /\
     existsb is_ledger_write new = false /\
     history_file s4 = history_file st0).
Proof.
  split; [|split; [|split]].
  - eexists.
    eapply (proj1 (failed_stage_outcomes env_no_captions 3 [] demo_video st0)).
    + cbv. reflexivity.
    + left. reflexivity.
  - eexists.
    eapply (proj1 (proj2 (failed_stage_outcomes env_captions 3 [] demo_video st0))).
    + cbv. reflexivity.
    + discriminate.
    + cbv. reflexivity.
  - eexists.
    eapply (proj1 (proj2 (proj2
              (failed_stage_outcomes env_tts_down 3 [] demo_video st0)))
              _ _ _ _ _ true).
    + cbv. reflexivity.
    + discriminate.
    + cbv. reflexivity.
    + cbv. reflexivity.
    + cbv. reflexivity.
  - eexists.
    eapply (proj2 (proj2 (proj2
              (failed_stage_outcomes env_endpoint_down 3 [] demo_video st0)))
              _ _ _ _ false).
    + cbv. reflexivity.
    + discriminate.
    + cbv. reflexivity.
    + cbv. reflexivity.
    + cbv. reflexivity.
Defined.

(** C1 as it is written fails on the code.  In the world [env_tts_down]
    the transcript and the synthesis succeed and audio rendering fails; the
    round then posts the text message, writes the ledger file and hands on
    a ledger that holds the id of the item. *)
Lemma audio_failure_still_delivers :
  let r1 := get_transcript env_tts_down 3 (v_id demo_video) demo_start in
  let r2 := analyze_video env_tts_down (u "hello world") (v_channel demo_video)
              (v_title demo_video) (v_url demo_video) (snd r1) in
  let script := u "Whoa! Imagine this. Check the link, it's wild!" in
  let r3 := generate_audio env_tts_down script (snd r2) in
  let run := process_video env_tts_down 3 [] demo_video st0 in
  fst r1 = Ret (Some (u "hello world")) /\
  fst r2 = Ret (Some {| telegram := u "Chips that think." ++ [10; 10; 128279; 32]%N
                                    ++ v_url demo_video;
                        podcast := script |}) /\
  fst r3 = Ret false /\
  fst run = Ret [JStr (v_id demo_video)] /\
  existsb is_delivery (trace (snd run)) = true /\
  existsb is_ledger_write (trace (snd run)) = true /\
  history_file (snd run) = Holds (JObj [(u "videos", JArr [JStr (v_id demo_video)])]) /\
  ~ untouched st0 (snd run).
Proof.
  cbv zeta. repeat split; try (vm_compute; reflexivity).
  intros (new & T & D & _).
  assert (E : existsb is_delivery (trace (snd (process_video env_tts_down 3 [] demo_video st0)))
              = true) by (vm_compute; reflexivity).
  rewrite T in E. simpl in E. congruence.
Qed.


(** ** Delivery: the answer to the voice upload is not looked at *)

Lemma ok_status_passes (url : str) (r : response) (st : St) :
  ok_status r -> raise_for_status url r st = (Ret tt, st).
Proof.
  intros [H|H]; unfold raise_for_status.
  - replace (400 <=? status_code r) with false by (symmetry; apply Nat.leb_gt; lia).
    replace (500 <=? status_code r) with false by (symmetry; apply Nat.leb_gt; lia).
    reflexivity.
  - replace (status_code r <? 500) with false by (symmetry; apply Nat.ltb_ge; lia).
    replace (status_code r <? 600) with false by (symmetry; apply Nat.ltb_ge; lia).
    rewrite !andb_false_r. reflexivity.
Qed.






(** ** Strings: occurrences, [split] and [replace] *)

Lemma startswith_app (p r : str) : startswith p (p ++ r) = true.
Proof.
  induction p as [|a p IH]; simpl; [reflexivity|]. now rewrite N.eqb_refl, IH.
Qed.

(** [startswith] only looks at the first [length p] characters. *)
Lemma startswith_long (p x y : str) :
  length p <= length x -> startswith p (x ++ y) = startswith p x.
Proof.
  revert x. induction p as [|a p IH]; intros [|b x] H; simpl in *;
    try reflexivity; try lia.
  rewrite IH by lia. reflexivity.
Qed.

Lemma contains_cons_false (sep : str) (c : N) (s : str) :
  contains sep (c :: s) = false ->
  startswith sep (c :: s) = false /\ contains sep s = false.
Proof. simpl contains. intros H. now apply orb_false_iff in H. Qed.

Lemma contains_nil_needle (s : str) : contains [] s = true.
Proof. destruct s; reflexivity. Qed.

(** No occurrence of [sep] begins in [a] when [sep] does not occur in [a]
    followed by all but the last character of [sep]. *)
Lemma no_early_start (sep a b : str) (c : N) :
  contains sep ((c :: a) ++ removelast sep) = false ->
  startswith sep ((c :: a) ++ sep ++ b) = false.
Proof.
  intros H.
  destruct sep as [|x sep].
  { rewrite contains_nil_needle in H. discriminate. }
  apply contains_cons_false in H. destruct H as [H _].
  assert (E : (c :: a) ++ (x :: sep) ++ b
              = ((c :: a) ++ removelast (x :: sep)) ++ [last (x :: sep) 0%N] ++ b).
  { rewrite (app_removelast_last (l := x :: sep) 0%N) at 1 by discriminate.
    now rewrite <- !app_assoc. }
  rewrite E, startswith_long; [exact H|].
  rewrite length_app. simpl length at 2.
  assert (L : length (x :: sep) = S (length (removelast (x :: sep)))).
  { rewrite (app_removelast_last (l := x :: sep) 0%N) at 1 by discriminate.
    rewrite length_app. simpl. lia. }
  lia.
Qed.

Lemma skipn_exact (p r : str) : skipn (length p) (p ++ r) = r.
Proof. induction p; simpl; auto. Qed.

Lemma split_at_eq (sep s : str) :
  split_at sep s =
  if startswith sep s then Some ([], skipn (length sep) s)
  else match s with
       | [] => None
       | c :: r =>
           match split_at sep r with
           | Some (a, b) => Some (c :: a, b)
           | None => None
           end
       end.
Proof. destruct s; reflexivity. Qed.

Lemma replace_from_eq (old new : str) (c : N) (r : str) :
  replace_from old new 0 (c :: r) =
  if startswith old (c :: r)
  then new ++ replace_from old new (length old - 1) r
  else c :: replace_from old new 0 r.
Proof. reflexivity. Qed.

(** [split_at] finds the first occurrence. *)
Lemma split_at_first (sep a b : str) :
  contains sep (a ++ removelast sep) = false ->
  split_at sep (a ++ sep ++ b) = Some (a, b).
Proof.
  induction a as [|c a IH]; intros H.
  - simpl app. destruct sep as [|x sep].
    + rewrite contains_nil_needle in H. discriminate.
    + rewrite split_at_eq, startswith_app, skipn_exact. reflexivity.
  - pose proof (no_early_start sep a b c H) as S0.
    apply contains_cons_false in H. destruct H as [_ H].
    rewrite split_at_eq, S0. cbn [app]. rewrite (IH H). reflexivity.
Qed.

Lemma split_at_none (sep s : str) :
  contains sep s = false -> split_at sep s = None.
Proof.
  induction s as [|c s IH]; intros H.
  - simpl in *. apply orb_false_iff in H. destruct H as [H _]. now rewrite H.
  - apply contains_cons_false in H. destruct H as [H1 H2].
    rewrite split_at_eq, H1, (IH H2). reflexivity.
Qed.

Lemma split_at_some (sep s : str) :
  contains sep s = true -> exists a b, split_at sep s = Some (a, b).
Proof.
  induction s as [|c s IH]; intros H.
  - simpl in H. rewrite orb_false_r in H. rewrite split_at_eq, H. eauto.
  - simpl contains in H. rewrite split_at_eq.
    destruct (startswith sep (c :: s)) eqn:E; [eauto|].
    simpl in H. destruct (IH H) as (a & b & ->). eauto.
Qed.

Lemma split_at_nonempty (sep s a b : str) :
  sep <> [] -> split_at sep s = Some (a, b) -> s <> [].
Proof.
  intros Hs H ->. destruct sep; [congruence | discriminate H].
Qed.

Lemma split_fuel_eq (k : nat) (sep s : str) :
  split_fuel (S k) sep s =
  match split_at sep s with
  | None => [s]
  | Some (a, b) => a :: split_fuel k sep b
  end.
Proof. reflexivity. Qed.

(** The first two pieces of [s.split(sep)]. *)
Lemma split_two (sep s a b : str) :
  sep <> [] -> split_at sep s = Some (a, b) ->
  getitem (split sep s) 0 = Ret a /\
  getitem (split sep s) 1 = Ret (first_piece sep b).
Proof.
  intros Hs H. pose proof (split_at_nonempty sep s a b Hs H) as Hn.
  unfold split. destruct s as [|c s]; [congruence|].
  change (length (c :: s)) with (S (length s)).
  rewrite split_fuel_eq, H, split_fuel_eq. unfold getitem, first_piece.
  destruct (split_at sep b) as [[a' b']|]; split; reflexivity.
Qed.

Lemma replace_from_skip (old new x r : str) :
  replace_from old new (length x) (x ++ r) = replace_from old new 0 r.
Proof. induction x as [|c x IH]; simpl; auto. Qed.

Lemma replace_from_absent (old new s : str) :
  contains old s = false -> replace_from old new 0 s = s.
Proof.
  induction s as [|c s IH]; intros H; [reflexivity|].
  apply contains_cons_false in H. destruct H as [H1 H2].
  cbn [replace_from]. rewrite H1, (IH H2). reflexivity.
Qed.

(** One occurrence is replaced, the rest is kept. *)
Lemma replace_once (old new pre post : str) :
  contains old (pre ++ removelast old) = false ->
  contains old post = false ->
  replace old new (pre ++ old ++ post) = pre ++ new ++ post.
Proof.
  intros H1 H2.
  destruct old as [|x old].
  { rewrite contains_nil_needle in H2. discriminate. }
  unfold replace.
  induction pre as [|c pre IH].
  - change ([] ++ (x :: old) ++ post) with (x :: (old ++ post)).
    rewrite replace_from_eq.
    change (x :: (old ++ post)) with ((x :: old) ++ post).
    rewrite startswith_app.
    replace (length (x :: old) - 1) with (length old) by (simpl; lia).
    rewrite replace_from_skip, replace_from_absent by exact H2. reflexivity.
  - pose proof (no_early_start (x :: old) pre post c H1) as S0.
    apply contains_cons_false in H1. destruct H1 as [_ H1].
    change ((c :: pre) ++ (x :: old) ++ post) with (c :: (pre ++ (x :: old) ++ post)).
    rewrite replace_from_eq.
    change (c :: (pre ++ (x :: old) ++ post)) with ((c :: pre) ++ (x :: old) ++ post).
    rewrite S0, (IH H1). reflexivity.
Qed.


Lemma startswith_true (p s : str) :
  startswith p s = true -> s = p ++ skipn (length p) s.
Proof.
  revert s. induction p as [|a p IH]; intros [|b s] H; simpl in *;
    try reflexivity; try discriminate.
  apply andb_true_iff in H. destruct H as [H1 H2].
  apply N.eqb_eq in H1. subst b. f_equal. now apply IH.
Qed.

Lemma split_at_app (sep s a b : str) :
  split_at sep s = Some (a, b) -> s = a ++ sep ++ b.
Proof.
  revert a b. induction s as [|c s IH]; intros a b; rewrite split_at_eq.
  - destruct (startswith sep []) eqn:E; [|discriminate].
    intros H. injection H as <- <-. now apply startswith_true.
  - destruct (startswith sep (c :: s)) eqn:E.
    + intros H. injection H as <- <-. now apply startswith_true.
    + destruct (split_at sep s) as [[a' b']|]; [|discriminate].
      intros H. injection H as <- <-. simpl. f_equal. now apply IH.
Qed.

Lemma contains_app (p a b : str) : contains p (a ++ p ++ b) = true.
Proof.
  induction a as [|c a IH].
  - simpl app. destruct (p ++ b) eqn:E; simpl; rewrite <- E, startswith_app; reflexivity.
  - simpl app. simpl contains. rewrite IH. apply orb_true_r.
Qed.

(** ** Occurrences of a marker *)

Lemma contains_cons (p : str) (c : N) (s : str) :
  contains p (c :: s) = startswith p (c :: s) || contains p s.
Proof. reflexivity. Qed.

Lemma startswith_cons (x c : N) (p s : str) :
  startswith (x :: p) (c :: s) = N.eqb x c && startswith p s.
Proof. reflexivity. Qed.

(** [split_at] splits at the first occurrence. *)
Lemma split_at_first_at (sep s : str) :
  forall a b, split_at sep s = Some (a, b) -> first_at sep s a b.
Proof.
  intros a b H. split; [now apply split_at_app|].
  revert a b H. induction s as [|c s IH]; intros a b; rewrite split_at_eq.
  - destruct (startswith sep []); [|discriminate].
    intros H i Hi. injection H as <- _. simpl in Hi. lia.
  - destruct (startswith sep (c :: s)) eqn:E.
    + intros H i Hi. injection H as <- _. simpl in Hi. lia.
    + destruct (split_at sep s) as [[a' b']|] eqn:S'; [|discriminate].
      intros H i Hi. injection H as <- <-.
      destruct i as [|j]; [exact E|].
      simpl in Hi. apply (IH a' b' eq_refl j). lia.
Qed.

(** The second piece of a split runs up to the next occurrence. *)
Lemma first_piece_up_to (sep b : str) : up_to sep b (first_piece sep b).
Proof.
  unfold up_to, first_piece.
  destruct (split_at sep b) as [[a r]|] eqn:E.
  - right. exists r. now apply split_at_first_at.
  - left. split; [|reflexivity].
    destruct (contains sep b) eqn:C; [|reflexivity].
    destruct (split_at_some sep b C) as (a & r & S'). congruence.
Qed.

Lemma startswith_prefix (p q : str) :
  forall s, startswith (p ++ q) s = true -> startswith p s = true.
Proof.
  induction p as [|x p IH]; intros [|c s] H; simpl in *; try reflexivity;
    try discriminate.
  apply andb_true_iff in H. destruct H as [H1 H2]. now rewrite H1, (IH s H2).
Qed.

(** A string that does not hold the beginning of a marker does not hold
    the marker. *)
Lemma contains_prefix (p q s : str) :
  contains p s = false -> contains (p ++ q) s = false.
Proof.
  induction s as [|c s IH]; simpl contains; intros H;
    apply orb_false_iff in H; destruct H as [H1 H2]; apply orb_false_iff; split;
    try reflexivity; try (now apply IH).
  - destruct (startswith (p ++ q) []) eqn:E; [|reflexivity].
    apply startswith_prefix in E. congruence.
  - destruct (startswith (p ++ q) (c :: s)) eqn:E; [|reflexivity].
    apply startswith_prefix in E. congruence.
Qed.

(** What occurs in a part of a string occurs in the string. *)
Lemma contains_sub (p x m y : str) :
  contains p m = true -> contains p (x ++ m ++ y) = true.
Proof.
  intros H. destruct (split_at_some p m H) as (a & b & S').
  rewrite (split_at_app _ _ _ _ S').
  replace (x ++ (a ++ p ++ b) ++ y) with ((x ++ a) ++ p ++ (b ++ y))
    by now rewrite <- !app_assoc.
  apply contains_app.
Qed.

Lemma lstrip_suffix (s : str) : exists x, s = x ++ lstrip s.
Proof.
  induction s as [|c s (x & IH)]; [now exists []|]. simpl.
  destruct (is_space c); [|now exists []].
  exists (c :: x). simpl. now f_equal.
Qed.

(** Trimming keeps a part of the string. *)
Lemma strip_sub (s : str) : exists x y, s = x ++ strip s ++ y.
Proof.
  destruct (lstrip_suffix s) as (x & Hx).
  destruct (lstrip_suffix (rev (lstrip s))) as (y & Hy).
  exists x, (rev y). unfold strip, rstrip.
  rewrite <- rev_app_distr, <- Hy, rev_involutive. exact Hx.
Qed.

Lemma contains_strip (p s : str) :
  contains p s = false -> contains p (strip s) = false.
Proof.
  intros H. destruct (contains p (strip s)) eqn:E; [|reflexivity].
  destruct (strip_sub s) as (x & y & Hs).
  rewrite Hs, (contains_sub p x (strip s) y E) in H. discriminate H.
Qed.

(** No PODCAST marker begins in the line of the TELEGRAM marker. *)
Lemma podcast_not_in_header (r : str) :
  contains PODCAST_MARKER (TELEGRAM_MARKER ++ 10%N :: r) = contains PODCAST_MARKER r.
Proof. reflexivity. Qed.

(** No PODCAST marker begins in a text without three hyphens in a row,
    also when the marker follows the text. *)
Lemma no_podcast_across (a : str) :
  contains (u "---") a = false ->
  contains PODCAST_MARKER (a ++ removelast PODCAST_MARKER) = false.
Proof.
  induction a as [|c a IH]; intros H; [vm_compute; reflexivity|].
  apply contains_cons_false in H. destruct H as [H1 H2].
  change ((c :: a) ++ removelast PODCAST_MARKER)
    with (c :: (a ++ removelast PODCAST_MARKER)).
  rewrite contains_cons, (IH H2), orb_false_r.
  set (R := removelast PODCAST_MARKER).
  change PODCAST_MARKER with (45 :: 45 :: 45 :: u "PODCAST---")%N.
  destruct a as [|d [|e a]]; cbn [app];
    [rewrite startswith_cons | rewrite 2!startswith_cons | rewrite 3!startswith_cons].
  - replace (startswith (45 :: 45 :: u "PODCAST---")%N R) with false
      by (subst R; vm_compute; reflexivity).
    apply andb_false_r.
  - replace (startswith (45 :: u "PODCAST---")%N R) with false
      by (subst R; vm_compute; reflexivity).
    now rewrite !andb_false_r.
  - change (u "---") with [45; 45; 45]%N in H1. cbn [startswith] in H1.
    destruct (N.eqb 45 c), (N.eqb 45 d), (N.eqb 45 e); try reflexivity.
    discriminate H1.
Qed.

Lemma sub_span_from_skipn (op cl : N) (s : str) :
  forall k, sub_span_from op cl k s = sub_span_from op cl 0 (skipn k s).
Proof.
  induction s as [|c r IH]; intros [|k]; try reflexivity.
  cbn [sub_span_from skipn]. apply IH.
Qed.

Lemma sub_span_eq (op cl c : N) (r : str) :
  sub_span op cl (c :: r) =
  if N.eqb c op then
    match find_close cl r with
    | Some n => sub_span op cl (skipn (S n) r)
    | None => c :: sub_span op cl r
    end
  else c :: sub_span op cl r.
Proof.
  unfold sub_span. cbn [sub_span_from].
  destruct (N.eqb c op); [|reflexivity].
  destruct (find_close cl r); [|reflexivity].
  apply sub_span_from_skipn.
Qed.

(** A substitution finds nothing to remove where no span begins. *)
Lemma sub_span_none (op cl : N) (s : str) :
  has_span op cl s = false -> sub_span op cl s = s.
Proof.
  induction s as [|c s IH]; [reflexivity|]. cbn [has_span]. intros H.
  apply orb_false_iff in H. destruct H as [H1 H2].
  rewrite sub_span_eq, (IH H2).
  destruct (N.eqb c op); [|reflexivity].
  destruct (find_close cl s); [discriminate H1 | reflexivity].
Qed.

Lemma final_cleanup_none (s : str) : speakable s -> final_cleanup s = s.
Proof.
  intros (H1 & H2 & H3). unfold final_cleanup, sub_stars, sub_brackets, sub_parens.
  now rewrite (sub_span_none _ _ _ H1), (sub_span_none _ _ _ H2), (sub_span_none _ _ _ H3).
Qed.

(** ** The response parser *)

(** What the parser returns when both markers are there: [a] is the text
    before the first PODCAST marker and [b] the text after it. *)
Lemma parse_response_present (text video_url a b : str) (st : St) :
  contains TELEGRAM_MARKER text = true ->
  split_at PODCAST_MARKER text = Some (a, b) ->
  parse_response (Some text) video_url st =
  (Ret (Some {| telegram := strip (replace TELEGRAM_MARKER [] a) ++ link_line video_url;
                podcast := final_cleanup (strip (first_piece PODCAST_MARKER b)) |}), st).
Proof.
  intros HT HS.
  assert (HP : contains PODCAST_MARKER text = true).
  { rewrite (split_at_app _ _ _ _ HS). apply contains_app. }
  destruct (split_two PODCAST_MARKER text a b) as [G0 G1]; [discriminate | exact HS |].
  destruct text as [|c s]; [discriminate HT|].
  unfold parse_response, try_except. rewrite HT, HP. cbn [negb orb].
  unfold bind at 1. unfold lift at 1. rewrite G0.
  unfold bind at 1. unfold lift at 1. rewrite G1.
  reflexivity.
Qed.

(** C3, as the code has it.  For every backend response text:
    - if either marker is missing, the parser returns [None];
    - if both markers occur, in whatever order, it returns a content: the
      short post is the text before the first PODCAST marker with the
      occurrences of the TELEGRAM marker deleted in one pass, trimmed,
      followed by the link line; the script is the text from there to the
      next PODCAST marker (or to the end), trimmed and cleaned;
    - when the TELEGRAM marker comes first and each marker occurs once,
      the short post is the trimmed join of the texts on either side of
      the TELEGRAM marker and the script is the trimmed, cleaned text after
      the PODCAST marker;
    - in the layout the prompt asks for (the TELEGRAM marker, a line feed,
      the post, the PODCAST marker, the script) with no three hyphens in a
      row in the post or the script, the short post is the trimmed post
      followed by the link line, and the trimmed post holds no marker; the
      script is the trimmed script, cleaned, and when the cleanup finds
      nothing to remove it is the trimmed script and holds no marker;
    - the results are not scanned again: in [rejoined_answer] each marker
      occurs once, the TELEGRAM marker first, and the short post still
      begins with the TELEGRAM marker and the script with the PODCAST
      marker. *)
Theorem parse_response_by_markers (text video_url : str) (st : St) :
  (contains TELEGRAM_MARKER text = false \/ contains PODCAST_MARKER text = false ->
   exists st', parse_response (Some text) video_url st = (Ret None, st')) /\
  (contains TELEGRAM_MARKER text = true -> contains PODCAST_MARKER text = true ->
   exists before rest piece,
     first_at PODCAST_MARKER text before rest /\
     up_to PODCAST_MARKER rest piece /\
     parse_response (Some text) video_url st =
     (Ret (Some {| telegram := strip (replace TELEGRAM_MARKER [] before)
                               ++ link_line video_url;
                   podcast := final_cleanup (strip piece) |}),
      st)) /\
  (forall pre post script,
     text = pre ++ TELEGRAM_MARKER ++ post ++ PODCAST_MARKER ++ script ->
     contains TELEGRAM_MARKER (pre ++ removelast TELEGRAM_MARKER) = false ->
     contains TELEGRAM_MARKER post = false ->
     contains PODCAST_MARKER
       (pre ++ TELEGRAM_MARKER ++ post ++ removelast PODCAST_MARKER) = false ->
     contains PODCAST_MARKER script = false ->
     parse_response (Some text) video_url st =
     (Ret (Some {| telegram := strip (pre ++ post) ++ link_line video_url;
                   podcast := final_cleanup (strip script) |}), st)) /\
  (forall post script,
     text = TELEGRAM_MARKER ++ [10%N] ++ post ++ PODCAST_MARKER ++ script ->
     contains (u "---") post = false ->
     contains (u "---") script = false ->
     parse_response (Some text) video_url st =
     (Ret (Some {| telegram := strip post ++ link_line video_url;
                   podcast := final_cleanup (strip script) |}), st) /\
     contains TELEGRAM_MARKER (strip post) = false /\
     contains PODCAST_MARKER (strip post) = false /\
     (speakable (strip script) ->
      final_cleanup (strip script) = strip script /\
      contains TELEGRAM_MARKER (strip script) = false /\
      contains PODCAST_MARKER (strip script) = false)) /\
  (occurrences TELEGRAM_MARKER rejoined_answer = [7] /\
   occurrences PODCAST_MARKER rejoined_answer = [47] /\
   parse_response (Some rejoined_answer) video_url st =
   (Ret (Some {| telegram := u "---TELEGRAM---" ++ [10%N] ++ u "Chips that think."
                             ++ link_line video_url;
                 podcast := u "---PODCAST--- Whoa!" |}), st)).
Proof.
  split; [|split; [|split; [|split]]].
  - intros H. destruct text as [|c s]; [eexists; reflexivity|].
    unfold parse_response, try_except.
    assert (E : negb (contains TELEGRAM_MARKER (c :: s))
                || negb (contains PODCAST_MARKER (c :: s)) = true).
    { destruct H as [-> | ->]; [reflexivity | apply orb_true_r]. }
    rewrite E. eexists. reflexivity.
  - intros HT HP. destruct (split_at_some _ _ HP) as (a & b & HS).
    exists a, b, (first_piece PODCAST_MARKER b).
    split; [now apply split_at_first_at|]. split; [apply first_piece_up_to|].
    now apply parse_response_present.
  - intros pre post script -> T1 T2 P1 P2.
    assert (HS : split_at PODCAST_MARKER
                   (pre ++ TELEGRAM_MARKER ++ post ++ PODCAST_MARKER ++ script)
                 = Some (pre ++ TELEGRAM_MARKER ++ post, script)).
    { replace (pre ++ TELEGRAM_MARKER ++ post ++ PODCAST_MARKER ++ script)
        with ((pre ++ TELEGRAM_MARKER ++ post) ++ PODCAST_MARKER ++ script)
        by now rewrite <- !app_assoc.
      apply split_at_first. now rewrite <- !app_assoc. }
    rewrite (parse_response_present _ video_url _ _ st (contains_app _ _ _) HS).
    rewrite (replace_once TELEGRAM_MARKER [] pre post T1 T2).
    unfold first_piece. rewrite (split_at_none _ _ P2). reflexivity.
  - intros post script -> Hp Hs.
    pose proof (contains_prefix (u "---") (u "TELEGRAM---") post Hp) as Tp.
    pose proof (contains_prefix (u "---") (u "PODCAST---") post Hp) as Pp.
    pose proof (contains_prefix (u "---") (u "TELEGRAM---") script Hs) as Ts.
    pose proof (contains_prefix (u "---") (u "PODCAST---") script Hs) as Ps.
    change (u "---" ++ u "TELEGRAM---") with TELEGRAM_MARKER in Tp, Ts.
    change (u "---" ++ u "PODCAST---") with PODCAST_MARKER in Pp, Ps.
    split; [|split; [|split]].
    + assert (HS : split_at PODCAST_MARKER
                     (TELEGRAM_MARKER ++ [10%N] ++ post ++ PODCAST_MARKER ++ script)
                   = Some (TELEGRAM_MARKER ++ [10%N] ++ post, script)).
      { replace (TELEGRAM_MARKER ++ [10%N] ++ post ++ PODCAST_MARKER ++ script)
          with ((TELEGRAM_MARKER ++ [10%N] ++ post) ++ PODCAST_MARKER ++ script)
          by now rewrite <- !app_assoc.
        apply split_at_first. rewrite <- !app_assoc.
        change ([10%N] ++ post ++ removelast PODCAST_MARKER)
          with (10%N :: (post ++ removelast PODCAST_MARKER)).
        rewrite podcast_not_in_header. now apply no_podcast_across. }
      assert (HT : contains TELEGRAM_MARKER
                     (TELEGRAM_MARKER ++ [10%N] ++ post ++ PODCAST_MARKER ++ script)
                   = true) by apply (contains_app TELEGRAM_MARKER []).
      rewrite (parse_response_present _ video_url _ _ st HT HS).
      assert (HR : replace TELEGRAM_MARKER [] (TELEGRAM_MARKER ++ [10%N] ++ post)
                   = [10%N] ++ post).
      { apply (replace_once TELEGRAM_MARKER [] [] ([10%N] ++ post)).
        - vm_compute. reflexivity.
        - change ([10%N] ++ post) with (10%N :: post).
          rewrite contains_cons, Tp. reflexivity. }
      rewrite HR. unfold first_piece. rewrite (split_at_none _ _ Ps). reflexivity.
    + now apply contains_strip.
    + now apply contains_strip.
    + intros Sp. split; [now apply final_cleanup_none|].
      split; now apply contains_strip.
  - split; [vm_compute; reflexivity|]. split; [vm_compute; reflexivity|].
    vm_compute. reflexivity.
Qed.

Lemma parse_response_by_markers_witness :
  (exists st', parse_response (Some (u "I cannot help with that.")) (u "https://youtu.be/x") st0
               = (Ret None, st')) /\
  (exists before rest piece,
     first_at PODCAST_MARKER swapped_answer before rest /\
     up_to PODCAST_MARKER rest piece /\
     parse_response (Some swapped_answer) (u "https://youtu.be/x") st0 =
     (Ret (Some {| telegram := strip (replace TELEGRAM_MARKER [] before)
                               ++ link_line (u "https://youtu.be/x");
                   podcast := final_cleanup (strip piece) |}),
      st0)) /\
  parse_response (Some two_part_answer) (u "https://youtu.be/x") st0 =
  (Ret (Some {| telegram := strip ([] ++ [10%N] ++ u "Chips that think." ++ [10%N])
                            ++ link_line (u "https://youtu.be/x");
                podcast := final_cleanup
                             (strip ([10%N] ++ u "Whoa! Imagine this. Check the link, it's wild!")) |}),
   st0) /\
  (parse_response (Some two_part_answer) (u "https://youtu.be/x") st0 =
   (Ret (Some {| telegram := strip (u "Chips that think." ++ [10%N])
                             ++ link_line (u "https://youtu.be/x");
                 podcast := final_cleanup
                              (strip ([10%N] ++ u "Whoa! Imagine this. Check the link, it's wild!")) |}),
    st0) /\
   contains TELEGRAM_MARKER (strip (u "Chips that think." ++ [10%N])) = false /\
   contains PODCAST_MARKER (strip (u "Chips that think." ++ [10%N])) = false /\
   final_cleanup (strip ([10%N] ++ u "Whoa! Imagine this. Check the link, it's wild!"))
   = strip ([10%N] ++ u "Whoa! Imagine this. Check the link, it's wild!") /\
   contains TELEGRAM_MARKER
     (strip ([10%N] ++ u "Whoa! Imagine this. Check the link, it's wild!")) = false /\
   contains PODCAST_MARKER
     (strip ([10%N] ++ u "Whoa! Imagine this. Check the link, it's wild!")) = false).
Proof.
  split; [|split; [|split]].
  - apply (proj1 (parse_response_by_markers (u "I cannot help with that.")
                    (u "https://youtu.be/x") st0)).
    left. reflexivity.
  - apply (proj1 (proj2 (parse_response_by_markers swapped_answer
                           (u "https://youtu.be/x") st0))); reflexivity.
  - apply (proj1 (proj2 (proj2 (parse_response_by_markers two_part_answer
                                  (u "https://youtu.be/x") st0)))); reflexivity.
  - destruct (proj1 (proj2 (proj2 (proj2 (parse_response_by_markers two_part_answer
                                            (u "https://youtu.be/x") st0))))
                (u "Chips that think." ++ [10%N])
                ([10%N] ++ u "Whoa! Imagine this. Check the link, it's wild!")
                eq_refl eq_refl eq_refl)
      as (A & B & C & D).
    destruct D as (D1 & D2 & D3); [split; [|split]; reflexivity|].
    auto 10.
Defined.

(** C3 as it is written fails on the code: a response with both markers
    in the wrong order is not treated as malformed.  The parser returns a
    content whose short post is empty but for the link line and whose
    script still holds the TELEGRAM marker. *)
Lemma swapped_markers_accepted :
  contains TELEGRAM_MARKER swapped_answer = true /\
  contains PODCAST_MARKER swapped_answer = true /\
  split_at TELEGRAM_MARKER swapped_answer
  = Some (u "---PODCAST---" ++ [10%N] ++ u "Whoa!" ++ [10%N],
          [10%N] ++ u "Chips that think.") /\
  split_at PODCAST_MARKER swapped_answer
  = Some ([], [10%N] ++ u "Whoa!" ++ [10%N] ++ u "---TELEGRAM---" ++ [10%N]
              ++ u "Chips that think.") /\
  parse_response (Some swapped_answer) (u "https://youtu.be/x") st0 =
  (Ret (Some {| telegram := link_line (u "https://youtu.be/x");
                podcast := u "Whoa!" ++ [10%N] ++ u "---TELEGRAM---" ++ [10%N]
                           ++ u "Chips that think." |}), st0) /\
  parse_response (Some swapped_answer) (u "https://youtu.be/x") st0 <> (Ret None, st0) /\
  contains TELEGRAM_MARKER (u "Whoa!" ++ [10%N] ++ u "---TELEGRAM---" ++ [10%N]
                            ++ u "Chips that think.") = true.
Proof.
  repeat split; try (vm_compute; reflexivity).
  vm_compute. discriminate.
Qed.


(** ** The ledger and the configuration at startup *)






(* ================================================================== *)
(** * Part XI. Further properties of the code *)
(* ================================================================== *)

(** ** Polling the feeds *)

(** What one round of polling can do to [new_videos]: nothing, or one more
    video, whose id is not in the ledger. *)
Lemma poll_feed_result (env : Env) (history : pyset) (feed_url : str)
  (new_videos vs : list video) (st st' : St) :
  poll_feed env history feed_url new_videos st = (Ret vs, st') ->
  vs = new_videos \/
  exists v, vs = new_videos ++ [v] /\ set_mem (JStr (v_id v)) history = false.
Proof.
  unfold poll_feed, bind, ext, attr, ret, raise.
  destruct (respond env (clock st) (FeedParse feed_url)) as [f|e|]; try discriminate.
  destruct (entries f) as [|en rest].
  { intros H. injection H as <- _. now left. }
  destruct (yt_videoid en) as [vid|]; try discriminate.
  destruct (set_mem (JStr vid) history) eqn:E; cbn [negb].
  { intros H. injection H as <- _. now left. }
  destruct (title en); try discriminate.
  destruct (link en); try discriminate.
  destruct (feed_title f); try discriminate.
  intros H. injection H as <- _. right. eexists. split; [reflexivity | exact E].
Qed.

Lemma poll_feeds_no_raise (env : Env) (history : pyset) (feed_urls : list str) :
  forall new_videos, no_raise (poll_feeds env history feed_urls new_videos).
Proof.
  induction feed_urls as [|feed_url rest IH]; intros new_videos; simpl.
  - apply no_raise_ret.
  - apply no_raise_bind; [|intros nv; apply IH].
    apply no_raise_try. intros e. apply no_raise_handler.
Qed.

(** X1. Whatever the feeds answer, the polling loop lets no exception
    escape, and when it returns, the list it returns is the list it was
    given followed by at most one video per feed URL, each with an id that
    is not in the ledger. *)
Theorem poll_feeds_adds_only_unseen (env : Env) (history : pyset) (feed_urls : list str)
  (new_videos vs : list video) (st st' : St) :
  poll_feeds env history feed_urls new_videos st = (Ret vs, st') ->
  no_raise (poll_feeds env history feed_urls new_videos) /\
  exists added,
    vs = new_videos ++ added /\
    length added <= length feed_urls /\
    Forall (fun v => set_mem (JStr (v_id v)) history = false) added.
Proof.
  intros H. split; [apply poll_feeds_no_raise|].
  revert new_videos st H.
  induction feed_urls as [|feed_url rest IH]; intros new_videos st H.
  - injection H as <- _. exists []. rewrite app_nil_r. auto.
  - simpl in H. unfold bind at 1 in H. unfold try_except in H.
    destruct (poll_feed env history feed_url new_videos st) as [[nv|e|] s1] eqn:E.
    + destruct (IH _ _ H) as (added & -> & L & F).
      destruct (poll_feed_result _ _ _ _ _ _ _ E) as [-> | (v & -> & Hv)].
      * exists added. simpl. auto.
      * exists (v :: added). rewrite <- app_assoc. simpl.
        split; [reflexivity|]. split; [lia|]. now constructor.
    + revert H. cbv [bind log emit ret]. intros H.
      destruct (IH _ _ H) as (added & -> & L & F).
      exists added. simpl. auto.
    + discriminate H.
Qed.

Lemma poll_feeds_adds_only_unseen_witness :
  no_raise (poll_feeds env_same_video [] [u "https://a.example/feed"] []) /\
  exists added,
    [ {| v_id := u "dQw4w9WgXcQ"; v_title := u "Tiny chips";
         v_url := u "https://youtu.be/dQw4w9WgXcQ"; v_channel := u "Tech Daily" |} ]
    = [] ++ added /\
    length added <= length [u "https://a.example/feed"] /\
    Forall (fun v => set_mem (JStr (v_id v)) [] = false) added.
Proof.
  eapply (poll_feeds_adds_only_unseen env_same_video [] [u "https://a.example/feed"] []
            _ st0).
  cbv. reflexivity.
Defined.

(** A feed whose newest entry is complete and new adds that video. *)
Lemma poll_feed_adds (env : Env) (history : pyset) (feed_url : str)
  (new_videos : list video) (st : St) (vid t l c : str) (older : list entry) :
  respond env (clock st) (FeedParse feed_url)
  = Ret (feed_of (full_entry vid t l) older c) ->
  set_mem (JStr vid) history = false ->
  poll_feed env history feed_url new_videos st
  = (Ret (new_videos ++ [{| v_id := vid; v_title := t; v_url := l; v_channel := c |}]),
     tick (Called (FeedParse feed_url)) st).
Proof.
  intros H1 Hm. unfold poll_feed, bind, ext. rewrite H1.
  cbn [entries feed_of full_entry yt_videoid title link feed_title attr].
  unfold ret. rewrite Hm. reflexivity.
Qed.

(** X2. The new videos are filtered against the ledger only, not against
    each other: when two feeds have the same newest video and its id is
    not in the ledger, the polling loop returns that video twice. *)
Theorem poll_feeds_keeps_duplicates (env : Env) (history : pyset) (url1 url2 : str)
  (vid t1 l1 c1 t2 l2 c2 : str) (older1 older2 : list entry) (st : St) :
  respond env (clock st) (FeedParse url1)
  = Ret (feed_of (full_entry vid t1 l1) older1 c1) ->
  respond env (S (clock st)) (FeedParse url2)
  = Ret (feed_of (full_entry vid t2 l2) older2 c2) ->
  set_mem (JStr vid) history = false ->
  fst (poll_feeds env history [url1; url2] [] st)
  = Ret [ {| v_id := vid; v_title := t1; v_url := l1; v_channel := c1 |};
          {| v_id := vid; v_title := t2; v_url := l2; v_channel := c2 |} ].
Proof.
  intros H1 H2 Hm.
  cbn [poll_feeds]. unfold bind at 1. unfold try_except at 1.
  rewrite (poll_feed_adds env history url1 [] st vid t1 l1 c1 older1 H1 Hm).
  unfold bind at 1. unfold try_except at 1.
  rewrite (poll_feed_adds env history url2 _ (tick (Called (FeedParse url1)) st)
             vid t2 l2 c2 older2 H2 Hm).
  reflexivity.
Qed.

Lemma poll_feeds_keeps_duplicates_witness :
  fst (poll_feeds env_same_video [] [u "https://a.example/feed"; u "https://b.example/feed"]
         [] st0)
  = Ret [ {| v_id := u "dQw4w9WgXcQ"; v_title := u "Tiny chips";
             v_url := u "https://youtu.be/dQw4w9WgXcQ"; v_channel := u "Tech Daily" |};
          {| v_id := u "dQw4w9WgXcQ"; v_title := u "Tiny chips";
             v_url := u "https://youtu.be/dQw4w9WgXcQ"; v_channel := u "Tech Daily" |} ].
Proof.
  apply (poll_feeds_keeps_duplicates env_same_video [] (u "https://a.example/feed")
           (u "https://b.example/feed") (u "dQw4w9WgXcQ")
           (u "Tiny chips") (u "https://youtu.be/dQw4w9WgXcQ") (u "Tech Daily")
           (u "Tiny chips") (u "https://youtu.be/dQw4w9WgXcQ") (u "Tech Daily")
           [] [] st0); reflexivity.
Defined.

(** Only the newest entry of a feed is looked at, and its other attributes
    only when it is new: when the id of the newest entry is in the ledger,
    the round adds nothing, whatever the older entries are. *)
Lemma poll_feed_skips_seen (env : Env) (history : pyset) (feed_url : str)
  (new_videos : list video) (st : St) (f : feed) (newest : entry)
  (older : list entry) (vid : str) :
  respond env (clock st) (FeedParse feed_url) = Ret f ->
  entries f = newest :: older ->
  yt_videoid newest = Some vid ->
  set_mem (JStr vid) history = true ->
  poll_feed env history feed_url new_videos st
  = (Ret new_videos, tick (Called (FeedParse feed_url)) st).
Proof.
  intros H1 H2 H3 H4. unfold poll_feed, bind, ext. rewrite H1, H2, H3.
  cbn [attr]. unfold ret. rewrite H4. reflexivity.
Qed.


(** ** Delivery: how the text message and the upload can fail *)

Lemma raise_for_status_spec (url : str) (r : response) (st : St) :
  raise_for_status url r st
  = if rejectedb r then (Raise (http_error url r), st) else (Ret tt, st).
Proof.
  unfold raise_for_status, rejectedb, http_error.
  destruct (400 <=? status_code r) eqn:A; destruct (status_code r <? 500) eqn:B;
    cbn [andb]; try reflexivity.
  - assert (C : (status_code r <? 600) = true).
    { apply Nat.ltb_lt. apply Nat.ltb_lt in B. lia. }
    rewrite C. reflexivity.
  - assert (D : (500 <=? status_code r) = true).
    { apply Nat.leb_le. apply Nat.ltb_ge in B. lia. }
    rewrite D. cbn [andb]. destruct (status_code r <? 600); reflexivity.
  - assert (D : (500 <=? status_code r) = false).
    { apply Nat.leb_gt. apply Nat.ltb_lt in B. lia. }
    rewrite D. reflexivity.
  - assert (D : (status_code r <? 600) = false).
    { apply Nat.ltb_ge. apply Nat.leb_gt in A. apply Nat.ltb_ge in B. lia. }
    rewrite D, andb_false_r. reflexivity.
Qed.

(** X4. When the endpoint answers the Markdown message with an error
    status other than 400 (any other code from 401 to 599),
    [send_to_telegram] returns [False] at once: there is no plain-text
    retry and no voice upload, whatever audio file it was given; the only
    events are the post and the error log. *)
Theorem rejected_text_is_not_retried (env : Env) (telegram_msg : str)
  (audio_file : option str) (st : St) (first : response) :
  respond env (clock st)
    (Post (api_url env (u "sendMessage"))
       (message_data env telegram_msg (JStr (u "Markdown"))) []) = Ret first ->
  rejectedb first = true ->
  status_code first <> 400 ->
  exists st',
    send_to_telegram env telegram_msg audio_file st = (Ret false, st') /\
    clock st' = S (clock st) /\
    trace st' = trace st ++
      [ text_post env telegram_msg;
        Log ERROR (cross_mark ++ u " Telegram error: "
                   ++ http_error (api_url env (u "sendMessage")) first) ].
Proof.
  intros H R N.
  assert (E : (status_code first =? 400) = false) by now apply Nat.eqb_neq.
  unfold send_to_telegram, try_except. cbv zeta.
  unfold bind at 1. unfold ext at 1. rewrite H.
  unfold bind at 1. rewrite E. unfold ret at 1.
  unfold bind at 1. rewrite raise_for_status_spec, R.
  cbv [bind log emit ret]. eexists. split; [reflexivity|].
  cbn [clock trace tick]. split; [reflexivity|].
  rewrite <- app_assoc. reflexivity.
Qed.

Lemma rejected_text_is_not_retried_witness :
  exists st',
    send_to_telegram env_forbidden (u "Chips that think.") (Some STORY_MP3) st0
    = (Ret false, st') /\
    clock st' = S (clock st0) /\
    trace st' = trace st0 ++
      [ text_post env_forbidden (u "Chips that think.");
        Log ERROR (cross_mark ++ u " Telegram error: "
                   ++ http_error (api_url env_forbidden (u "sendMessage"))
                        {| status_code := 403; reason := u "Forbidden" |}) ].
Proof.
  apply (rejected_text_is_not_retried env_forbidden (u "Chips that think.")
           (Some STORY_MP3) st0 {| status_code := 403; reason := u "Forbidden" |}).
  - reflexivity.
  - reflexivity.
  - cbn [status_code]. lia.
Defined.

(** X5. When the endpoint answers the Markdown message with status 400,
    the same message is posted once more without a parse mode, and the
    status of that second answer alone decides: a text-only delivery
    returns [True] exactly when the second status is outside 400 to 599.
    No third post is made. *)
Theorem markdown_retry_decides (env : Env) (telegram_msg : str) (st : St)
  (first final : response) :
  respond env (clock st)
    (Post (api_url env (u "sendMessage"))
       (message_data env telegram_msg (JStr (u "Markdown"))) []) = Ret first ->
  status_code first = 400 ->
  respond env (S (clock st))
    (Post (api_url env (u "sendMessage")) (message_data env telegram_msg JNull) [])
  = Ret final ->
  exists st',
    send_to_telegram env telegram_msg None st = (Ret (negb (rejectedb final)), st') /\
    clock st' = S (S (clock st)) /\
    filter is_delivery (trace st')
    = filter is_delivery (trace st)
      ++ [text_post env telegram_msg; plain_post env telegram_msg].
Proof.
  intros H1 E H2.
  unfold send_to_telegram, try_except. cbv zeta.
  unfold bind at 1. unfold ext at 1. rewrite H1.
  unfold bind at 1. rewrite E. cbn [Nat.eqb].
  replace (400 =? 400) with true by reflexivity.
  unfold bind at 1. unfold log, emit. unfold ext at 1. cbn [clock tick]. rewrite H2.
  unfold bind at 1. rewrite raise_for_status_spec.
  destruct (rejectedb final); cbv [bind emit ret]; cbn [negb];
    eexists; (split; [reflexivity|]); cbn [clock trace tick];
    (split; [reflexivity|]);
    rewrite !filter_app; cbn [filter is_delivery]; rewrite <- !app_assoc;
    reflexivity.
Qed.

Lemma markdown_retry_decides_witness :
  exists st',
    send_to_telegram env_markdown_refused (u "Chips *that* think.") None st0
    = (Ret (negb (rejectedb {| status_code := 200; reason := u "OK" |})), st') /\
    clock st' = S (S (clock st0)) /\
    filter is_delivery (trace st')
    = filter is_delivery (trace st0)
      ++ [text_post env_markdown_refused (u "Chips *that* think.");
          plain_post env_markdown_refused (u "Chips *that* think.")].
Proof.
  apply (markdown_retry_decides env_markdown_refused (u "Chips *that* think.") st0
           {| status_code := 400; reason := u "Bad Request" |}
           {| status_code := 200; reason := u "OK" |}); reflexivity.
Defined.

(** X6. When the text message was accepted and the audio file is there and
    opens, but the upload request itself raises (a broken connection, not
    an HTTP status), [send_to_telegram] returns [False] although the text
    has been posted, and the audio file is not removed. *)
Theorem broken_upload_fails_delivery (env : Env) (telegram_msg path : str) (st : St)
  (after : nat) (e : exn) :
  path <> [] ->
  text_accepted env telegram_msg st after ->
  path_exists env after path = true ->
  respond env (S after) (OpenRb path) = Ret tt ->
  respond env (S (S after)) (voice_call env path) = Raise e ->
  exists st' new,
    send_to_telegram env telegram_msg (Some path) st = (Ret false, st') /\
    trace st' = trace st ++ new /\
    In (text_post env telegram_msg) new /\
    In (Called (voice_call env path)) new /\
    existsb is_unlink new = false.
Proof.
  intros Hp (first & Hf & Hrest) Hex Hopen Hvoice.
  destruct path as [|ch path]; [congruence|].
  unfold voice_call in *.
  unfold send_to_telegram, try_except. cbv zeta.
  unfold bind at 1. unfold ext at 1. rewrite Hf.
  unfold bind at 1.
  destruct (status_code first =? 400) eqn:E400.
  - destruct Hrest as (final & Hfin & Hok & ->).
    unfold bind at 1. unfold log, emit. unfold ext at 1. cbn [clock tick].
    rewrite Hfin.
    unfold bind at 1. rewrite (ok_status_passes _ _ _ Hok).
    unfold bind at 1. cbn [str_truthy].
    unfold bind at 1. unfold exists_ at 1. cbn [clock tick]. rewrite Hex.
    unfold bind at 1. unfold ext at 1. cbn [clock tick]. rewrite Hopen.
    unfold bind at 1. unfold ext at 1. cbn [clock tick]. rewrite Hvoice.
    cbv [ret bind emit]. eexists. eexists. split; [reflexivity|].
    cbn [trace tick]. split; [rewrite <- !app_assoc; reflexivity|].
    unfold text_post. cbn [app In existsb is_unlink]. auto 10.
  - destruct Hrest as (Hok & ->). unfold ret at 1.
    unfold bind at 1. rewrite (ok_status_passes _ _ _ Hok).
    unfold bind at 1. cbn [str_truthy].
    unfold bind at 1. unfold exists_ at 1. cbn [clock tick]. rewrite Hex.
    unfold bind at 1. unfold ext at 1. cbn [clock tick]. rewrite Hopen.
    unfold bind at 1. unfold ext at 1. cbn [clock tick]. rewrite Hvoice.
    cbv [ret bind log emit]. eexists. eexists. split; [reflexivity|].
    cbn [trace tick]. split; [rewrite <- !app_assoc; reflexivity|].
    unfold text_post. cbn [app In existsb is_unlink]. auto 10.
Qed.

Lemma broken_upload_fails_delivery_witness :
  exists st' new,
    send_to_telegram env_upload_breaks (u "Chips that think.") (Some STORY_MP3) st0
    = (Ret false, st') /\
    trace st' = trace st0 ++ new /\
    In (text_post env_upload_breaks (u "Chips that think.")) new /\
    In (Called (voice_call env_upload_breaks STORY_MP3)) new /\
    existsb is_unlink new = false.
Proof.
  apply (broken_upload_fails_delivery env_upload_breaks (u "Chips that think.")
           STORY_MP3 st0 1 (u "Connection aborted.")).
  - discriminate.
  - eexists. split; [reflexivity|]. simpl.
    split; [left; cbn [status_code]; lia | reflexivity].
  - reflexivity.
  - reflexivity.
  - reflexivity.
Defined.


(** ** The ledger: what is written and what is read back *)

Lemma key_eqb_sym (a b : json) : key_eqb a b = key_eqb b a.
Proof.
  destruct a, b; simpl; try reflexivity.
  - now destruct b, b0.
  - apply Z.eqb_sym.
  - destruct (str_eqb s s0) eqn:E.
    + apply str_eqb_eq in E. subst. now rewrite str_eqb_refl.
    + destruct (str_eqb s0 s) eqn:E'; [|reflexivity].
      apply str_eqb_eq in E'. subst. now rewrite str_eqb_refl in E.
Qed.

(** Python's [==] on the hashable JSON values is transitive. *)
Lemma key_eqb_trans (a b c : json) :
  key_eqb a b = true -> key_eqb b c = true -> key_eqb a c = true.
Proof.
  destruct a, b; simpl; try discriminate; destruct c; simpl; try discriminate;
    intros H1 H2;
    repeat match goal with
           | H : Bool.eqb _ _ = true |- _ => apply Bool.eqb_prop in H; subst
           | H : Z.eqb _ _ = true |- _ => apply Z.eqb_eq in H; subst
           | H : str_eqb _ _ = true |- _ => apply str_eqb_eq in H; subst
           end;
    try reflexivity;
    try apply Z.eqb_refl; try apply str_eqb_refl;
    try (repeat match goal with b : bool |- _ => destruct b end;
         simpl in *; congruence || reflexivity).
Qed.

Lemma set_mem_add (x y : json) (s : pyset) :
  set_mem x (set_add y s) = key_eqb x y || set_mem x s.
Proof.
  unfold set_add. destruct (set_mem y s) eqn:E.
  - destruct (key_eqb x y) eqn:K; [|reflexivity]. simpl.
    unfold set_mem in *. apply existsb_exists in E. destruct E as (z & Hz & Kz).
    apply existsb_exists. exists z. split; [exact Hz|].
    now apply (key_eqb_trans x y z).
  - unfold set_mem. rewrite existsb_app. simpl. rewrite orb_false_r. apply orb_comm.
Qed.

(** [set(l)] on hashable values returns, and holds what [l] holds. *)
Lemma set_from_mem (l : list json) :
  forall acc, forallb hashable l = true ->
  exists s, set_from acc l = Ret s /\
            forall x, set_mem x s = set_mem x acc || existsb (key_eqb x) l.
Proof.
  induction l as [|y l IH]; intros acc H.
  - exists acc. split; [reflexivity|]. intros x. now rewrite orb_false_r.
  - simpl in H. apply andb_true_iff in H. destruct H as [Hy Hl].
    destruct (IH (set_add y acc) Hl) as (s & Hs & Hm).
    exists s. split.
    + destruct y; try discriminate Hy; exact Hs.
    + intros x. rewrite Hm, set_mem_add. simpl.
      destruct (key_eqb x y), (set_mem x acc), (existsb (key_eqb x) l); reflexivity.
Qed.

Lemma last_n_incl (n : nat) (l : list json) (x : json) :
  In x (last_n n l) -> In x l.
Proof.
  unfold last_n. intros H. rewrite <- (firstn_skipn (length l - n) l).
  apply in_or_app. now right.
Qed.

Lemma last_n_length (n : nat) (l : list json) :
  length (last_n n l) = Nat.min n (length l).
Proof. unfold last_n. rewrite length_skipn. lia. Qed.

(** X7. Whatever the size of the ledger, [save_history] asks for one write
    of the ledger file, and the list it writes never has more than 500
    ids: its length is the smaller of 500 and the size of the ledger, and
    every id in it is in the ledger.  No exception escapes
    [save_history], also when the write fails. *)
Theorem saved_list_is_capped (env : Env) (history : pyset) (st : St) :
  Permutation (set_iter env history) history ->
  no_raise (save_history env history) /\
  exists written rest,
    trace (snd (save_history env history st))
    = trace st ++ Called (WriteText HISTORY_FILE (ledger_json written)) :: rest /\
    length written = Nat.min 500 (length history) /\
    (forall x, In x written -> In x history) /\
    existsb is_ledger_write rest = false.
Proof.
  intros P. split.
  { apply no_raise_try. intros e. apply no_raise_emit. }
  pose proof (Permutation_length P) as L.
  exists (if 500 <? length (set_iter env history)
          then last_n 500 (set_iter env history) else set_iter env history).
  assert (T : exists rest,
             trace (snd (save_history env history st))
             = trace st ++ Called (WriteText HISTORY_FILE (saved env history)) :: rest /\
             existsb is_ledger_write rest = false).
  { unfold save_history, try_except, write_history, saved. cbv zeta.
    destruct (respond env (clock st) _) as [[]|e|]; cbv [log emit]; cbn [snd trace tick].
    - exists []. auto.
    - eexists. rewrite <- app_assoc. split; reflexivity.
    - exists []. auto. }
  destruct T as (rest & T & W). exists rest.
  split; [exact T|]. split; [|split; [|exact W]].
  - destruct (500 <? length (set_iter env history)) eqn:E.
    + rewrite last_n_length. apply Nat.ltb_lt in E. lia.
    + apply Nat.ltb_ge in E. lia.
  - intros x Hx. apply (Permutation_in x P).
    destruct (500 <? length (set_iter env history)); [|exact Hx].
    now apply last_n_incl in Hx.
Qed.

Lemma saved_list_is_capped_witness :
  no_raise (save_history env_disk three_ids) /\
  exists written rest,
    trace (snd (save_history env_disk three_ids st0))
    = trace st0 ++ Called (WriteText HISTORY_FILE (ledger_json written)) :: rest /\
    length written = Nat.min 500 (length three_ids) /\
    (forall x, In x written -> In x three_ids) /\
    existsb is_ledger_write rest = false.
Proof.
  apply (saved_list_is_capped env_disk three_ids st0).
  apply Permutation_refl.
Defined.

(** X8. Save, then load: when the ledger has at most 500 hashable ids and
    the write succeeds, [load_history] on the file that [save_history]
    left returns a set with exactly the members of the ledger, whatever
    the order in which the interpreter iterated it. *)
Theorem saved_ledger_loads_back (env : Env) (history : pyset) (st : St) :
  Permutation (set_iter env history) history ->
  forallb hashable history = true ->
  length history <= 500 ->
  respond env (clock st) (WriteText HISTORY_FILE (saved env history)) = Ret tt ->
  exists st1 loaded,
    save_history env history st = (Ret tt, st1) /\
    load_history st1 = (Ret loaded, st1) /\
    forall x, set_mem x loaded = set_mem x history.
Proof.
  intros P Hh L W.
  destruct (save_history_at env history st W) as (st1 & Hs & Hf).
  pose proof (Permutation_length P) as PL.
  assert (E : saved env history = ledger_json (set_iter env history)).
  { unfold saved, ledger_json.
    replace (500 <? length (set_iter env history)) with false; [reflexivity|].
    symmetry. apply Nat.ltb_ge. lia. }
  destruct (set_from_mem (set_iter env history) []) as (loaded & Hl & Hm).
  { rewrite (forallb_perm hashable _ _ P). exact Hh. }
  exists st1, loaded. split; [exact Hs|]. split.
  - unfold load_history. rewrite Hf, E. unfold ledger_json, try_except.
    cbv [bind read_json ret lift get_videos lookup iterate].
    rewrite str_eqb_refl. rewrite Hl. reflexivity.
  - intros x. rewrite Hm. simpl. unfold set_mem. now apply existsb_perm.
Qed.

Lemma saved_ledger_loads_back_witness :
  exists st1 loaded,
    save_history env_newest_first three_ids st0 = (Ret tt, st1) /\
    load_history st1 = (Ret loaded, st1) /\
    forall x, set_mem x loaded = set_mem x three_ids.
Proof.
  apply (saved_ledger_loads_back env_newest_first three_ids st0).
  - symmetry. apply Permutation_rev.
  - reflexivity.
  - cbn. lia.
  - reflexivity.
Defined.


Lemma set_from_unhashable (l : list json) :
  forall acc, forallb hashable l = false -> exists e, set_from acc l = Raise e.
Proof.
  induction l as [|y l IH]; intros acc H; [discriminate|].
  simpl in H. destruct y; simpl in *; try (apply IH; exact H); eauto.
Qed.

Lemma set_from_length (l : list json) :
  forall acc s, set_from acc l = Ret s -> length s <= length acc + length l.
Proof.
  induction l as [|y l IH]; intros acc s H; simpl in *.
  - injection H as <-. lia.
  - assert (L : length (set_add y acc) <= S (length acc)).
    { unfold set_add. destruct (set_mem y acc); [lia|]. rewrite length_app. simpl. lia. }
    destruct y; try discriminate H; apply IH in H; lia.
Qed.

(** X9. A ledger file that holds an object whose [videos] is a list of
    hashable ids loads without a warning into a set whose members are
    exactly those ids; the set is no larger than the list. *)
Theorem load_history_reads_ids (st : St) (kv : list (str * json)) (ids : list json) :
  history_file st = Holds (JObj kv) ->
  lookup (u "videos") kv = Some (JArr ids) ->
  forallb hashable ids = true ->
  exists loaded,
    load_history st = (Ret loaded, st) /\
    (forall x, set_mem x loaded = existsb (key_eqb x) ids) /\
    length loaded <= length ids.
Proof.
  intros Hf Hk Hh.
  destruct (set_from_mem ids [] Hh) as (loaded & Hl & Hm).
  exists loaded. split; [|split].
  - unfold load_history. rewrite Hf. unfold try_except.
    cbv [bind read_json ret lift get_videos iterate]. rewrite Hk, Hl. reflexivity.
  - intros x. now rewrite Hm.
  - apply set_from_length in Hl. simpl in Hl. exact Hl.
Qed.

Lemma load_history_reads_ids_witness :
  exists loaded,
    load_history (st_ledger (ledger_json (JStr (u "a1") :: three_ids)))
    = (Ret loaded, st_ledger (ledger_json (JStr (u "a1") :: three_ids))) /\
    (forall x, set_mem x loaded = existsb (key_eqb x) (JStr (u "a1") :: three_ids)) /\
    length loaded <= length (JStr (u "a1") :: three_ids).
Proof.
  apply (load_history_reads_ids (st_ledger (ledger_json (JStr (u "a1") :: three_ids)))
           [(u "videos", JArr (JStr (u "a1") :: three_ids))]); reflexivity.
Defined.

(** X10. A ledger file that decodes but has the wrong shape is dropped as
    a whole: when the value is not an object, or when one element of its
    [videos] list is itself a list or an object, [load_history] logs one
    warning and returns the empty set, whatever other ids the file holds. *)
Theorem load_history_drops_misshapen (st : St) (j : json) :
  history_file st = Holds j ->
  is_dict j = false \/
  (exists kv ids, j = JObj kv /\ lookup (u "videos") kv = Some (JArr ids) /\
                  forallb hashable ids = false) ->
  exists e,
    load_history st
    = (Ret [], snd (log WARNING (u "Could not load history: " ++ e) st)).
Proof.
  intros Hf [Hd | (kv & ids & -> & Hk & Hh)].
  - exists (u "'" ++ type_name j ++ u "' object has no attribute 'get'").
    unfold load_history. rewrite Hf. unfold try_except.
    destruct j; try discriminate Hd; reflexivity.
  - destruct (set_from_unhashable ids [] Hh) as (e & He). exists e.
    unfold load_history. rewrite Hf. unfold try_except.
    cbv [bind read_json ret lift get_videos iterate]. rewrite Hk, He. reflexivity.
Qed.

Lemma load_history_drops_misshapen_witness :
  exists e,
    load_history (st_ledger (ledger_json [JStr (u "a1"); JArr [JStr (u "b2")]]))
    = (Ret [], snd (log WARNING (u "Could not load history: " ++ e)
                      (st_ledger (ledger_json [JStr (u "a1"); JArr [JStr (u "b2")]])))).
Proof.
  apply (load_history_drops_misshapen
           (st_ledger (ledger_json [JStr (u "a1"); JArr [JStr (u "b2")]]))
           (ledger_json [JStr (u "a1"); JArr [JStr (u "b2")]])).
  - reflexivity.
  - right. eexists. eexists. split; [reflexivity|]. split; reflexivity.
Defined.

(** ** The feed configuration *)

Lemma collect_urls_objects (items : list json) :
  forallb is_dict items = true -> collect_urls items = Ret (url_values items).
Proof.
  induction items as [|item r IH]; intros H; [reflexivity|].
  simpl in H. apply andb_true_iff in H. destruct H as [Hd Hr].
  destruct item; try discriminate Hd.
  simpl. destruct (lookup (u "url") kv) eqn:E.
  - rewrite (IH Hr). reflexivity.
  - exact (IH Hr).
Qed.

(** X11. A feed configuration that is a non-empty list of objects gives
    the values of their [url] keys, in order; an object without that key is
    passed over without a warning. *)
Theorem load_feeds_takes_urls (st : St) (items : list json) :
  feeds_file st = Holds (JArr items) ->
  items <> [] ->
  forallb is_dict items = true ->
  load_feeds st = (Ret (JArr (url_values items)), st).
Proof.
  intros Hf Hn Hd. unfold load_feeds, try_except. rewrite Hf.
  destruct items as [|first r]; [congruence|].
  assert (Hfirst : is_dict first = true).
  { simpl in Hd. apply andb_true_iff in Hd. now destruct Hd. }
  cbv [bind read_json ret lift py_truthy getitem0 iterate].
  rewrite Hfirst, (collect_urls_objects _ Hd). reflexivity.
Qed.

Lemma load_feeds_takes_urls_witness :
  load_feeds (st_feeds (JArr feeds_objects))
  = (Ret (JArr (url_values feeds_objects)), st_feeds (JArr feeds_objects)).
Proof.
  apply (load_feeds_takes_urls (st_feeds (JArr feeds_objects)) feeds_objects).
  - reflexivity.
  - discriminate.
  - reflexivity.
Defined.

(** X12. From a feed list whose items are all strings, the orchestrator
    takes each string trimmed, in order, and drops those that are blank:
    no URL it polls is empty. *)
Theorem feed_urls_are_trimmed (fs : list str) :
  feed_urls_of (JArr (map JStr fs))
  = Ret (filter str_truthy (map strip fs)) /\
  Forall (fun url => url <> []) (filter str_truthy (map strip fs)).
Proof.
  split.
  - unfold feed_urls_of. cbn [iterate].
    induction fs as [|f r IH]; [reflexivity|].
    simpl. simpl in IH. rewrite IH. destruct (str_truthy (strip f)); reflexivity.
  - apply Forall_forall. intros x Hx. apply filter_In in Hx. destruct Hx as [_ Hx].
    intros ->. discriminate Hx.
Qed.

(** X13. A feed configuration that decodes to a value the loader keeps but
    the orchestrator cannot iterate as strings (such as [null], [0],
    [false], or a list of strings with a number in it) does not degrade to
    an empty feed list: the loader returns the value as it is, and [main]
    raises before it polls any feed; the exception escapes the script. *)
Theorem misshapen_feeds_abort_main (env : Env) (fuel : nat) (st : St) (j : json)
  (e : exn) :
  feeds_file st = Holds j ->
  py_truthy j = false \/ (exists x, getitem0 j = Ret x /\ is_dict x = false) ->
  feed_urls_of j = Raise e ->
  exists st',
    run_script env fuel st = (Raise e, st') /\
    clock st' = clock st /\
    history_file st' = history_file st.
Proof.
  intros Hf Hk He.
  assert (L : load_feeds st = (Ret j, st)).
  { unfold load_feeds, try_except. rewrite Hf.
    cbv [bind read_json ret lift].
    destruct Hk as [Ht | (x & Hx & Hd)].
    - rewrite Ht. reflexivity.
    - destruct (py_truthy j); [|reflexivity]. rewrite Hx, Hd. reflexivity. }
  unfold run_script. unfold bind at 1. rewrite L.
  unfold main. unfold bind at 1. unfold log, emit.
  unfold bind at 1.
  destruct (load_history_returns
              {| clock := clock st;
                 trace := trace st ++ [Log INFO ([128640]%N ++ u " Starting AI News Anchor...")];
                 history_file := history_file st; feeds_file := feeds_file st |})
    as (s & st1 & Hl).
  rewrite Hl. unfold bind at 1. unfold lift. rewrite He.
  exists st1. split; [reflexivity|].
  assert (K : clock st1 = clock st /\ history_file st1 = history_file st).
  { revert Hl. unfold load_history. cbn [history_file].
    destruct (history_file st) eqn:F.
    - intros H. injection H as _ <-. cbn. auto.
    - cbv [try_except bind read_json raise log emit ret].
      intros H. injection H as _ <-. cbn. auto.
    - unfold try_except.
      match goal with |- context [match ?m ?s0 with _ => _ end] =>
        destruct (m s0) as [[a|e'|] s2] eqn:E end.
      + intros H. injection H as _ <-.
        revert E. cbv [bind read_json ret lift].
        destruct (get_videos j0); try discriminate.
        destruct (iterate a0); try discriminate.
        destruct (set_from [] a1); try discriminate.
        intros H. injection H as _ <-. cbn. auto.
      + cbv [bind log emit ret]. intros H. injection H as _ <-.
        revert E. cbv [bind read_json ret lift].
        destruct (get_videos j0); try discriminate;
          [destruct (iterate a); try discriminate;
           [destruct (set_from [] a0); try discriminate|]|];
          intros H; injection H as _ <-; cbn; auto.
      + discriminate. }
  exact K.
Qed.

Lemma misshapen_feeds_abort_main_witness :
  exists st',
    run_script env_quota 3 (st_feeds JNull)
    = (Raise (u "'NoneType' object is not iterable"), st') /\
    clock st' = clock (st_feeds JNull) /\
    history_file st' = history_file (st_feeds JNull).
Proof.
  apply (misshapen_feeds_abort_main env_quota 3 (st_feeds JNull) JNull).
  - reflexivity.
  - left. reflexivity.
  - reflexivity.
Defined.


(** ** The orchestrator: the cycle as a whole *)

Lemma process_videos_no_raise (env : Env) (fuel : nat) (new_videos : list video) :
  forall history, no_raise (process_videos env fuel history new_videos).
Proof.
  induction new_videos as [|v rest IH]; intros history; simpl.
  - apply no_raise_ret.
  - apply no_raise_bind; [apply process_video_no_raise | intros h; apply IH].
Qed.

(** X14. Once the feed list has given its URLs, no exception escapes
    [main]: a feed that cannot be parsed and an item whose stage fails are
    logged and passed over, and the cycle goes on. *)
Theorem main_contains_failures (env : Env) (fuel : nat) (YOUTUBE_FEEDS : json)
  (feed_urls : list str) :
  feed_urls_of YOUTUBE_FEEDS = Ret feed_urls ->
  no_raise (main env fuel YOUTUBE_FEEDS).
Proof.
  intros H. unfold main.
  apply no_raise_bind; [apply no_raise_emit|]. intros _.
  apply no_raise_bind.
  { intros st e st' E. destruct (load_history_returns st) as (s & s1 & L).
    rewrite L in E. discriminate E. }
  intros history.
  apply no_raise_bind.
  { rewrite H. intros st e st'. discriminate. }
  intros urls.
  apply no_raise_bind; [apply poll_feeds_no_raise|]. intros new_videos.
  apply no_raise_bind; [apply no_raise_emit|]. intros _.
  apply no_raise_bind; [apply process_videos_no_raise|]. intros h.
  apply no_raise_bind; [apply no_raise_emit | intros _; apply no_raise_ret].
Qed.

Lemma main_contains_failures_witness :
  no_raise (main env_quota 3 (JArr [JStr (u "https://a.example/feed")])).
Proof.
  apply (main_contains_failures env_quota 3 (JArr [JStr (u "https://a.example/feed")])
           [u "https://a.example/feed"]).
  reflexivity.
Defined.

(** What a round can do to the ledger: nothing, or add the id of its item. *)
Lemma process_video_ledger (env : Env) (fuel : nat) (history h' : pyset)
  (video : video) (st st' : St) :
  process_video env fuel history video st = (Ret h', st') ->
  h' = history \/ h' = set_add (JStr (v_id video)) history.
Proof.
  unfold process_video. unfold bind at 1. unfold log, emit.
  unfold bind at 1.
  destruct (get_transcript env fuel (v_id video) _) as [[[[|x t]|]|e|] s1];
    try discriminate; try (intros H; injection H as <- _; now left).
  unfold bind at 1.
  destruct (analyze_video env (x :: t) _ _ _ s1) as [[[c|]|e|] s2];
    try discriminate; try (intros H; injection H as <- _; now left).
  unfold bind at 1.
  destruct (generate_audio env (podcast c) s2) as [[audio_ok|e|] s3]; try discriminate.
  unfold bind at 1.
  destruct (send_to_telegram env (telegram c) _ s3) as [[[|]|e|] s4];
    try discriminate; try (intros H; injection H as <- _; now left).
  cbv zeta. unfold bind at 1.
  destruct (save_history env _ s4) as [[[]|e|] s5]; try discriminate.
  cbv [bind sleep emit ret]. intros H. injection H as <- _. now right.
Qed.

(** X15. The cycle only ever appends to the ledger: when the processing
    loop returns, the ledger it hands on is the ledger it was given
    followed by ids of videos of the batch, so no id is ever taken out
    of the ledger in memory. *)
Theorem process_videos_appends_ids (env : Env) (fuel : nat) (new_videos : list video)
  (history h' : pyset) (st st' : St) :
  process_videos env fuel history new_videos st = (Ret h', st') ->
  exists added,
    h' = history ++ added /\
    length added <= length new_videos /\
    Forall (fun x => exists v, In v new_videos /\ x = JStr (v_id v)) added.
Proof.
  revert history st.
  induction new_videos as [|v rest IH]; intros history st H.
  - injection H as <- _. exists []. rewrite app_nil_r. auto.
  - simpl in H. unfold bind in H.
    destruct (process_video env fuel history v st) as [[h1|e|] s1] eqn:E;
      try discriminate.
    destruct (IH _ _ H) as (added & -> & L & F).
    assert (F' : Forall (fun x => exists v0, In v0 (v :: rest) /\ x = JStr (v_id v0)) added).
    { eapply Forall_impl; [|exact F]. intros a (v0 & I & ->). exists v0. split; [now right|reflexivity]. }
    destruct (process_video_ledger _ _ _ _ _ _ _ E) as [-> | ->].
    + exists added. simpl. auto.
    + unfold set_add. destruct (set_mem (JStr (v_id v)) history).
      * exists added. simpl. auto.
      * exists (JStr (v_id v) :: added). rewrite <- app_assoc.
        split; [reflexivity|]. split; [simpl; lia|].
        constructor; [|exact F']. exists v. split; [now left | reflexivity].
Qed.

Lemma process_videos_appends_ids_witness :
  exists added,
    [JStr (u "a1"); JStr (u "dQw4w9WgXcQ")] = [JStr (u "a1")] ++ added /\
    length added <= length [demo_video] /\
    Forall (fun x => exists v, In v [demo_video] /\ x = JStr (v_id v)) added.
Proof.
  eapply (process_videos_appends_ids env_all_well 3 [demo_video] [JStr (u "a1")] _ st0).
  vm_compute. reflexivity.
Defined.


Lemma wfd_no_write (a : list event) (seen : bool) :
  existsb is_ledger_write a = false ->
  writes_follow_delivery seen a = true /\ filter is_ledger_write a = [].
Proof.
  revert seen. induction a as [|ev a IH]; intros seen H; [auto|].
  simpl in H. apply orb_false_iff in H. destruct H as [H1 H2].
  simpl. rewrite H1. now apply IH.
Qed.

Lemma wfd_app (a b : list event) (seen : bool) :
  existsb is_ledger_write a = false ->
  writes_follow_delivery seen (a ++ b)
  = writes_follow_delivery (seen || existsb is_delivery a) b.
Proof.
  revert seen. induction a as [|ev a IH]; intros seen H.
  - simpl. now rewrite orb_false_r.
  - simpl in H. apply orb_false_iff in H. destruct H as [H1 H2].
    simpl. rewrite H1, (IH _ H2), orb_assoc. reflexivity.
Qed.

Lemma early_exit_has_no_write (st s : St) :
  extends not_write st s ->
  exists new,
    trace s = trace st ++ new /\
    writes_follow_delivery false new = true /\
    length (filter is_ledger_write new) <= 1.
Proof.
  intros (new & T & O & _). exists new. split; [exact T|].
  destruct (wfd_no_write new false (no_write_in new O)) as [W F].
  rewrite W, F. simpl. auto.
Qed.

(** The events of [save_history]: the write, and the error log if it
    raised. *)
Lemma save_history_trace (env : Env) (history : pyset) (st : St) :
  exists rest,
    trace (snd (save_history env history st))
    = trace st ++ Called (WriteText HISTORY_FILE (saved env history)) :: rest /\
    existsb is_ledger_write rest = false.
Proof.
  unfold save_history, try_except, write_history, saved. cbv zeta.
  destruct (respond env (clock st) _) as [[]|e|]; cbv [log emit]; cbn [snd trace tick].
  - exists []. auto.
  - eexists. rewrite <- app_assoc. split; reflexivity.
  - exists []. auto.
Qed.

(** X16. In every round of the processing loop, whatever the world
    answers, the ledger file is written at most once, and never before a
    request to the messaging endpoint has been made in that round. *)
Theorem ledger_written_after_delivery (env : Env) (fuel : nat) (history : pyset)
  (video : video) (st : St) :
  exists new,
    trace (snd (process_video env fuel history video st)) = trace st ++ new /\
    writes_follow_delivery false new = true /\
    length (filter is_ledger_write new) <= 1.
Proof.
  destruct (process_video_start env fuel history video st) as [E0 P]. cbv zeta in E0, P.
  apply (extends_weaken quiet_event not_write _ _ quiet_not_write) in E0.
  rewrite P. clear P.
  set (s0 := snd (log INFO ([10; 127916]%N ++ u " Processing: " ++ v_title video) st)) in *.
  unfold bind at 1.
  destruct (get_transcript env fuel (v_id video) s0) as [r1 s1] eqn:H1.
  assert (E1 : extends not_write st s1).
  { eapply extends_trans; [exact E0|].
    apply (extends_weaken quiet_event not_write _ _ quiet_not_write).
    exact (get_transcript_quiet _ _ _ _ _ _ H1). }
  destruct r1 as [[[|x t]|]|e|]; cbn [snd ret]; try (now apply early_exit_has_no_write).
  unfold bind at 1.
  destruct (analyze_video env (x :: t) (v_channel video) (v_title video) (v_url video) s1)
    as [r2 s2] eqn:H2.
  assert (E2 : extends not_write st s2).
  { eapply extends_trans; [exact E1|].
    apply (extends_weaken quiet_event not_write _ _ quiet_not_write).
    exact (analyze_video_quiet _ _ _ _ _ _ _ _ H2). }
  destruct r2 as [[c|]|e|]; cbn [snd ret]; try (now apply early_exit_has_no_write).
  unfold bind at 1.
  destruct (generate_audio env (podcast c) s2) as [r3 s3] eqn:H3.
  assert (E3 : extends not_write st s3).
  { eapply extends_trans; [exact E2|].
    apply (extends_weaken quiet_event not_write _ _ quiet_not_write).
    exact (generate_audio_quiet _ _ _ _ _ H3). }
  destruct r3 as [audio_ok|e|]; cbn [snd]; try (now apply early_exit_has_no_write).
  unfold bind at 1.
  destruct (send_to_telegram env (telegram c) (if audio_ok then Some STORY_MP3 else None) s3)
    as [r4 s4] eqn:H4.
  pose proof (send_to_telegram_no_write _ _ _ _ _ _ H4) as E34.
  assert (E4 : extends not_write st s4) by (eapply extends_trans; eassumption).
  destruct r4 as [[|]|e|]; cbn [snd ret]; try (now apply early_exit_has_no_write).
  destruct E3 as (n3 & T3 & O3 & _). destruct E34 as (n4 & T4 & O4 & _).
  destruct (send_to_telegram_posts_text _ _ _ _ _ _ H4) as (rest4 & T4').
  assert (En : n4 = text_post env (telegram c) :: rest4).
  { rewrite T4 in T4'. now apply app_inv_head in T4'. }
  assert (D4 : existsb is_delivery n4 = true) by (rewrite En; reflexivity).
  cbv zeta. unfold bind at 1.
  destruct (save_history_trace env (set_add (JStr (v_id video)) history) s4)
    as (rest5 & T5 & W5).
  destruct (save_history env (set_add (JStr (v_id video)) history) s4) as [r5 s5].
  cbn [snd] in T5.
  assert (Shape : forall tail,
             existsb is_ledger_write tail = false ->
             writes_follow_delivery false
               (n3 ++ n4 ++ (Called (WriteText HISTORY_FILE
                                       (saved env (set_add (JStr (v_id video)) history)))
                             :: rest5) ++ tail) = true /\
             length (filter is_ledger_write
                       (n3 ++ n4 ++ (Called (WriteText HISTORY_FILE
                                               (saved env (set_add (JStr (v_id video)) history)))
                                     :: rest5) ++ tail)) <= 1).
  { intros tail Wt.
    assert (W5t : existsb is_ledger_write (rest5 ++ tail) = false)
      by now rewrite existsb_app, W5, Wt.
    destruct (wfd_no_write (rest5 ++ tail) true W5t) as [A B].
    split.
    - rewrite (wfd_app n3 _ false (no_write_in n3 O3)).
      rewrite (wfd_app n4 _ _ (no_write_in n4 O4)), D4, orb_true_r.
      cbn [app writes_follow_delivery is_ledger_write andb]. exact A.
    - rewrite !filter_app.
      rewrite (proj2 (wfd_no_write n3 false (no_write_in n3 O3))).
      rewrite (proj2 (wfd_no_write n4 false (no_write_in n4 O4))).
      cbn [app filter is_ledger_write]. rewrite <- filter_app, B. simpl. lia. }
  destruct r5 as [[]|e|].
  - cbv [bind log sleep emit ret]. cbn [snd trace].
    eexists. split; [|apply (Shape [Log INFO ([9989]%N ++ u " Delivered: " ++ v_title video);
                                    Sleep (Seconds 2)]); reflexivity].
    rewrite T5, T4, T3, <- !app_assoc. reflexivity.
  - cbn [snd]. eexists. split; [|apply (Shape []); reflexivity].
    rewrite T5, T4, T3, <- !app_assoc. cbn [app]. rewrite app_nil_r. reflexivity.
  - cbn [snd]. eexists. split; [|apply (Shape []); reflexivity].
    rewrite T5, T4, T3, <- !app_assoc. cbn [app]. rewrite app_nil_r. reflexivity.
Qed.


(** ** The third method: polling and cleanup *)

(** X17. The wait for the uploaded file ends as soon as a poll shows a
    state other than PROCESSING: when the next polls are answered by
    [waiting] (all still processing) and then by [final] (not
    processing), the loop returns [final] after exactly one poll per
    answer, each preceded by a pause of two seconds, provided the rounds
    the model follows are at least as many. *)
Theorem wait_processing_ends (env : Env) (waiting : list remote_file)
  (final : remote_file) :
  forall (fuel : nat) (uploaded_file : remote_file) (st : St),
    is_processing uploaded_file = true ->
    forallb is_processing waiting = true ->
    is_processing final = false ->
    answers env (clock st) uploaded_file (waiting ++ [final]) ->
    length waiting < fuel ->
    exists st' new,
      wait_processing env fuel uploaded_file st = (Ret final, st') /\
      trace st' = trace st ++ new /\
      clock st' = clock st + S (length waiting) /\
      slept new = 2 * S (length waiting).
Proof.
  induction waiting as [|g waiting IH]; intros fuel f st Hf Hw Hfin Ha Hfuel;
    (destruct fuel as [|k]; [simpl in Hfuel; lia|]).
  - destruct Ha as [Ha _].
    cbn [wait_processing]. unfold is_processing in Hf. rewrite Hf.
    unfold bind at 1. unfold sleep, emit. unfold bind at 1. unfold ext at 1.
    cbn [clock]. rewrite Ha.
    destruct k; cbn [wait_processing]; unfold is_processing in Hfin; rewrite Hfin;
      (eexists; eexists; split; [reflexivity|]; cbn [trace clock tick];
       split; [rewrite <- app_assoc; reflexivity|];
       split; [simpl length; lia | reflexivity]).
  - simpl in Hw. apply andb_true_iff in Hw. destruct Hw as [Hg Hw].
    destruct Ha as [Ha Hrest].
    cbn [wait_processing]. unfold is_processing in Hf. rewrite Hf.
    unfold bind at 1. unfold sleep, emit. unfold bind at 1. unfold ext at 1.
    cbn [clock]. rewrite Ha.
    match goal with |- context [wait_processing env k g ?s] =>
      destruct (IH k g s Hg Hw Hfin) as (st' & new & Hr & Ht & Hc & Hs) end.
    + cbn [clock tick]. exact Hrest.
    + simpl in Hfuel. lia.
    + rewrite Hr. eexists. eexists. split; [reflexivity|].
      rewrite Ht, Hc. cbn [trace clock tick]. rewrite <- !app_assoc.
      split; [reflexivity|]. split; [simpl; lia|].
      cbn [app slept]. rewrite Hs. simpl. lia.
Qed.

Lemma wait_processing_ends_witness :
  exists st' new,
    wait_processing env_slow_backend 5 (file_in (u "PROCESSING")) st0
    = (Ret (file_in (u "ACTIVE")), st') /\
    trace st' = trace st0 ++ new /\
    clock st' = clock st0 + 3 /\
    slept new = 2 * 3.
Proof.
  apply (wait_processing_ends env_slow_backend
           [file_in (u "PROCESSING"); file_in (u "PROCESSING")] (file_in (u "ACTIVE"))
           5 (file_in (u "PROCESSING")) st0).
  - reflexivity.
  - reflexivity.
  - reflexivity.
  - cbn. repeat split.
  - cbn. lia.
Defined.


Lemma try_models_no_delete (env : Env) (p : payload) (models : list str) :
  adds_only not_delete (try_models env models p).
Proof.
  induction models as [|m rest IH]; simpl; [apply adds_only_ret|].
  unfold on_model_error, log, sleep. steps; exact IH.
Qed.

Lemma generate_with_fallback_no_delete (env : Env) (p : payload) :
  adds_only not_delete (generate_with_fallback env p).
Proof.
  unfold generate_with_fallback, log.
  apply adds_only_bind; [apply adds_only_emit; reflexivity|]. intros _.
  apply adds_only_bind; [apply try_models_no_delete|]. intros r. steps.
Qed.

Lemma wait_processing_no_delete (env : Env) (fuel : nat) :
  forall f, adds_only not_delete (wait_processing env fuel f).
Proof.
  induction fuel as [|k IH]; intros f; simpl; unfold sleep; steps. apply IH.
Qed.

Lemma no_delete_in (l : list event) :
  forallb not_delete l = true -> existsb is_remote_delete l = false.
Proof.
  induction l as [|ev l IH]; simpl; [reflexivity|]. intros H.
  apply andb_true_iff in H. destruct H as [H1 H2].
  unfold not_delete in H1. apply negb_true_iff in H1. rewrite H1. now apply IH.
Qed.

(** X18. The cleanup of the third method is best effort, in this order:
    local file, then remote file.  Whatever the number of polls the upload
    needed and whichever candidate model answered, if any: when removing
    the local audio file raises, the remote file is never deleted, and
    what the fallback generator returned is returned all the same. *)
Theorem failed_cleanup_keeps_transcript (env : Env) (fuel : nat) (video_id : str)
  (st : St) (f f' : remote_file) (s_wait : St) (transcript_text : option str)
  (s_gen : St) (e : exn) :
  respond env (clock st) ImportYtDlp = Ret tt ->
  respond env (1 + clock st)
    (YdlDownload (AudioOpts (u "audio_" ++ video_id)) (u "https://youtu.be/" ++ video_id))
  = Ret tt ->
  path_exists env (2 + clock st) (audio_file_of video_id) = true ->
  respond env (3 + clock st) (UploadFile (audio_file_of video_id)) = Ret f ->
  wait_processing env fuel f (after_upload env video_id st) = (Ret f', s_wait) ->
  generate_with_fallback env (transcribe_payload f') s_wait
  = (Ret transcript_text, s_gen) ->
  respond env (clock s_gen) (OsRemove (audio_file_of video_id)) = Raise e ->
  exists st' new,
    method3 env fuel video_id st = (Ret transcript_text, st') /\
    trace st' = trace st ++ new /\
    existsb is_os_remove new = true /\
    existsb is_remote_delete new = false.
Proof.
  intros H0 H1 H2 H3 Hw Hg H5.
  cbn [Nat.add] in H1, H2, H3.
  destruct (wait_processing_no_delete env fuel f _ _ _ Hw) as (nw & Tw & Ow & _).
  destruct (generate_with_fallback_no_delete env _ _ _ _ Hg) as (ng & Tg & Og & _).
  unfold audio_file_of, transcribe_payload in *.
  unfold method3. unfold bind at 1. unfold ext at 1. rewrite H0.
  unfold bind at 1. unfold log, emit. cbv zeta.
  unfold bind at 1. unfold ext at 1. cbn [clock tick]. rewrite H1.
  unfold bind at 1. unfold exists_ at 1. cbn [clock tick]. rewrite H2.
  unfold bind at 1. unfold emit.
  unfold bind at 1. unfold ext at 1. cbn [clock tick]. rewrite H3.
  unfold bind at 1.
  match goal with |- context [wait_processing env fuel f ?s] =>
    change s with (after_upload env video_id st) end.
  unfold audio_file_of in Hw. rewrite Hw.
  unfold bind at 1. rewrite Hg.
  unfold bind at 1. unfold try_except at 1.
  unfold bind at 1. unfold ext at 1. rewrite H5.
  cbv [ret]. eexists. eexists. split; [reflexivity|].
  cbn [trace tick]. rewrite Tg, Tw.
  unfold after_upload, log, emit. cbn [trace tick snd].
  split; [rewrite <- !app_assoc; reflexivity|].
  rewrite !existsb_app, (no_delete_in nw Ow), (no_delete_in ng Og).
  cbn [app existsb is_os_remove is_remote_delete orb].
  split; [now rewrite !orb_true_r | reflexivity].
Qed.

Lemma failed_cleanup_keeps_transcript_witness :
  exists st' new,
    method3 env_sticky_file 3 (u "dQw4w9WgXcQ") st0 = (Ret (Some (u "hello world")), st') /\
    trace st' = trace st0 ++ new /\
    existsb is_os_remove new = true /\
    existsb is_remote_delete new = false.
Proof.
  eapply (failed_cleanup_keeps_transcript env_sticky_file 3 (u "dQw4w9WgXcQ") st0).
  - reflexivity.
  - reflexivity.
  - reflexivity.
  - reflexivity.
  - cbv. reflexivity.
  - cbv. reflexivity.
  - reflexivity.
Defined.

(** X19. When the audio was downloaded and the upload to the backend
    raises, the third method ends with that exception before any cleanup:
    the downloaded audio file is not removed. *)
Theorem failed_upload_leaves_audio (env : Env) (fuel : nat) (video_id : str)
  (st : St) (e : exn) :
  respond env (clock st) ImportYtDlp = Ret tt ->
  respond env (1 + clock st)
    (YdlDownload (AudioOpts (u "audio_" ++ video_id)) (u "https://youtu.be/" ++ video_id))
  = Ret tt ->
  path_exists env (2 + clock st) (audio_file_of video_id) = true ->
  respond env (3 + clock st) (UploadFile (audio_file_of video_id)) = Raise e ->
  exists st' new,
    method3 env fuel video_id st = (Raise e, st') /\
    trace st' = trace st ++ new /\
    In (Called (YdlDownload (AudioOpts (u "audio_" ++ video_id))
                  (u "https://youtu.be/" ++ video_id))) new /\
    existsb is_os_remove new = false.
Proof.
  intros H0 H1 H2 H3. cbn [Nat.add] in H1, H2, H3. unfold audio_file_of in *.
  unfold method3. unfold bind at 1. unfold ext at 1. rewrite H0.
  unfold bind at 1. unfold log, emit. cbv zeta.
  unfold bind at 1. unfold ext at 1. cbn [clock tick]. rewrite H1.
  unfold bind at 1. unfold exists_ at 1. cbn [clock tick]. rewrite H2.
  unfold bind at 1. unfold emit.
  unfold bind at 1. unfold ext at 1. cbn [clock tick]. rewrite H3.
  eexists. eexists. split; [reflexivity|]. cbn [trace tick].
  split; [rewrite <- !app_assoc; reflexivity|].
  cbn [app In existsb is_os_remove orb]. auto 10.
Qed.

Lemma failed_upload_leaves_audio_witness :
  exists st' new,
    method3 env_upload_refused 3 (u "dQw4w9WgXcQ") st0
    = (Raise (u "503 Service Unavailable"), st') /\
    trace st' = trace st0 ++ new /\
    In (Called (YdlDownload (AudioOpts (u "audio_" ++ u "dQw4w9WgXcQ"))
                  (u "https://youtu.be/" ++ u "dQw4w9WgXcQ"))) new /\
    existsb is_os_remove new = false.
Proof.
  apply (failed_upload_leaves_audio env_upload_refused 3 (u "dQw4w9WgXcQ") st0
           (u "503 Service Unavailable")); reflexivity.
Defined.


(** ** The second method and the pauses of the fallback generator *)

Lemma find_caption_eq (env : Env) (video_id file : str) (rest : list str) :
  find_caption env video_id (file :: rest) =
  if is_caption_file video_id file then
    content <- ext env (ReadFile file) ;;
    ext env (OsRemove file) ;;
    ret (Some (clean_vtt content))
  else find_caption env video_id rest.
Proof. reflexivity. Qed.

(** X20. Of the directory listing, the second method takes the first name
    that begins with [transcript_<id>] and ends with [.vtt]: it reads that
    file, removes it and returns its cleaned text; the names before it are
    left alone and those after it are never read, even if they match. *)
Theorem find_caption_takes_first (env : Env) (video_id : str)
  (before after : list str) (file content : str) :
  forall st,
    forallb (fun name => negb (is_caption_file video_id name)) before = true ->
    is_caption_file video_id file = true ->
    respond env (clock st) (ReadFile file) = Ret content ->
    respond env (S (clock st)) (OsRemove file) = Ret tt ->
    find_caption env video_id (before ++ file :: after) st
    = (Ret (Some (clean_vtt content)),
       tick (Called (OsRemove file)) (tick (Called (ReadFile file)) st)).
Proof.
  induction before as [|name before IH]; intros st Hb Hf Hr Ho.
  - change ([] ++ file :: after) with (file :: after).
    rewrite find_caption_eq, Hf.
    unfold bind at 1. unfold ext at 1. rewrite Hr.
    unfold bind at 1. unfold ext at 1. cbn [clock tick]. rewrite Ho. reflexivity.
  - cbn [forallb] in Hb. apply andb_true_iff in Hb. destruct Hb as [Hn Hb].
    apply negb_true_iff in Hn.
    change ((name :: before) ++ file :: after) with (name :: (before ++ file :: after)).
    rewrite find_caption_eq, Hn. now apply IH.
Qed.

Lemma find_caption_takes_first_witness :
  find_caption env_caption_file (u "dQw4w9WgXcQ")
    ([u "action_main.py"] ++ u "transcript_dQw4w9WgXcQ.en.vtt"
                             :: [u "transcript_dQw4w9WgXcQ.de.vtt"]) st0
  = (Ret (Some (clean_vtt (u "WEBVTT" ++ [10%N] ++ u "00:00:01.000 --> 00:00:02.000"
                           ++ [10%N] ++ u "<c>hello</c> [Music] world"))),
     tick (Called (OsRemove (u "transcript_dQw4w9WgXcQ.en.vtt")))
       (tick (Called (ReadFile (u "transcript_dQw4w9WgXcQ.en.vtt"))) st0)).
Proof.
  apply (find_caption_takes_first env_caption_file (u "dQw4w9WgXcQ")
           [u "action_main.py"] [u "transcript_dQw4w9WgXcQ.de.vtt"]
           (u "transcript_dQw4w9WgXcQ.en.vtt")); reflexivity.
Defined.

Lemma find_caption_not_method3 (env : Env) (video_id : str) (files : list str) :
  adds_only not_method3 (find_caption env video_id files).
Proof.
  induction files as [|f rest IH]; simpl; [apply adds_only_ret|].
  steps. exact IH.
Qed.

(** X21. When the first method raises and the second returns a caption
    text, [get_transcript] returns that text and the third method is not
    run: no audio is downloaded, nothing is uploaded and no model is
    asked. *)
Theorem tier2_text_ends_cascade (env : Env) (fuel : nat) (video_id : str) (st : St)
  (e1 : exn) (s1 : St) (text : str) (s2 : St) :
  let start :=
    snd (log INFO ([128373; 65039]%N ++ u " Fetching transcript for " ++ video_id ++ u "...") st) in
  let after1 := snd (log WARNING (warning_sign ++ u " API Method failed: " ++ e1) s1) in
  method1 env video_id start = (Raise e1, s1) ->
  method2 env video_id after1 = (Ret (Some text), s2) ->
  get_transcript env fuel video_id st = (Ret (Some text), s2) /\
  text <> [] /\
  exists new, trace s2 = trace st ++ new /\ existsb is_method3_call new = false.
Proof.
  cbv zeta. intros H1 H2. split; [|split].
  - unfold get_transcript. unfold bind at 1.
    change (log INFO ([128373; 65039]%N ++ u " Fetching transcript for " ++ video_id ++ u "...") st)
      with (Ret tt, snd (log INFO ([128373; 65039]%N ++ u " Fetching transcript for "
                                   ++ video_id ++ u "...") st)).
    unfold bind at 1. unfold try_except at 1. unfold bind at 1. rewrite H1.
    unfold bind at 1.
    change (log WARNING (warning_sign ++ u " API Method failed: " ++ e1) s1)
      with (Ret tt, snd (log WARNING (warning_sign ++ u " API Method failed: " ++ e1) s1)).
    cbv [ret]. unfold bind at 1. unfold try_except at 1. rewrite H2. reflexivity.
  - intros ->. revert H2. unfold method2. cbv [bind sleep emit ret].
    destruct (ext env ImportYtDlp _) as [[[]|?|] ?]; try discriminate.
    destruct (ext env (YdlDownload _ _) _) as [[[]|?|] ?]; try discriminate.
    destruct (ext env (ListDir _) _) as [[files|?|] ?]; try discriminate.
    destruct (find_caption env video_id files _) as [[[[|? ?]|]|?|] ?]; discriminate.
  - assert (A1 : adds_only not_method3 (method1 env video_id))
      by (unfold method1; steps).
    assert (A2 : adds_only not_method3 (method2 env video_id)).
    { unfold method2, sleep. steps. apply find_caption_not_method3. }
    assert (E : extends not_method3 st s2).
    { eapply extends_trans.
      { apply (adds_only_emit not_method3
                 (Log INFO ([128373; 65039]%N ++ u " Fetching transcript for "
                            ++ video_id ++ u "...")) eq_refl st (Ret tt)).
        reflexivity. }
      eapply extends_trans; [exact (A1 _ _ _ H1)|].
      eapply extends_trans; [|exact (A2 _ _ _ H2)].
      apply (adds_only_emit not_method3
               (Log WARNING (warning_sign ++ u " API Method failed: " ++ e1))
               eq_refl s1 (Ret tt)).
      reflexivity. }
    destruct E as (new & T & O & _). exists new. split; [exact T|].
    clear -O. induction new as [|ev new IH]; [reflexivity|].
    simpl in *. apply andb_true_iff in O. destruct O as [O1 O2].
    unfold not_method3 in O1. apply negb_true_iff in O1. rewrite O1. now apply IH.
Qed.


Lemma tier2_text_ends_cascade_witness :
  exists s2,
    get_transcript env_caption_file 3 (u "dQw4w9WgXcQ") st0
    = (Ret (Some (u "hello  world")), s2) /\
    u "hello  world" <> [] /\
    exists new, trace s2 = trace st0 ++ new /\ existsb is_method3_call new = false.
Proof.
  eexists.
  eapply (tier2_text_ends_cascade env_caption_file 3 (u "dQw4w9WgXcQ") st0).
  - cbv. reflexivity.
  - cbv. reflexivity.
Defined.






(** ** The prompt *)

(** X23. The prompt is bounded whatever the length of the transcript: only
    the first 50000 characters of the transcript enter it, so its length
    is 935 plus the lengths of the title and of the channel name plus the
    length of the transcript cut at 50000; and a transcript gives the
    same prompt as its first 50000 characters alone. *)
Theorem prompt_is_bounded (transcript channel_name video_title : str) :
  length (prompt transcript channel_name video_title)
  = 935 + length video_title + length channel_name
    + Nat.min transcript_limit (length transcript) /\
  prompt (firstn transcript_limit transcript) channel_name video_title
  = prompt transcript channel_name video_title.
Proof.
  assert (F : forall n (l : str), firstn n (firstn n l) = firstn n l).
  { intros n l. rewrite firstn_firstn. now rewrite Nat.min_id. }
  split.
  - unfold prompt. generalize transcript_limit. intros n.
    cbn [join]. rewrite !length_app. rewrite length_firstn.
    repeat match goal with
           | |- context [length (u ?x)] =>
               let k := eval vm_compute in (length (u x)) in
               change (length (u x)) with k
           end.
    cbn [length]. lia.
  - unfold prompt. rewrite F. reflexivity.
Qed.


(** ** The cleanup of the script *)

Lemma thins_refl (s : str) : thins s s.
Proof. induction s; constructor; auto. Qed.

Lemma thins_drop_prefix (p s t : str) :
  Forall (fun c => c <> 10%N) p -> thins s t -> thins (p ++ s) t.
Proof.
  induction 1 as [|c p Hc Hp IH]; intros H; simpl; [exact H|].
  apply thins_drop; auto.
Qed.

(** The characters of a span after its opening character: none is a line
    feed. *)
Lemma find_close_span (cl : N) (r : str) :
  cl <> 10%N ->
  forall n, find_close cl r = Some n ->
  Forall (fun c => c <> 10%N) (firstn (S n) r) /\ n < length r.
Proof.
  intros Hcl. induction r as [|c r IH]; intros n H; [discriminate|].
  cbn [find_close] in H.
  destruct (N.eqb c cl) eqn:E.
  - injection H as <-. apply N.eqb_eq in E. subst c. simpl.
    split; [repeat constructor; exact Hcl | lia].
  - destruct (N.eqb c 10) eqn:E10; [discriminate|].
    destruct (find_close cl r) as [m|]; [|discriminate].
    injection H as <-. destruct (IH m eq_refl) as [F L].
    apply N.eqb_neq in E10. split; [|simpl; lia].
    change (firstn (S (S m)) (c :: r)) with (c :: firstn (S m) r).
    constructor; assumption.
Qed.

(** Removing spans takes out characters, never a line feed. *)
Lemma sub_span_thins (op cl : N) :
  op <> 10%N -> cl <> 10%N ->
  forall n s, length s <= n -> thins s (sub_span op cl s).
Proof.
  intros Hop Hcl. induction n as [|n IH]; intros s L.
  - destruct s; [constructor | simpl in L; lia].
  - destruct s as [|c r]; [constructor|]. simpl in L.
    rewrite sub_span_eq.
    destruct (N.eqb c op) eqn:E.
    + destruct (find_close cl r) as [m|] eqn:F.
      * destruct (find_close_span cl r Hcl m F) as [Fa Lr].
        apply N.eqb_eq in E. subst c. apply thins_drop; [exact Hop|].
        rewrite <- (firstn_skipn (S m) r) at 1.
        apply thins_drop_prefix; [exact Fa|].
        apply IH. rewrite length_skipn. lia.
      * apply thins_keep. apply IH. lia.
    + apply thins_keep. apply IH. lia.
Qed.

Lemma thins_find_close (cl : N) (s t : str) :
  thins s t -> find_close cl s = None -> find_close cl t = None.
Proof.
  induction 1 as [|c s t H IH|c s t Hc H IH]; intros F; [reflexivity| |];
    cbn [find_close] in F |- *;
    destruct (N.eqb c cl) eqn:E; try discriminate.
  - destruct (N.eqb c 10); [reflexivity|].
    destruct (find_close cl s); [discriminate|]. now rewrite IH.
  - apply N.eqb_neq in Hc. rewrite Hc in F.
    destruct (find_close cl s); [discriminate|]. now apply IH.
Qed.

Lemma thins_has_span (op cl : N) (s t : str) :
  thins s t -> has_span op cl s = false -> has_span op cl t = false.
Proof.
  induction 1 as [|c s t H IH|c s t Hc H IH]; intros F; [reflexivity| |];
    cbn [has_span] in F; apply orb_false_iff in F; destruct F as [F1 F2].
  - cbn [has_span]. rewrite (IH F2), orb_false_r.
    destruct (N.eqb c op); [|reflexivity]. cbn [andb] in *.
    destruct (find_close cl s) eqn:E; [discriminate|].
    now rewrite (thins_find_close cl s t H E).
  - now apply IH.
Qed.

(** After the substitution no span of its kind is left. *)
Lemma sub_span_complete (op cl : N) :
  op <> 10%N -> cl <> 10%N ->
  forall n s, length s <= n -> has_span op cl (sub_span op cl s) = false.
Proof.
  intros Hop Hcl. induction n as [|n IH]; intros s L.
  - destruct s; [reflexivity | simpl in L; lia].
  - destruct s as [|c r]; [reflexivity|]. simpl in L.
    rewrite sub_span_eq.
    destruct (N.eqb c op) eqn:E.
    + destruct (find_close cl r) as [m|] eqn:F.
      * apply IH. rewrite length_skipn. lia.
      * cbn [has_span]. rewrite E, (IH r) by lia. cbn [andb].
        rewrite (thins_find_close cl r _ (sub_span_thins op cl Hop Hcl _ r (Nat.le_refl _)) F).
        reflexivity.
    + cbn [has_span]. rewrite E, (IH r) by lia. reflexivity.
Qed.

Lemma final_cleanup_speakable (s : str) : speakable (final_cleanup s).
Proof.
  unfold speakable, final_cleanup, sub_stars, sub_brackets, sub_parens.
  assert (T : forall op cl x, op <> 10%N -> cl <> 10%N -> thins x (sub_span op cl x))
    by (intros op cl x Ho Hc; now apply (sub_span_thins op cl Ho Hc (length x))).
  assert (C : forall op cl x, op <> 10%N -> cl <> 10%N ->
                has_span op cl (sub_span op cl x) = false)
    by (intros op cl x Ho Hc; now apply (sub_span_complete op cl Ho Hc (length x))).
  split; [|split].
  - apply (thins_has_span _ _ _ _ (T 40 41 _ ltac:(discriminate) ltac:(discriminate)))%N.
    apply (thins_has_span _ _ _ _ (T 91 93 _ ltac:(discriminate) ltac:(discriminate)))%N.
    apply C; discriminate.
  - apply (thins_has_span _ _ _ _ (T 40 41 _ ltac:(discriminate) ltac:(discriminate)))%N.
    apply C; discriminate.
  - apply C; discriminate.
Qed.

(** X24. Whatever the backend answers, a script that [analyze_video]
    returns can be read aloud as it is: no line of it holds a pair of
    asterisks, an opening bracket followed by a closing one, or an opening
    parenthesis followed by a closing one.  The three substitutions
    together leave no match of any of the three patterns. *)
Theorem returned_script_is_speakable (env : Env)
  (transcript channel_name video_title video_url : str) (st st' : St) (c : content) :
  analyze_video env transcript channel_name video_title video_url st
  = (Ret (Some c), st') ->
  speakable (podcast c).
Proof.
  unfold analyze_video, bind.
  destruct (generate_with_fallback env _ st) as [[text|e|] s1]; try discriminate.
  unfold parse_response.
  destruct text as [[|x text]|]; try discriminate.
  unfold try_except. cbv [bind lift ret].
  destruct (negb (contains TELEGRAM_MARKER (x :: text))
            || negb (contains PODCAST_MARKER (x :: text))).
  { cbv [log emit]. discriminate. }
  destruct (getitem (split PODCAST_MARKER (x :: text)) 0) as [p0|e|];
    try (cbv [log emit]; discriminate).
  destruct (getitem (split PODCAST_MARKER (x :: text)) 1) as [p1|e|];
    try (cbv [log emit]; discriminate).
  intros H. injection H as <- _. cbn [podcast]. apply final_cleanup_speakable.
Qed.

Lemma returned_script_is_speakable_witness :
  speakable (u "Whoa! Imagine this. Check the link, it's wild!").
Proof.
  eapply (returned_script_is_speakable env_tts_down (u "hello world")
            (v_channel demo_video) (v_title demo_video) (v_url demo_video) st0 _
            {| telegram := u "Chips that think." ++ [10; 10; 128279; 32]%N
                           ++ v_url demo_video;
               podcast := u "Whoa! Imagine this. Check the link, it's wild!" |}).
  vm_compute. reflexivity.
Defined.


(** ** The configuration and the ledger, end to end *)

Lemma collect_urls_bad_item (items : list json) :
  existsb is_plain_scalar items = true -> exists e, collect_urls items = Raise e.
Proof.
  induction items as [|item r IH]; intros H; [discriminate|].
  cbn [existsb] in H. cbn [collect_urls].
  destruct item; cbn [is_plain_scalar orb] in H; cbn [has_url]; eauto.
  - destruct (contains (u "url") s); [cbn [getitem_url]; eauto|]. exact (IH H).
  - destruct (existsb (key_eqb (JStr (u "url"))) l); [cbn [getitem_url]; eauto|].
    exact (IH H).
  - destruct (IH H) as (e & ->).
    destruct (lookup (u "url") kv) eqn:E; cbn [getitem_url]; rewrite ?E; eauto.
Qed.

(** X3. In a feed configuration that is a list beginning with an object,
    one item that is a number, a boolean or [null] makes the loader give
    up the whole list: it logs one warning and the feed list is empty,
    whatever URLs the other items hold. *)
Theorem load_feeds_drops_list_on_bad_item (st : St) (kv : list (str * json))
  (rest : list json) :
  feeds_file st = Holds (JArr (JObj kv :: rest)) ->
  existsb is_plain_scalar rest = true ->
  exists e,
    load_feeds st
    = (Ret (JArr []),
       snd (log WARNING (warning_sign ++ u " feeds.json error: " ++ e
                         ++ u ". Using empty list.") st)).
Proof.
  intros Hf Hb.
  destruct (collect_urls_bad_item (JObj kv :: rest)) as (e & He).
  { cbn [existsb is_plain_scalar orb]. exact Hb. }
  exists e. unfold load_feeds, try_except. rewrite Hf.
  cbv [bind read_json ret lift py_truthy getitem0 is_dict iterate].
  rewrite He. reflexivity.
Qed.

Lemma load_feeds_drops_list_on_bad_item_witness :
  exists e,
    load_feeds (st_feeds (JArr (JObj [(u "url", JStr (u "https://a.example/feed"))]
                                :: [JNum 7])))
    = (Ret (JArr []),
       snd (log WARNING (warning_sign ++ u " feeds.json error: " ++ e
                         ++ u ". Using empty list.")
              (st_feeds (JArr (JObj [(u "url", JStr (u "https://a.example/feed"))]
                               :: [JNum 7]))))).
Proof.
  apply (load_feeds_drops_list_on_bad_item
           (st_feeds (JArr (JObj [(u "url", JStr (u "https://a.example/feed"))]
                            :: [JNum 7])))
           [(u "url", JStr (u "https://a.example/feed"))] [JNum 7]); reflexivity.
Defined.




